(** * Spotify MCP server: credential store, remote operations, dispatch gateway

    A shallow embedding of [src/spotify-api.ts], [src/tools.ts] and the
    server entry point (the [CallToolRequestSchema] handler).

    Conventions of the embedding.

    - JavaScript values are the JSON values plus [undefined] and [NaN].
      Numbers are the integers (with [NaN] apart): counts, offsets, limits,
      durations in milliseconds, lifetimes in seconds and clock readings.
      Fractional numbers are outside the value domain.  The numbers of the
      engine are IEEE-754 doubles: sums, products and [Math.min] of
      integers are exact as long as the integers stay below [2^53] in
      magnitude, and the model computes them exactly.  The two places
      where the source leaves the integers are modelled on the doubles
      themselves (section Binary64): the quotients of [formatDuration],
      and the product by [0.9] of line 67, whose evaluation on doubles is
      [expiry_binary64].
    - TypeScript's types are erased at run time, so wherever the source
      receives an unchecked value (tool arguments, upstream JSON) the
      embedding keeps a [JSValue] and spells out the coercions the
      operators of the source perform.
    - An [async] function is a computation in the monad [M]: it reads and
      writes the [World] (the module-level credential pair, the number of
      interactions with the outside so far, the log of network exchanges) and
      completes normally or by throwing.  Built-ins and the outside world
      are the fields of an [Engine].
    - [console.error] diagnostics have no influence on control flow or on
      the credential pair and are not modelled. *)

From Stdlib Require Import ZArith List String Ascii Bool Lia DecimalString.
From Stdlib Require Import Floats Uint63.
Import ListNotations.

Local Open Scope string_scope.
Local Open Scope Z_scope.

(** * Part I: the model *)

(** ** Strings *)

(** The line feed and the double quote of the template literals. *)
Definition LF : string := String (ascii_of_nat 10) EmptyString.
Definition DQ : string := String (ascii_of_nat 34) EmptyString.

(** [Array.prototype.join] on an array of strings. *)
Fixpoint join (sep : string) (l : list string) : string :=
  match l with
  | [] => EmptyString
  | [s] => s
  | s :: rest => s ++ sep ++ join sep rest
  end.

(** The first [n] characters of [pad] repeated for ever ([rest] is what is
    left of the current copy). *)
Fixpoint cycle (n : nat) (pad rest : string) : string :=
  match n with
  | O => EmptyString
  | S n' =>
      match rest with
      | String c r => String c (cycle n' pad r)
      | EmptyString =>
          match pad with
          | String c r => String c (cycle n' pad r)
          | EmptyString => EmptyString
          end
      end
  end.

(** [String.prototype.padStart(targetLength, padString)]. *)
Definition padStart (targetLength : nat) (padString s : string) : string :=
  cycle (targetLength - String.length s) padString padString ++ s.

(** ** Numbers *)

(** A JavaScript number of the model: an integer or [NaN]. *)
Inductive number : Type :=
| Num (n : Z)
| NaN.

(** *** Binary64

    The numbers of the engine are IEEE-754 doubles, [m * 2^e] with a
    mantissa [m] of 53 bits.  An operation returns the double nearest to
    its exact result, ties going to the even mantissa.  A double is
    written here as the pair [(m, e)] of a mantissa and an exponent.
    Results too small or too large for a normal exponent (below [2^-1022]
    or from [2^1024] on in magnitude) are outside the model. *)

(** The integer nearest to [a / b], ties to the even one ([0 < b]). *)
Definition round_half_even (a b : Z) : Z :=
  let q := a / b in
  let r := a mod b in
  if 2 * r <? b then q
  else if b <? 2 * r then q + 1
  else if Z.even q then q else q + 1.

(** [a / b] times [2^s], as a numerator and a denominator. *)
Definition scale (a b s : Z) : Z * Z :=
  if 0 <=? s then (a * 2 ^ s, b) else (a, b * 2 ^ (- s)).

(** The [s] for which [2^52 <= (a / b) * 2^s < 2^53] ([0 < a], [0 < b]). *)
Definition shift (a b : Z) : Z :=
  let s := 53 - Z.log2 a + Z.log2 b in
  let (n, d) := scale a b s in
  if d * 2 ^ 53 <=? n then s - 1 else s.

(** The double nearest to the rational [a / b] ([0 < b]). *)
Definition nearest (a b : Z) : Z * Z :=
  if a =? 0 then (0, 0)
  else
    let s := shift (Z.abs a) b in
    let (n, d) := scale a b s in
    (round_half_even n d, - s).

(** The double nearest to [m * 2^e]. *)
Definition nearest_dyadic (x : Z * Z) : Z * Z :=
  let (m, e) := x in
  if 0 <=? e then nearest (m * 2 ^ e) 1 else nearest m (2 ^ (- e)).

(** [x * y] and [x + y] on doubles. *)
Definition double_mul (x y : Z * Z) : Z * Z :=
  nearest_dyadic (fst x * fst y, snd x + snd y).

Definition double_add (x y : Z * Z) : Z * Z :=
  let e := Z.min (snd x) (snd y) in
  nearest_dyadic (fst x * 2 ^ (snd x - e) + fst y * 2 ^ (snd y - e), e).

(** [Math.floor(x)] of a double. *)
Definition floor_double (x : Z * Z) : Z :=
  let (m, e) := x in
  if 0 <=? e then m * 2 ^ e else m / 2 ^ (- e).

(** The integer a double is, if it is one. *)
Definition integer_of (x : Z * Z) : option Z :=
  let (m, e) := x in
  if 0 <=? e then Some (m * 2 ^ e)
  else if m mod 2 ^ (- e) =? 0 then Some (m / 2 ^ (- e)) else None.

(** The double nearest to an integer; an integer is a number of the
    engine when it is that double. *)
Definition binary64_integer (z : Z) : Z := floor_double (nearest z 1).

(** The decimal digits of an integer, with a leading minus sign when
    negative. *)
Definition decimal (n : Z) : string := NilZero.string_of_int (Z.to_int n).

(** The decimal with the fewest significant digits that reads back as the
    double [x] (a positive integer with [p] digits); of two such decimals
    the one nearest to [x], and the even one when they are as near. *)
Fixpoint shortest (tries : nat) (k p x : Z) : Z :=
  match tries with
  | O => x
  | S tries' =>
      let unit := 10 ^ (p - k) in
      let s := x / unit in
      let below := s * unit in
      let above := (s + 1) * unit in
      let below_reads := binary64_integer below =? x in
      let above_reads := binary64_integer above =? x in
      if below_reads && above_reads then
        if x - below <? above - x then below
        else if above - x <? x - below then above
        else if Z.even s then below else above
      else if below_reads then below
      else if above_reads then above
      else shortest tries' (k + 1) p x
  end.

(** A string without its final zeros. *)
Fixpoint strip_zeros (s : string) : string :=
  match s with
  | EmptyString => EmptyString
  | String c rest =>
      match strip_zeros rest with
      | EmptyString => if Ascii.eqb c "0" then EmptyString else String c EmptyString
      | rest' => String c rest'
      end
  end.

(** The exponent form of a positive integer: its significant digits, with
    a point after the first when there are more, and the power of ten. *)
Definition exponent_form (v : Z) : string :=
  let digits := decimal v in
  let power := decimal (Z.of_nat (String.length digits) - 1) in
  match strip_zeros digits with
  | String d EmptyString => String d EmptyString ++ "e+" ++ power
  | String d more => String d EmptyString ++ "." ++ more ++ "e+" ++ power
  | EmptyString => digits
  end.

(** [Number.prototype.toString] on an integer: its decimal digits below
    [2^53] in magnitude; from there on the shortest decimal that reads
    back as the same double, written in full below [10^21] and in exponent
    form from [10^21] on. *)
Definition Number_toString (x : number) : string :=
  match x with
  | Num n =>
      if Z.abs n <? 2 ^ 53 then decimal n
      else
        let a := Z.abs n in
        let v := shortest 17 1 (Z.of_nat (String.length (decimal a))) a in
        (if n <? 0 then "-" else EmptyString)
        ++ (if v <? 10 ^ 21 then decimal v else exponent_form v)
  | NaN => "NaN"
  end.

Arguments Number_toString : simpl never.

(** The literal [0.9]: the double [0x1.ccccccccccccdp-1]. *)
Definition nine_tenths : Z * Z := (8106479329266893, -53).

(** [Math.floor(x / k)] for a positive integer literal [k]: the quotient
    is rounded to the nearest double, and then floored. *)
Definition floor_div (x : number) (k : Z) : number :=
  match x with
  | Num n => Num (floor_double (nearest n k))
  | NaN => NaN
  end.

(** [x % k]: the remainder has the sign of the dividend (on doubles it is
    exact). *)
Definition remainder (x : number) (k : Z) : number :=
  match x with
  | Num n => Num (Z.rem n k)
  | NaN => NaN
  end.

(** [x + y] and [x * y] on numbers: exact, as on the doubles of the engine
    while the integers stay below [2^53] in magnitude. *)
Definition number_add (x y : number) : number :=
  match x, y with
  | Num a, Num b => Num (a + b)
  | _, _ => NaN
  end.

Definition number_mul (x y : number) : number :=
  match x, y with
  | Num a, Num b => Num (a * b)
  | _, _ => NaN
  end.

(** [x * 0.9].  The source applies it to a multiple of [1000] only, where
    nine tenths is an integer and the quotient below is exact; on the
    doubles of the engine the product is this integer as long as [x] is
    below [2^53] (see [expiry_binary64] and [expiry_binary64_exact]). *)
Definition times_0_9 (x : number) : number :=
  match x with
  | Num n => Num (n * 9 / 10)
  | NaN => NaN
  end.

(** [Math.min(x, y)]. *)
Definition Math_min (x y : number) : number :=
  match x, y with
  | Num a, Num b => Num (Z.min a b)
  | _, _ => NaN
  end.

(** [x > y]: false as soon as one side is [NaN]. *)
Definition number_gt (x y : number) : bool :=
  match x, y with
  | Num a, Num b => b <? a
  | _, _ => false
  end.

(** The decimal digit of [d], for [0 <= d <= 9]. *)
Definition digit (d : Z) : ascii := ascii_of_nat (48 + Z.to_nat d).

(** [seconds] written with exactly two decimal digits. *)
Definition two_digits (seconds : Z) : string :=
  String (digit (seconds / 10)) (String (digit (seconds mod 10)) EmptyString).

(** ** [formatDuration] (spotify-api.ts, lines 9-14) *)
Definition formatDuration (ms : number) : string :=
  let totalSeconds := floor_div ms 1000 in
  let minutes := floor_div totalSeconds 60 in
  let seconds := remainder totalSeconds 60 in
  Number_toString minutes ++ ":" ++ padStart 2 "0" (Number_toString seconds).

(** Line 67 on the doubles of the engine:
    [Date.now() + (data.expires_in * 1000 * 0.9)], for a clock reading and
    a lifetime that are integers. *)
Definition expiry_binary64 (now expires_in : Z) : Z * Z :=
  double_add (now, 0)
    (double_mul (double_mul (expires_in, 0) (1000, 0)) nine_tenths).

(** A double that is the integer [z], its mantissa shifted to the left. *)
Definition represents (x : Z * Z) (z : Z) : Prop :=
  exists s, 0 <= s /\ x = (z * 2 ^ s, - s).

(** ** Values *)

#[warnings="-register-all"]
Inductive JSValue : Type :=
| JUndefined
| JNull
| JBool (b : bool)
| JNum (x : number)
| JStr (s : string)
| JArr (elements : list JSValue)
| JObj (properties : list (string * JSValue)).

(** The value of the own property [key] of an object literal, [undefined]
    when there is none. *)
Fixpoint lookup (key : string) (properties : list (string * JSValue)) : JSValue :=
  match properties with
  | [] => JUndefined
  | (k, v) :: rest => if String.eqb key k then v else lookup key rest
  end.

Fixpoint has_key (key : string) (properties : list (string * JSValue)) : bool :=
  match properties with
  | [] => false
  | (k, _) :: rest => String.eqb key k || has_key key rest
  end.

(** [ToString], as a template literal or [String(v)] applies it.  An array
    prints its elements separated by commas, [null] and [undefined] as
    nothing. *)
Fixpoint ToString (v : JSValue) : string :=
  match v with
  | JUndefined => "undefined"
  | JNull => "null"
  | JBool true => "true"
  | JBool false => "false"
  | JNum x => Number_toString x
  | JStr s => s
  | JArr elements =>
      (fix elements_toString (l : list JSValue) : string :=
         match l with
         | [] => EmptyString
         | x :: rest =>
             let here :=
               match x with
               | JUndefined | JNull => EmptyString
               | _ => ToString x
               end in
             match rest with
             | [] => here
             | _ :: _ => here ++ "," ++ elements_toString rest
             end
         end) elements
  | JObj _ => "[object Object]"
  end.

(** What the engine can convert to a string.  The values here come from
    JSON, so an own property [toString] of an object is never a function:
    converting such an object is a [TypeError].  (Without that property
    the object prints as "[object Object]".)  An array is converted
    through its elements. *)
Fixpoint convertible (v : JSValue) : bool :=
  match v with
  | JObj properties => negb (has_key "toString" properties)
  | JArr elements => forallb convertible elements
  | _ => true
  end.

(** A primitive value: neither an array nor an object. *)
Definition primitive (v : JSValue) : bool :=
  match v with
  | JArr _ | JObj _ => false
  | _ => true
  end.

(** One element of [Array.prototype.join]. *)
Definition join_element (v : JSValue) : string :=
  match v with
  | JUndefined | JNull => EmptyString
  | _ => ToString v
  end.

(** Truthiness, as [!v], [a && b], [a || b] and [c ? a : b] test it. *)
Definition truthy (v : JSValue) : bool :=
  match v with
  | JUndefined | JNull => false
  | JBool b => b
  | JNum (Num n) => negb (n =? 0)
  | JNum NaN => false
  | JStr s => negb (String.eqb s EmptyString)
  | JArr _ | JObj _ => true
  end.

(** [typeof v === "object"] (true of [null] too) and [Array.isArray(v)]. *)
Definition typeof_object (v : JSValue) : bool :=
  match v with
  | JNull | JArr _ | JObj _ => true
  | _ => false
  end.

Definition typeof_string (v : JSValue) : bool :=
  match v with
  | JStr _ => true
  | _ => false
  end.

Definition is_null (v : JSValue) : bool :=
  match v with
  | JNull => true
  | _ => false
  end.

Definition is_undefined (v : JSValue) : bool :=
  match v with
  | JUndefined => true
  | _ => false
  end.

Definition Array_isArray (v : JSValue) : bool :=
  match v with
  | JArr _ => true
  | _ => false
  end.

(** [key in v] for a non-null object [v] and the property names the type
    guards ask for (none of them is an index or [length], so an array has
    none of them). *)
Definition has_property (key : string) (v : JSValue) : bool :=
  match v with
  | JObj properties => has_key key properties
  | _ => false
  end.

(** A parameter or destructuring default: it replaces [undefined] only. *)
Definition default_to (v d : JSValue) : JSValue :=
  if is_undefined v then d else v.

(** ** Completions *)

(** What a [throw] carries: an [Error] object (of which the gateway reads
    the [message]) or any other value. *)
Inductive Thrown : Type :=
| ErrorObject (message : string)
| Raised (v : JSValue).

Inductive Completion (A : Type) : Type :=
| Normal (a : A)
| Throw (e : Thrown).

Arguments Normal {A} a.
Arguments Throw {A} e.

Definition and_then {A B : Type} (c : Completion A) (k : A -> Completion B)
  : Completion B :=
  match c with
  | Normal a => k a
  | Throw e => Throw e
  end.

Notation "x <-- c ;; k" := (and_then c (fun x => k))
  (at level 61, c at next level, right associativity).

(** The [TypeError]s of the engine (V8's wording). *)
Definition cannot_read (v : JSValue) (key : string) : Thrown :=
  ErrorObject ("Cannot read properties of " ++ ToString v
               ++ " (reading '" ++ key ++ "')").

Definition not_a_function (callee : string) : Thrown :=
  ErrorObject (callee ++ " is not a function").

Definition cannot_convert : Thrown :=
  ErrorObject "Cannot convert object to primitive value".

(** [v.key] for the property names the source reads: an own property of an
    object, the [length] of an array or of a string (of ASCII characters),
    [undefined] on the other primitives, a [TypeError] on [null] and
    [undefined]. *)
Definition get (v : JSValue) (key : string) : Completion JSValue :=
  match v with
  | JUndefined | JNull => Throw (cannot_read v key)
  | JObj properties => Normal (lookup key properties)
  | JArr elements =>
      Normal (if String.eqb key "length"
              then JNum (Num (Z.of_nat (List.length elements)))
              else JUndefined)
  | JStr s =>
      Normal (if String.eqb key "length"
              then JNum (Num (Z.of_nat (String.length s)))
              else JUndefined)
  | JBool _ | JNum _ => Normal JUndefined
  end.

(** The same read where the source has already established that [v] is a
    non-null object (inside a type guard, after [&&]). *)
Definition prop (v : JSValue) (key : string) : JSValue :=
  match get v key with
  | Normal x => x
  | Throw _ => JUndefined
  end.

(** [v.map(f)] with [f] receiving the element and its index. *)
Fixpoint map_indexed {A : Type} (f : JSValue -> Z -> Completion A)
  (l : list JSValue) (index : Z) : Completion (list A) :=
  match l with
  | [] => Normal []
  | x :: rest =>
      y <-- f x index ;;
      ys <-- map_indexed f rest (index + 1) ;;
      Normal (y :: ys)
  end.

Definition Array_map {A : Type} (callee : string) (v : JSValue)
  (f : JSValue -> Z -> Completion A) : Completion (list A) :=
  match v with
  | JArr elements => map_indexed f elements 0
  | JUndefined | JNull => Throw (cannot_read v "map")
  | _ => Throw (not_a_function (callee ++ ".map"))
  end.

(** [v.join(sep)]: every element is converted to a string. *)
Definition Array_join (callee : string) (v : JSValue) (sep : string)
  : Completion string :=
  match v with
  | JArr elements =>
      if forallb convertible elements
      then Normal (join sep (map join_element elements))
      else Throw cannot_convert
  | JUndefined | JNull => Throw (cannot_read v "join")
  | _ => Throw (not_a_function (callee ++ ".join"))
  end.

(** [v.toString()]: the method of the prototype, unless an own property
    of the object hides it. *)
Definition method_toString (callee : string) (v : JSValue) : Completion string :=
  match v with
  | JUndefined | JNull => Throw (cannot_read v "toString")
  | JObj properties =>
      if has_key "toString" properties
      then Throw (not_a_function (callee ++ ".toString"))
      else Normal (ToString v)
  | JArr elements =>
      if forallb convertible elements then Normal (ToString v)
      else Throw cannot_convert
  | _ => Normal (ToString v)
  end.

(** ** Coercions and operators on values *)

Section Operators.

(** [StringToNumber] of the engine: the number a string reads as. *)
Variable StringToNumber : string -> number.

(** [ToPrimitive]: an array or an object becomes its string. *)
Definition ToPrimitive (v : JSValue) : JSValue :=
  match v with
  | JArr _ | JObj _ => JStr (ToString v)
  | _ => v
  end.

(** [ToNumber], as the arithmetic operators, [Math.min] and the
    comparisons with a number apply it. *)
Definition ToNumber (v : JSValue) : number :=
  match ToPrimitive v with
  | JUndefined => NaN
  | JNull => Num 0
  | JBool true => Num 1
  | JBool false => Num 0
  | JNum x => x
  | JStr s => StringToNumber s
  | JArr _ | JObj _ => NaN
  end.

(** [a + b]: concatenation as soon as one primitive is a string, the sum
    of the numbers otherwise. *)
Definition js_add (a b : JSValue) : JSValue :=
  let pa := ToPrimitive a in
  let pb := ToPrimitive b in
  if typeof_string pa || typeof_string pb
  then JStr (ToString pa ++ ToString pb)
  else JNum (number_add (ToNumber pa) (ToNumber pb)).

(** [a * b]. *)
Definition js_mul (a b : JSValue) : number :=
  number_mul (ToNumber a) (ToNumber b).

(** [v === k] and [v > k] for a number literal [k]. *)
Definition strictly_equals (v : JSValue) (k : Z) : bool :=
  match v with
  | JNum (Num n) => n =? k
  | _ => false
  end.

Definition greater_than (v : JSValue) (k : Z) : bool :=
  number_gt (ToNumber v) (Num k).

End Operators.

(** ** Requests and responses *)

(** A [URL] object: the string it was built from and the search parameters
    set on it since. *)
Record URL : Type := {
  href : string;
  searchParams : list (string * string)
}.

Definition new_URL (s : string) : URL :=
  {| href := s; searchParams := [] |}.

(** [searchParams.set(key, value)] on the list of parameters: the first
    occurrence is replaced and the others dropped, a new key goes last. *)
Fixpoint remove_key (key : string) (l : list (string * string))
  : list (string * string) :=
  match l with
  | [] => []
  | (k, v) :: rest =>
      if String.eqb key k then remove_key key rest
      else (k, v) :: remove_key key rest
  end.

Fixpoint set_param (key value : string) (l : list (string * string))
  : list (string * string) :=
  match l with
  | [] => [(key, value)]
  | (k, v) :: rest =>
      if String.eqb key k then (key, value) :: remove_key key rest
      else (k, v) :: set_param key value rest
  end.

Definition searchParams_set (u : URL) (key value : string) : URL :=
  {| href := href u; searchParams := set_param key value (searchParams u) |}.

(** The value of a search parameter, if set. *)
Fixpoint searchParams_get (key : string) (l : list (string * string))
  : option string :=
  match l with
  | [] => None
  | (k, v) :: rest => if String.eqb key k then Some v else searchParams_get key rest
  end.

(** The body of a request: none, a form ([URLSearchParams]) or a value
    given to [JSON.stringify]. *)
Inductive Body : Type :=
| NoBody
| FormBody (fields : list (string * string))
| JsonBody (v : JSValue).

Record Request : Type := {
  url : URL;
  method : string;
  headers : list (string * string);
  payload : Body
}.

(** A [GET] with the bearer token, as every read operation sends it. *)
Definition bearer_get (u : URL) (token : JSValue) : Request :=
  {| url := u;
     method := "GET";
     headers := [("Authorization", "Bearer " ++ ToString token)];
     payload := NoBody |}.

(** A [POST] of a JSON body with the bearer token. *)
Definition bearer_post (u : URL) (token : JSValue) (v : JSValue) : Request :=
  {| url := u;
     method := "POST";
     headers := [("Authorization", "Bearer " ++ ToString token);
                 ("Content-Type", "application/json")];
     payload := JsonBody v |}.

(** A [Response], read to its end. *)
Record Response : Type := {
  status : Z;
  statusText : string;
  body : string
}.

(** [response.ok]: the status is in the range 200-299. *)
Definition ok (r : Response) : bool :=
  (200 <=? status r) && (status r <=? 299).

(** ** The world and the engine *)

(** The module-level variables [accessToken] and [tokenExpiryTime] of
    spotify-api.ts, with the count of interactions with the outside so far
    (clock readings and requests) and the log of the exchanges with the
    network: each request sent with what came back, latest first. *)
Record World : Type := {
  accessToken : JSValue;
  tokenExpiryTime : number;
  interactions : nat;
  exchanges : list (Request * Completion Response)
}.

(** The requests sent so far, latest first. *)
Definition sent (w : World) : list Request := map fst (exchanges w).

(** The state at module load: [accessToken = ""], [tokenExpiryTime = 0]. *)
Definition initial_world : World :=
  {| accessToken := JStr EmptyString;
     tokenExpiryTime := Num 0;
     interactions := O;
     exchanges := [] |}.

(** What the program does not define: the process environment, the clock,
    the network and the built-ins.  The clock and the network answer
    according to the number of interactions that came before. *)
Record Engine : Type := {
  process_env : string -> JSValue;
  clock : nat -> Z;
  network : nat -> Request -> Completion Response;
  JSON_parse : string -> Completion JSValue;
  StringToNumber : string -> number;
  base64 : string -> string;
  Date_toLocaleString : JSValue -> string
}.

(** ** The monad of asynchronous functions *)

Definition M (A : Type) : Type := World -> Completion A * World.

Definition ret {A : Type} (a : A) : M A := fun w => (Normal a, w).

Definition throw {A : Type} (e : Thrown) : M A := fun w => (Throw e, w).

Definition bind {A B : Type} (c : M A) (k : A -> M B) : M B :=
  fun w =>
    match c w with
    | (Normal a, w') => k a w'
    | (Throw e, w') => (Throw e, w')
    end.

(** A computation that does not touch the world. *)
Definition lift {A : Type} (c : Completion A) : M A := fun w => (c, w).

(** [try { c } catch (error) { handler error }]. *)
Definition try_catch {A : Type} (c : M A) (handler : Thrown -> M A) : M A :=
  fun w =>
    match c w with
    | (Normal a, w') => (Normal a, w')
    | (Throw e, w') => handler e w'
    end.

Notation "x <- c ;; k" := (bind c (fun x => k))
  (at level 61, c at next level, right associativity).

Notation "c ;;; k" := (bind c (fun _ => k))
  (at level 61, right associativity).

(** Reading and writing the credential pair. *)
Definition read_accessToken : M JSValue := fun w => (Normal (accessToken w), w).

Definition read_tokenExpiryTime : M number :=
  fun w => (Normal (tokenExpiryTime w), w).

Definition write_accessToken (v : JSValue) : M unit :=
  fun w =>
    (Normal tt,
     {| accessToken := v;
        tokenExpiryTime := tokenExpiryTime w;
        interactions := interactions w;
        exchanges := exchanges w |}).

Definition write_tokenExpiryTime (x : number) : M unit :=
  fun w =>
    (Normal tt,
     {| accessToken := accessToken w;
        tokenExpiryTime := x;
        interactions := interactions w;
        exchanges := exchanges w |}).

(** The credential pair of a world. *)
Definition credential (w : World) : JSValue * number :=
  (accessToken w, tokenExpiryTime w).

(** ** The program *)

Section Program.

Variable E : Engine.

(** The numeric coercion with the engine's reading of strings. *)
Definition to_number (v : JSValue) : number := ToNumber (StringToNumber E) v.

Definition plus (a b : JSValue) : JSValue := js_add (StringToNumber E) a b.

Definition gt (v : JSValue) (k : Z) : bool := greater_than (StringToNumber E) v k.

(** [Date.now()]: one reading of the clock. *)
Definition Date_now : M number :=
  fun w =>
    (Normal (Num (clock E (interactions w))),
     {| accessToken := accessToken w;
        tokenExpiryTime := tokenExpiryTime w;
        interactions := S (interactions w);
        exchanges := exchanges w |}).

(** [await fetch(...)]: the request goes out, and the network answers with
    a response or a rejection. *)
Definition fetch (r : Request) : M Response :=
  fun w =>
    (network E (interactions w) r,
     {| accessToken := accessToken w;
        tokenExpiryTime := tokenExpiryTime w;
        interactions := S (interactions w);
        exchanges := (r, network E (interactions w) r) :: exchanges w |}).

(** [await response.json()]. *)
Definition response_json (r : Response) : M JSValue :=
  lift (JSON_parse E (body r)).

(** *** [getAccessToken] (spotify-api.ts, lines 16-73; the entry point
    repeats the same text at its lines 202-259) *)

(** The renewal request of lines 44-54. *)
Definition token_request : Request :=
  let clientId := process_env E "SPOTIFY_CLIENT_ID" in
  let clientSecret := process_env E "SPOTIFY_CLIENT_SECRET" in
  let refreshToken := process_env E "SPOTIFY_REFRESH_TOKEN" in
  let authString :=
    base64 E (ToString clientId ++ ":" ++ ToString clientSecret) in
  {| url := new_URL "https://accounts.spotify.com/api/token";
     method := "POST";
     headers := [("Content-Type", "application/x-www-form-urlencoded");
                 ("Authorization", "Basic " ++ authString)];
     payload := FormBody [("grant_type", "refresh_token");
                          ("refresh_token", ToString refreshToken)] |}.

(** The message of the error of line 62. *)
Definition token_error (response : Response) : Thrown :=
  ErrorObject ("Failed to get access token: "
               ++ Number_toString (Num (status response)) ++ " "
               ++ statusText response ++ LF ++ body response).

(** Lines 39-72: the renewal exchange, inside its [try]/[catch] (which
    logs and throws the error again). *)
Definition renew : M JSValue :=
  try_catch
    (response <- fetch token_request ;;
     let responseText := body response in
     if negb (ok response) then throw (token_error response)
     else
       data <- lift (JSON_parse E responseText) ;;
       access_token <- lift (get data "access_token") ;;
       write_accessToken access_token ;;;
       now <- Date_now ;;
       expires_in <- lift (get data "expires_in") ;;
       write_tokenExpiryTime
         (number_add now
            (times_0_9 (js_mul (StringToNumber E) expires_in (JNum (Num 1000))))) ;;;
       read_accessToken)
    (fun error => throw error).

(** Line 18: [accessToken && tokenExpiryTime > Date.now()]; the clock is
    read only when the token is truthy. *)
Definition token_still_valid : M bool :=
  cached <- read_accessToken ;;
  if truthy cached
  then
    expiry <- read_tokenExpiryTime ;;
    now <- Date_now ;;
    ret (number_gt expiry now)
  else ret false.

Definition getAccessToken : M JSValue :=
  valid <- token_still_valid ;;
  if valid then read_accessToken else renew.

(** *** Shared pieces of the remote operations *)

(** The error thrown on a response that is not [ok]. *)
Definition api_error (response : Response) : Thrown :=
  ErrorObject ("Spotify API error: "
               ++ Number_toString (Num (status response)) ++ " "
               ++ statusText response ++ LF ++ body response).

(** The entry of one track in the results of [searchTracks] and
    [getRecommendations] (lines 98-106 and 186-194). *)
Definition track_entry (track : JSValue) (index : Z) : Completion string :=
  name <-- get track "name" ;;
  artists <-- get track "artists" ;;
  artist_names <-- Array_map "track.artists" artists (fun a _ => get a "name") ;;
  album <-- get track "album" ;;
  album_name <-- get album "name" ;;
  duration_ms <-- get track "duration_ms" ;;
  uri <-- get track "uri" ;;
  id <-- get track "id" ;;
  popularity <-- get track "popularity" ;;
  Normal (Number_toString (Num (index + 1)) ++ ". " ++ DQ ++ ToString name ++ DQ
          ++ " by " ++ join ", " (map join_element artist_names) ++ LF
          ++ "   Album: " ++ ToString album_name ++ LF
          ++ "   Duration: " ++ formatDuration (to_number duration_ms) ++ LF
          ++ "   Spotify URI: " ++ ToString uri ++ LF
          ++ "   Track ID: " ++ ToString id ++ LF
          ++ "   Popularity: " ++ ToString popularity ++ "/100" ++ LF
          ++ "  ").

(** *** [searchTracks] (lines 75-109) *)

(** Lines 77-80. *)
Definition search_url (query limit : JSValue) : URL :=
  let url := new_URL "https://api.spotify.com/v1/search" in
  let url := searchParams_set url "q" (ToString query) in
  let url := searchParams_set url "type" "track" in
  searchParams_set url "limit"
    (Number_toString (Math_min (to_number limit) (Num 50))).

(** Lines 94-108. *)
Definition search_result (query data : JSValue) : Completion string :=
  tracks <-- get data "tracks" ;;
  if negb (truthy tracks) then Normal "No tracks found matching your query."
  else
    items <-- get tracks "items" ;;
    if negb (truthy items) then Normal "No tracks found matching your query."
    else
      count <-- get items "length" ;;
      if strictly_equals count 0
      then Normal "No tracks found matching your query."
      else
        entries <-- Array_map "data.tracks.items" items track_entry ;;
        Normal ("Found " ++ ToString count ++ " tracks matching " ++ DQ
                ++ ToString query ++ DQ ++ ":" ++ LF ++ LF
                ++ join (LF ++ LF) entries).

Definition searchTracks (query limit : JSValue) : M string :=
  let limit := default_to limit (JNum (Num 10)) in
  token <- getAccessToken ;;
  let url := search_url query limit in
  response <- fetch (bearer_get url token) ;;
  if negb (ok response) then throw (api_error response)
  else
    data <- response_json response ;;
    lift (search_result query data).

(** *** [getRecommendations] (lines 111-202) *)

(** The parameters after the destructuring of lines 120-128. *)
Record RecommendationParams : Type := {
  seed_tracks : JSValue;
  seed_artists : JSValue;
  seed_genres : JSValue;
  rec_limit : JSValue;
  target_energy : JSValue;
  target_danceability : JSValue;
  target_tempo : JSValue
}.

Definition destructure_params (params : JSValue) : Completion RecommendationParams :=
  seed_tracks <-- get params "seed_tracks" ;;
  seed_artists <-- get params "seed_artists" ;;
  seed_genres <-- get params "seed_genres" ;;
  limit <-- get params "limit" ;;
  target_energy <-- get params "target_energy" ;;
  target_danceability <-- get params "target_danceability" ;;
  target_tempo <-- get params "target_tempo" ;;
  Normal {| seed_tracks := default_to seed_tracks (JArr []);
            seed_artists := default_to seed_artists (JArr []);
            seed_genres := default_to seed_genres (JArr []);
            rec_limit := default_to limit (JNum (Num 20));
            target_energy := target_energy;
            target_danceability := target_danceability;
            target_tempo := target_tempo |}.

(** [seed_tracks.length + seed_artists.length + seed_genres.length]. *)
Definition seed_count (p : RecommendationParams) : Completion JSValue :=
  tracks <-- get (seed_tracks p) "length" ;;
  artists <-- get (seed_artists p) "length" ;;
  genres <-- get (seed_genres p) "length" ;;
  Normal (plus (plus tracks artists) genres).

(** Lines 130-138: the two checks on the number of seeds. *)
Definition validate_seeds (p : RecommendationParams) : Completion unit :=
  count <-- seed_count p ;;
  if strictly_equals count 0
  then Throw (ErrorObject "At least one seed track, artist, or genre is required")
  else
    count <-- seed_count p ;;
    if gt count 5
    then Throw (ErrorObject
                  "You can only use a total of 5 seeds (tracks, artists, and genres combined)")
    else Normal tt.

(** [if (seed.length > 0) url.searchParams.set(key, seed.join(","))]. *)
Definition set_seed (url : URL) (key callee : string) (seed : JSValue)
  : Completion URL :=
  count <-- get seed "length" ;;
  if gt count 0
  then
    joined <-- Array_join callee seed "," ;;
    Normal (searchParams_set url key joined)
  else Normal url.

(** [if (target !== undefined) url.searchParams.set(key, target.toString())]. *)
Definition set_target (url : URL) (key : string) (target : JSValue)
  : Completion URL :=
  if negb (is_undefined target)
  then
    printed <-- method_toString key target ;;
    Normal (searchParams_set url key printed)
  else Normal url.

(** Lines 141-168. *)
Definition recommendations_url (p : RecommendationParams) : Completion URL :=
  let url := new_URL "https://api.spotify.com/v1/recommendations" in
  url <-- set_seed url "seed_tracks" "seed_tracks" (seed_tracks p) ;;
  url <-- set_seed url "seed_artists" "seed_artists" (seed_artists p) ;;
  url <-- set_seed url "seed_genres" "seed_genres" (seed_genres p) ;;
  let url :=
    searchParams_set url "limit"
      (Number_toString (Math_min (to_number (rec_limit p)) (Num 100))) in
  url <-- set_target url "target_energy" (target_energy p) ;;
  url <-- set_target url "target_danceability" (target_danceability p) ;;
  set_target url "target_tempo" (target_tempo p).

(** One line of [seedInfo] (lines 196-199). *)
Definition seed_line (label callee : string) (seed : JSValue) : Completion string :=
  count <-- get seed "length" ;;
  if gt count 0
  then
    joined <-- Array_join callee seed ", " ;;
    Normal (label ++ joined ++ LF)
  else Normal EmptyString.

(** Lines 182-201. *)
Definition recommendations_result (p : RecommendationParams) (data : JSValue)
  : Completion string :=
  tracks <-- get data "tracks" ;;
  if negb (truthy tracks)
  then Normal "No recommendations found with your criteria."
  else
    count <-- get tracks "length" ;;
    if strictly_equals count 0
    then Normal "No recommendations found with your criteria."
    else
      entries <-- Array_map "data.tracks" tracks track_entry ;;
      track_seeds <-- seed_line "Track Seeds: " "seed_tracks" (seed_tracks p) ;;
      artist_seeds <-- seed_line "Artist Seeds: " "seed_artists" (seed_artists p) ;;
      genre_seeds <-- seed_line "Genre Seeds: " "seed_genres" (seed_genres p) ;;
      let seedInfo := track_seeds ++ artist_seeds ++ genre_seeds in
      Normal ("Recommendations based on:" ++ LF ++ seedInfo ++ LF ++ LF
              ++ join (LF ++ LF) entries).

(** What follows the validation: lines 140-201. *)
Definition recommend (p : RecommendationParams) : M string :=
  token <- getAccessToken ;;
  url <- lift (recommendations_url p) ;;
  response <- fetch (bearer_get url token) ;;
  if negb (ok response) then throw (api_error response)
  else
    data <- response_json response ;;
    lift (recommendations_result p data).

Definition getRecommendations (params : JSValue) : M string :=
  p <- lift (destructure_params params) ;;
  lift (validate_seeds p) ;;;
  recommend p.

(** *** [createPlaylist] (lines 204-245) *)

Definition create_playlist_result (name data : JSValue) : Completion string :=
  id <-- get data "id" ;;
  external_urls <-- get data "external_urls" ;;
  spotify <-- get external_urls "spotify" ;;
  Normal ("Successfully created playlist " ++ DQ ++ ToString name ++ DQ ++ "!" ++ LF
          ++ "  Playlist ID: " ++ ToString id ++ LF
          ++ "  Playlist URL: " ++ ToString spotify ++ LF
          ++ "  Now you can add tracks to this playlist using the spotify_add_tracks_to_playlist tool.").

Definition createPlaylist (name description isPublic : JSValue) : M string :=
  let description := default_to description (JStr EmptyString) in
  let isPublic := default_to isPublic (JBool false) in
  token <- getAccessToken ;;
  userResponse <- fetch (bearer_get (new_URL "https://api.spotify.com/v1/me") token) ;;
  if negb (ok userResponse) then throw (api_error userResponse)
  else
    userData <- response_json userResponse ;;
    userId <- lift (get userData "id") ;;
    response <-
      fetch (bearer_post
               (new_URL ("https://api.spotify.com/v1/users/" ++ ToString userId
                         ++ "/playlists"))
               token
               (JObj [("name", name);
                      ("description", description);
                      ("public", isPublic)])) ;;
    if negb (ok response) then throw (api_error response)
    else
      data <- response_json response ;;
      lift (create_playlist_result name data).

(** *** [addTracksToPlaylist] (lines 247-277) *)

Definition add_tracks_body (trackUris position : JSValue) : JSValue :=
  if negb (is_undefined position)
  then JObj [("uris", trackUris); ("position", position)]
  else JObj [("uris", trackUris)].

Definition add_tracks_result (trackUris data : JSValue) : Completion string :=
  count <-- get trackUris "length" ;;
  snapshot_id <-- get data "snapshot_id" ;;
  Normal ("Successfully added " ++ ToString count ++ " track(s) to the playlist!" ++ LF
          ++ "  Snapshot ID: " ++ ToString snapshot_id).

Definition addTracksToPlaylist (playlistId trackUris position : JSValue) : M string :=
  token <- getAccessToken ;;
  let url :=
    new_URL ("https://api.spotify.com/v1/playlists/" ++ ToString playlistId
             ++ "/tracks") in
  let body := add_tracks_body trackUris position in
  response <- fetch (bearer_post url token body) ;;
  if negb (ok response) then throw (api_error response)
  else
    data <- response_json response ;;
    lift (add_tracks_result trackUris data).

(** *** [getUserPlaylists] (lines 279-313) *)

(** [a || b] on values. *)
Definition or_else (a b : JSValue) : JSValue := if truthy a then a else b.

Definition playlist_entry (playlist : JSValue) (index : Z) : Completion string :=
  name <-- get playlist "name" ;;
  description <-- get playlist "description" ;;
  tracks <-- get playlist "tracks" ;;
  total <-- get tracks "total" ;;
  public <-- get playlist "public" ;;
  id <-- get playlist "id" ;;
  external_urls <-- get playlist "external_urls" ;;
  spotify <-- get external_urls "spotify" ;;
  Normal (Number_toString (Num (index + 1)) ++ ". " ++ DQ ++ ToString name ++ DQ ++ LF
          ++ "   Description: "
          ++ ToString (or_else description (JStr "No description")) ++ LF
          ++ "   Tracks: " ++ ToString total ++ LF
          ++ "   Public: " ++ (if truthy public then "Yes" else "No") ++ LF
          ++ "   Playlist ID: " ++ ToString id ++ LF
          ++ "   URL: " ++ ToString spotify ++ LF
          ++ "  ").

(** The two search parameters of a paginated listing. *)
Definition paging_url (url : URL) (limit : JSValue) (cap : Z) (offset : JSValue)
  : Completion URL :=
  let url :=
    searchParams_set url "limit"
      (Number_toString (Math_min (to_number limit) (Num cap))) in
  printed <-- method_toString "offset" offset ;;
  Normal (searchParams_set url "offset" printed).

Definition user_playlists_result (offset data : JSValue) : Completion string :=
  items <-- get data "items" ;;
  if negb (truthy items) then Normal "You don't have any playlists yet."
  else
    count <-- get items "length" ;;
    if strictly_equals count 0 then Normal "You don't have any playlists yet."
    else
      entries <-- Array_map "data.items" items playlist_entry ;;
      total <-- get data "total" ;;
      Normal ("Found " ++ ToString count ++ " playlists (showing "
              ++ ToString (plus offset (JNum (Num 1))) ++ "-"
              ++ ToString (plus offset count) ++ " of " ++ ToString total ++ "):"
              ++ LF ++ LF ++ join (LF ++ LF) entries).

Definition getUserPlaylists (limit offset : JSValue) : M string :=
  let limit := default_to limit (JNum (Num 20)) in
  let offset := default_to offset (JNum (Num 0)) in
  token <- getAccessToken ;;
  url <- lift (paging_url (new_URL "https://api.spotify.com/v1/me/playlists")
                 limit 50 offset) ;;
  response <- fetch (bearer_get url token) ;;
  if negb (ok response) then throw (api_error response)
  else
    data <- response_json response ;;
    lift (user_playlists_result offset data).

(** *** [getPlaylistTracks] (lines 315-364) *)

Definition playlist_track_entry (offset item : JSValue) (index : Z)
  : Completion string :=
  track <-- get item "track" ;;
  name <-- get track "name" ;;
  artists <-- get track "artists" ;;
  artist_names <-- Array_map "track.artists" artists (fun a _ => get a "name") ;;
  album <-- get track "album" ;;
  album_name <-- get album "name" ;;
  duration_ms <-- get track "duration_ms" ;;
  added_at <-- get item "added_at" ;;
  uri <-- get track "uri" ;;
  id <-- get track "id" ;;
  Normal (ToString (plus (plus (JNum (Num index)) offset) (JNum (Num 1))) ++ ". "
          ++ DQ ++ ToString name ++ DQ
          ++ " by " ++ join ", " (map join_element artist_names) ++ LF
          ++ "   Album: " ++ ToString album_name ++ LF
          ++ "   Duration: " ++ formatDuration (to_number duration_ms) ++ LF
          ++ "   Added at: " ++ Date_toLocaleString E added_at ++ LF
          ++ "   Spotify URI: " ++ ToString uri ++ LF
          ++ "   Track ID: " ++ ToString id ++ LF
          ++ "  ").

(** The header of line 363, up to the colon. *)
Definition tracks_header (name offset count total : JSValue) : string :=
  "Tracks in " ++ DQ ++ ToString name ++ DQ ++ " (showing "
  ++ ToString (plus offset (JNum (Num 1))) ++ "-"
  ++ ToString (plus offset count) ++ " of " ++ ToString total ++ ")".

(** Lines 348-363. *)
Definition playlist_tracks_result (offset playlistData data : JSValue)
  : Completion string :=
  items <-- get data "items" ;;
  if negb (truthy items)
  then
    name <-- get playlistData "name" ;;
    Normal ("Playlist " ++ DQ ++ ToString name ++ DQ ++ " is empty.")
  else
    count <-- get items "length" ;;
    if strictly_equals count 0
    then
      name <-- get playlistData "name" ;;
      Normal ("Playlist " ++ DQ ++ ToString name ++ DQ ++ " is empty.")
    else
      entries <-- Array_map "data.items" items (playlist_track_entry offset) ;;
      name <-- get playlistData "name" ;;
      total <-- get playlistData "total" ;;
      Normal (tracks_header name offset count total ++ ":" ++ LF ++ LF
              ++ join (LF ++ LF) entries).

Definition getPlaylistTracks (playlistId limit offset : JSValue) : M string :=
  let limit := default_to limit (JNum (Num 50)) in
  let offset := default_to offset (JNum (Num 0)) in
  token <- getAccessToken ;;
  playlistResponse <-
    fetch (bearer_get
             (new_URL ("https://api.spotify.com/v1/playlists/" ++ ToString playlistId))
             token) ;;
  if negb (ok playlistResponse) then throw (api_error playlistResponse)
  else
    playlistData <- response_json playlistResponse ;;
    url <- lift (paging_url
                   (new_URL ("https://api.spotify.com/v1/playlists/"
                             ++ ToString playlistId ++ "/tracks"))
                   limit 100 offset) ;;
    response <- fetch (bearer_get url token) ;;
    if negb (ok response) then throw (api_error response)
    else
      data <- response_json response ;;
      lift (playlist_tracks_result offset playlistData data).

(** ** Type guards (tools.ts, lines 189-254)

    The property reads stand to the right of [args !== null &&], so they
    never throw. *)

Definition isSearchTracksArgs (args : JSValue) : bool :=
  typeof_object args
  && negb (is_null args)
  && has_property "query" args
  && typeof_string (prop args "query").

Definition isGetRecommendationsArgs (args : JSValue) : bool :=
  let params := args in
  typeof_object args
  && negb (is_null args)
  && ((has_property "seed_tracks" params && Array_isArray (prop params "seed_tracks"))
      || (has_property "seed_artists" params && Array_isArray (prop params "seed_artists"))
      || (has_property "seed_genres" params && Array_isArray (prop params "seed_genres"))).

Definition isCreatePlaylistArgs (args : JSValue) : bool :=
  typeof_object args
  && negb (is_null args)
  && has_property "name" args
  && typeof_string (prop args "name").

Definition isAddTracksToPlaylistArgs (args : JSValue) : bool :=
  typeof_object args
  && negb (is_null args)
  && has_property "playlist_id" args
  && typeof_string (prop args "playlist_id")
  && has_property "track_uris" args
  && Array_isArray (prop args "track_uris").

Definition isGetUserPlaylistsArgs (args : JSValue) : bool :=
  typeof_object args
  && negb (is_null args).

Definition isGetPlaylistTracksArgs (args : JSValue) : bool :=
  typeof_object args
  && negb (is_null args)
  && has_property "playlist_id" args
  && typeof_string (prop args "playlist_id").

(** ** The dispatch gateway (the [CallToolRequestSchema] handler) *)

Record ContentBlock : Type := {
  type_ : string;
  text : string
}.

Record Envelope : Type := {
  content : list ContentBlock;
  isError : bool
}.

(** [{ content: [{ type: "text", text }], isError }]. *)
Definition text_envelope (t : string) (error : bool) : Envelope :=
  {| content := [{| type_ := "text"; text := t |}]; isError := error |}.

(** The six registered names, in the order of the [ListTools] answer. *)
Definition tool_names : list string :=
  ["spotify_search_tracks";
   "spotify_get_recommendations";
   "spotify_create_playlist";
   "spotify_add_tracks_to_playlist";
   "spotify_get_user_playlists";
   "spotify_get_playlist_tracks"].

Definition is_tool_name (name : string) : bool :=
  existsb (String.eqb name) tool_names.

(** The [try] block: lines 93-176. *)
Definition call_tool_try (name : string) (args : JSValue) : M Envelope :=
  if negb (truthy args) then throw (ErrorObject "No arguments provided")
  else if String.eqb name "spotify_search_tracks" then
    if negb (isSearchTracksArgs args)
    then throw (ErrorObject "Invalid arguments for spotify_search_tracks")
    else
      let query := prop args "query" in
      let limit := default_to (prop args "limit") (JNum (Num 10)) in
      results <- searchTracks query limit ;;
      ret (text_envelope results false)
  else if String.eqb name "spotify_get_recommendations" then
    if negb (isGetRecommendationsArgs args)
    then throw (ErrorObject "Invalid arguments for spotify_get_recommendations")
    else
      results <- getRecommendations args ;;
      ret (text_envelope results false)
  else if String.eqb name "spotify_create_playlist" then
    if negb (isCreatePlaylistArgs args)
    then throw (ErrorObject "Invalid arguments for spotify_create_playlist")
    else
      let name := prop args "name" in
      let description := default_to (prop args "description") (JStr EmptyString) in
      let isPublic := default_to (prop args "public") (JBool false) in
      results <- createPlaylist name description isPublic ;;
      ret (text_envelope results false)
  else if String.eqb name "spotify_add_tracks_to_playlist" then
    if negb (isAddTracksToPlaylistArgs args)
    then throw (ErrorObject "Invalid arguments for spotify_add_tracks_to_playlist")
    else
      let playlist_id := prop args "playlist_id" in
      let track_uris := prop args "track_uris" in
      let position := prop args "position" in
      results <- addTracksToPlaylist playlist_id track_uris position ;;
      ret (text_envelope results false)
  else if String.eqb name "spotify_get_user_playlists" then
    if negb (isGetUserPlaylistsArgs args)
    then throw (ErrorObject "Invalid arguments for spotify_get_user_playlists")
    else
      let limit := default_to (prop args "limit") (JNum (Num 20)) in
      let offset := default_to (prop args "offset") (JNum (Num 0)) in
      results <- getUserPlaylists limit offset ;;
      ret (text_envelope results false)
  else if String.eqb name "spotify_get_playlist_tracks" then
    if negb (isGetPlaylistTracksArgs args)
    then throw (ErrorObject "Invalid arguments for spotify_get_playlist_tracks")
    else
      let playlist_id := prop args "playlist_id" in
      let limit := default_to (prop args "limit") (JNum (Num 50)) in
      let offset := default_to (prop args "offset") (JNum (Num 0)) in
      results <- getPlaylistTracks playlist_id limit offset ;;
      ret (text_envelope results false)
  else ret (text_envelope ("Unknown tool: " ++ name) true).

(** [error instanceof Error ? error.message : String(error)]. *)
Definition error_text (error : Thrown) : string :=
  match error with
  | ErrorObject message => message
  | Raised v => ToString v
  end.

(** The [catch] block: lines 177-187. *)
Definition call_tool_catch (error : Thrown) : M Envelope :=
  ret (text_envelope ("Error: " ++ error_text error) true).

(** The handler of a call-tool request [{ name, arguments: args }]. *)
Definition call_tool (name : string) (args : JSValue) : M Envelope :=
  try_catch (call_tool_try name args) call_tool_catch.

(** The operation a request is routed to, when its name is registered and
    its arguments pass the guard of that name. *)
Definition dispatched (name : string) (args : JSValue) : option (M string) :=
  if String.eqb name "spotify_search_tracks" then
    if isSearchTracksArgs args
    then Some (searchTracks (prop args "query")
                 (default_to (prop args "limit") (JNum (Num 10))))
    else None
  else if String.eqb name "spotify_get_recommendations" then
    if isGetRecommendationsArgs args then Some (getRecommendations args) else None
  else if String.eqb name "spotify_create_playlist" then
    if isCreatePlaylistArgs args
    then Some (createPlaylist (prop args "name")
                 (default_to (prop args "description") (JStr EmptyString))
                 (default_to (prop args "public") (JBool false)))
    else None
  else if String.eqb name "spotify_add_tracks_to_playlist" then
    if isAddTracksToPlaylistArgs args
    then Some (addTracksToPlaylist (prop args "playlist_id")
                 (prop args "track_uris") (prop args "position"))
    else None
  else if String.eqb name "spotify_get_user_playlists" then
    if isGetUserPlaylistsArgs args
    then Some (getUserPlaylists
                 (default_to (prop args "limit") (JNum (Num 20)))
                 (default_to (prop args "offset") (JNum (Num 0))))
    else None
  else if String.eqb name "spotify_get_playlist_tracks" then
    if isGetPlaylistTracksArgs args
    then Some (getPlaylistTracks (prop args "playlist_id")
                 (default_to (prop args "limit") (JNum (Num 50)))
                 (default_to (prop args "offset") (JNum (Num 0))))
    else None
  else None.

End Program.

(** ** Notions of the specification *)


(** The number of seeds an argument holds, in the words of the
    specification of the seeds: the entries of the list, and none when the
    argument is absent or is no list. *)
Definition seeds_held (v : JSValue) : nat :=
  match v with
  | JArr l => List.length l
  | _ => O
  end.

(** The combined count of [seed_tracks], [seed_artists] and [seed_genres]
    of an arguments object. *)
Definition combined_seed_count (params : JSValue) : nat :=
  seeds_held (prop params "seed_tracks")
  + seeds_held (prop params "seed_artists")
  + seeds_held (prop params "seed_genres").

(** The [limit] search parameter of the latest request sent, if any. *)
Definition upstream_limit (w : World) : option string :=
  match sent w with
  | [] => None
  | request :: _ => searchParams_get "limit" (searchParams (url request))
  end.

(** The six remote operations with their arguments, and what running one
    means. *)
Inductive Operation : Type :=
| SearchTracks (query limit : JSValue)
| GetRecommendations (params : JSValue)
| CreatePlaylist (name description isPublic : JSValue)
| AddTracksToPlaylist (playlistId trackUris position : JSValue)
| GetUserPlaylists (limit offset : JSValue)
| GetPlaylistTracks (playlistId limit offset : JSValue).

Definition run (E : Engine) (o : Operation) : M string :=
  match o with
  | SearchTracks query limit => searchTracks E query limit
  | GetRecommendations params => getRecommendations E params
  | CreatePlaylist name description isPublic =>
      createPlaylist E name description isPublic
  | AddTracksToPlaylist playlistId trackUris position =>
      addTracksToPlaylist E playlistId trackUris position
  | GetUserPlaylists limit offset => getUserPlaylists E limit offset
  | GetPlaylistTracks playlistId limit offset =>
      getPlaylistTracks E playlistId limit offset
  end.

(** The message of an error carries the status code of a response. *)
Definition carries_status (r : Response) (message : string) : Prop :=
  exists before after,
    message = before ++ Number_toString (Num (status r)) ++ after.

(** The message ends with the body of a response. *)
Definition carries_body (r : Response) (message : string) : Prop :=
  exists before, message = before ++ body r.

(** A computation that leaves the credential pair alone. *)
Definition keeps_credential {A : Type} (c : M A) : Prop :=
  forall w, credential (snd (c w)) = credential w.

(** A computation that reports every failure: whenever one of the
    exchanges it had with the network brought back a response that is not
    [ok], it has thrown an error whose message carries the status of that
    response.  [received] are the exchanges of the computation itself,
    latest first. *)
Definition reports_failure {A : Type} (c : M A) : Prop :=
  forall w outcome w',
    c w = (outcome, w') ->
    exists received,
      exchanges w' = (received ++ exchanges w)%list
      /\ forall request r,
          In (request, Normal r) received ->
          ok r = false ->
          exists message,
            outcome = Throw (ErrorObject message) /\ carries_status r message.

(** A computation that has no exchange with the network. *)
Definition offline {A : Type} (c : M A) : Prop :=
  forall w, exchanges (snd (c w)) = exchanges w.

(** The track count of a playlist object, where [getUserPlaylists] reads
    it (line 305): [playlist.tracks.total]. *)
Definition playlist_track_total (playlist : JSValue) : Completion JSValue :=
  tracks <-- get playlist "tracks" ;;
  get tracks "total".

(** ** Binary64 on the hardware

    The doubles of the machine, for checking the definitions of the
    section Binary64 against them. *)
Definition double_of_Z (n : Z) : float := PrimFloat.of_uint63 (Uint63.of_Z n).

(** The pair [(m, e)] and the machine double are the same number. *)
Definition same_double (x : Z * Z) (f : float) : bool :=
  match Prim2SF f with
  | S754_zero _ => fst x =? 0
  | S754_finite sign m e =>
      let v := if sign then Z.neg m else Z.pos m in
      let low := Z.min (snd x) e in
      fst x * 2 ^ (snd x - low) =? v * 2 ^ (e - low)
  | _ => false
  end.

(** Line 67 and the two quotients of [formatDuration] on the machine. *)
Definition hardware_expiry (now expires_in : Z) : float :=
  (double_of_Z now + double_of_Z expires_in * 1000 * 0x1.ccccccccccccdp-1)%float.

Definition hardware_quotient (n k : Z) : float :=
  (double_of_Z n / double_of_Z k)%float.

(** [f] on the [count] integers from [n] on. *)
Fixpoint all_from (f : Z -> bool) (count : nat) (n : Z) : bool :=
  match count with
  | O => true
  | S count' => f n && all_from f count' (n + 1)
  end.

(** The arguments of the specification's example of five seeds: three
    tracks and two artists. *)
Definition five_seeds : JSValue :=
  JObj [("seed_tracks", JArr [JStr "t1"; JStr "t2"; JStr "t3"]);
        ("seed_artists", JArr [JStr "a1"; JStr "a2"])].

(** Six seeds: three tracks and three artists. *)
Definition six_seeds : JSValue :=
  JObj [("seed_tracks", JArr [JStr "t1"; JStr "t2"; JStr "t3"]);
        ("seed_artists", JArr [JStr "a1"; JStr "a2"; JStr "a3"])].

(** Six tracks, and genres that are an object instead of a list. *)
Definition six_tracks_and_an_object : JSValue :=
  JObj [("seed_tracks",
         JArr [JStr "t1"; JStr "t2"; JStr "t3"; JStr "t4"; JStr "t5"; JStr "t6"]);
        ("seed_genres", JObj [])].

(** Five seeds and an energy target that is [null]. *)
Definition five_seeds_null_target : JSValue :=
  JObj [("seed_tracks", JArr [JStr "t1"; JStr "t2"; JStr "t3"]);
        ("seed_artists", JArr [JStr "a1"; JStr "a2"]);
        ("target_energy", JNull)].

(** ** Scripted engines

    Concrete engines for the worked examples: the network answers by the
    address a request goes to, [JSON.parse] reads the bodies listed in
    [documents] and rejects every other text, the clock advances by one
    second per interaction from [1000000]. *)

Fixpoint route (address : string) (routes : list (string * Response))
  : Completion Response :=
  match routes with
  | [] => Throw (ErrorObject "fetch failed")
  | (a, r) :: rest => if String.eqb address a then Normal r else route address rest
  end.

Fixpoint parse_document (s : string) (documents : list (string * JSValue))
  : Completion JSValue :=
  match documents with
  | [] => Throw (ErrorObject "Unexpected end of JSON input")
  | (d, v) :: rest => if String.eqb s d then Normal v else parse_document s rest
  end.

(** The empty string reads as 0, a decimal integer as itself, and (in
    these engines) every other string as [NaN]. *)
Definition decimal_to_number (s : string) : number :=
  if String.eqb s EmptyString then Num 0
  else
    match NilEmpty.int_of_string s with
    | Some i => Num (Z.of_int i)
    | None => NaN
    end.

Definition scripted (routes : list (string * Response))
  (documents : list (string * JSValue)) : Engine :=
  {| process_env := fun key => JStr ("value of " ++ key);
     clock := fun n => 1000000 + 1000 * Z.of_nat n;
     network := fun _ request => route (href (url request)) routes;
     JSON_parse := fun s => parse_document s documents;
     StringToNumber := decimal_to_number;
     base64 := fun s => "base64(" ++ s ++ ")";
     Date_toLocaleString := ToString |}.

Definition token_endpoint : string := "https://accounts.spotify.com/api/token".

(** A token response granting ["tok"] for 3600 seconds. *)
Definition token_granted : string * Response :=
  (token_endpoint, {| status := 200; statusText := "OK"; body := "token.json" |}).

Definition token_document : string * JSValue :=
  ("token.json",
   JObj [("access_token", JStr "tok"); ("expires_in", JNum (Num 3600))]).

(** The search endpoint answering 401. *)
Definition search_unauthorized : string * Response :=
  ("https://api.spotify.com/v1/search",
   {| status := 401; statusText := "Unauthorized"; body := "expired.json" |}).

(** The token endpoint answering 400. *)
Definition token_refused : string * Response :=
  (token_endpoint,
   {| status := 400; statusText := "Bad Request"; body := "invalid_grant.json" |}).

(** The token endpoint answering 200 with a body that is not JSON, and
    with the JSON object that has no property. *)
Definition token_garbled : string * Response :=
  (token_endpoint, {| status := 200; statusText := "OK"; body := "<html>" |}).

Definition token_hollow : string * Response :=
  (token_endpoint, {| status := 200; statusText := "OK"; body := "empty.json" |}).

Definition hollow_document : string * JSValue := ("empty.json", JObj []).

(** A playlist of 42 tracks as the playlist endpoint describes it (its
    count under [tracks.total], where [getUserPlaylists] reads it), and a
    page holding one of its tracks. *)
Definition playlist_document : string * JSValue :=
  ("playlist.json",
   JObj [("name", JStr "Mix"); ("tracks", JObj [("total", JNum (Num 42))])]).

Definition page_document : string * JSValue :=
  ("page.json",
   JObj [("items",
          JArr [JObj [("added_at", JStr "2024-01-01T00:00:00Z");
                      ("track",
                       JObj [("name", JStr "Song");
                             ("artists", JArr [JObj [("name", JStr "Artist")]]);
                             ("album", JObj [("name", JStr "Album")]);
                             ("duration_ms", JNum (Num 125000));
                             ("uri", JStr "spotify:track:1");
                             ("id", JStr "1")])]]);
         ("total", JNum (Num 42))]).

Definition playlist_found : string * Response :=
  ("https://api.spotify.com/v1/playlists/P",
   {| status := 200; statusText := "OK"; body := "playlist.json" |}).

Definition page_found : string * Response :=
  ("https://api.spotify.com/v1/playlists/P/tracks",
   {| status := 200; statusText := "OK"; body := "page.json" |}).

(** A world whose cached token ["cached"] is valid until [9000000]. *)
Definition warm_world : World :=
  {| accessToken := JStr "cached";
     tokenExpiryTime := Num 9000000;
     interactions := O;
     exchanges := [] |}.

(** ** More of the program: diagnostics and start-up *)

(** The index a [slice] bound stands for in a string of [len] characters:
    a negative bound counts from the end. *)
Definition slice_index (len : nat) (i : Z) : nat :=
  if i <? 0 then Z.to_nat (Z.max (Z.of_nat len + i) 0)
  else Nat.min (Z.to_nat i) len.

(** [s.slice(start, end)], and [s.slice(start)] when [end_] is absent. *)
Definition slice (s : string) (start : Z) (end_ : option Z) : string :=
  let len := String.length s in
  let from := slice_index len start in
  let to :=
    match end_ with
    | Some e => slice_index len e
    | None => len
    end in
  substring from (to - from) s.

(** [s.endsWith(p)]. *)
Definition endsWith (p s : string) : bool :=
  (String.length p <=? String.length s)%nat
  && String.eqb (substring (String.length s - String.length p) (String.length p) s) p.

(** [redactMiddle] (spotify-api.ts, lines 28-32), on a value that is a
    string or [undefined] ([None]), as the environment gives them. *)
Definition redactMiddle (str : option string) : string :=
  match str with
  | None => "undefined"
  | Some s =>
      if String.eqb s EmptyString then "undefined"
      else if (String.length s <=? 8)%nat then slice s 0 (Some 2) ++ "******"
      else slice s 0 (Some 3) ++ "..." ++ slice s (-3) None
  end.

(** A variable of the process environment: a string, or nothing. *)
Definition env_value (E : Engine) (name : string) : option string :=
  match process_env E name with
  | JStr s => Some s
  | _ => None
  end.

(** The test of lines 44-46 of the entry point: the value starts or ends
    with a double quote, a single quote or a space. *)
Definition quoted_or_padded (value : string) : bool :=
  prefix DQ value || endsWith DQ value
  || prefix "'" value || endsWith "'" value
  || prefix " " value || endsWith " " value.

(** [validateEnvVar] (entry point, lines 37-52): its result and the lines
    it writes to the error stream. *)
Definition validateEnvVar (E : Engine) (name : string) : bool * list string :=
  match env_value E name with
  | None =>
      (false, ["Error: " ++ name ++ " environment variable is required but not set"])
  | Some value =>
      if String.eqb value EmptyString
      then (false,
            ["Error: " ++ name ++ " environment variable is required but not set"])
      else if quoted_or_padded value
           then (true,
                 ["Warning: " ++ name
                    ++ " contains quotes or extra whitespace which may cause authentication issues";
                  "Current value (shown with quotes): " ++ DQ ++ value ++ DQ;
                  "Try removing quotes/spaces if you're having authentication problems"])
           else (true, [])
  end.

(** How the entry point goes on after lines 54-64: the process exits with
    a status, or the server is set up; with the lines written so far. *)
Inductive Startup : Type :=
| Exits (code : Z) (log : list string)
| Serves (log : list string).

(** [a && b] on validations: [b] is not run when [a] failed. *)
Definition and_also (a : bool * list string) (b : bool * list string)
  : bool * list string :=
  if fst a then (fst b, (snd a ++ snd b)%list) else a.

(** Lines 54-64. *)
Definition startup (E : Engine) : Startup :=
  let envVarsValid :=
    and_also
      (and_also (validateEnvVar E "SPOTIFY_CLIENT_ID")
                (validateEnvVar E "SPOTIFY_CLIENT_SECRET"))
      (validateEnvVar E "SPOTIFY_REFRESH_TOKEN") in
  if negb (fst envVarsValid)
  then Exits 1
         (snd envVarsValid
          ++ ["Error: Required environment variables are missing. Please set SPOTIFY_CLIENT_ID, SPOTIFY_CLIENT_SECRET, and SPOTIFY_REFRESH_TOKEN"])%list
  else Serves
         (snd envVarsValid
          ++ ["Environment variables validated. Starting server..."])%list.

(** The character a string ends with, and the one it starts with. *)
Definition first_char (s : string) : option ascii := String.get 0 s.

Definition last_char (s : string) : option ascii :=
  String.get (String.length s - 1) s.

(** A double quote, a single quote or a space. *)
Definition is_quote_or_space (c : option ascii) : bool :=
  match c with
  | Some a =>
      Ascii.eqb a (ascii_of_nat 34) || Ascii.eqb a "'"%char || Ascii.eqb a " "%char
  | None => false
  end.

(** An engine with another process environment. *)
Definition with_environment (environment : string -> JSValue) (E : Engine) : Engine :=
  {| process_env := environment;
     clock := clock E;
     network := network E;
     JSON_parse := JSON_parse E;
     StringToNumber := StringToNumber E;
     base64 := base64 E;
     Date_toLocaleString := Date_toLocaleString E |}.

(** An environment whose client id is in quotes, and one without it. *)
Definition quoted_environment (name : string) : JSValue :=
  if String.eqb name "SPOTIFY_CLIENT_ID" then JStr (DQ ++ "abc123" ++ DQ)
  else JStr "plain".

Definition missing_id_environment (name : string) : JSValue :=
  if String.eqb name "SPOTIFY_CLIENT_ID" then JUndefined else JStr "plain".

(** ** The tool registry (tools.ts, lines 1-187) *)

(** A [Tool] of the protocol: its name, its description and the JSON
    schema of its arguments. *)
Record Tool : Type := {
  tool_name : string;
  description : string;
  inputSchema : JSValue
}.

(** A property of a schema: [{ type, description }], with a [default] or
    with the [items] of an array of strings. *)
Definition schema_property (type description : string) : JSValue :=
  JObj [("type", JStr type); ("description", JStr description)].

Definition schema_property_default (type description : string) (default : JSValue)
  : JSValue :=
  JObj [("type", JStr type); ("description", JStr description); ("default", default)].

Definition schema_string_array (description : string) : JSValue :=
  JObj [("type", JStr "array");
        ("description", JStr description);
        ("items", JObj [("type", JStr "string")])].

Definition object_schema (properties : list (string * JSValue)) (required : list string)
  : JSValue :=
  JObj [("type", JStr "object");
        ("properties", JObj properties);
        ("required", JArr (map JStr required))].

Definition SEARCH_TRACKS_TOOL : Tool :=
  {| tool_name := "spotify_search_tracks";
     description :=
       "Searches for tracks on Spotify based on a query string. "
       ++ "Use this to find music tracks by name, artist, album, or any combination. "
       ++ "Results include track titles, artists, albums, and Spotify IDs. "
       ++ "Useful for discovering music to add to playlists.";
     inputSchema :=
       object_schema
         [("query",
           schema_property "string"
             "Search query for tracks (e.g., 'Dance Monkey', 'Dua Lipa', 'Jazz')");
          ("limit",
           schema_property_default "number"
             "Number of results to return (1-50, default 10)" (JNum (Num 10)))]
         ["query"] |}.

Definition GET_RECOMMENDATIONS_TOOL : Tool :=
  {| tool_name := "spotify_get_recommendations";
     description :=
       "Gets track recommendations from Spotify based on seed tracks, artists, or genres. "
       ++ "Use this to discover new music similar to tracks or artists the user likes. "
       ++ "You can specify audio features like tempo, energy, etc. to further refine recommendations.";
     inputSchema :=
       object_schema
         [("seed_tracks",
           schema_string_array "Spotify track IDs to use as seeds (up to 5 total seeds)");
          ("seed_artists",
           schema_string_array "Spotify artist IDs to use as seeds (up to 5 total seeds)");
          ("seed_genres",
           schema_string_array "Genre names to use as seeds (up to 5 total seeds)");
          ("limit",
           schema_property_default "number"
             "Number of recommendations to return (1-100, default 20)" (JNum (Num 20)));
          ("target_energy",
           schema_property "number" "Target energy level (0.0 to 1.0)");
          ("target_danceability",
           schema_property "number" "Target danceability (0.0 to 1.0)");
          ("target_tempo", schema_property "number" "Target tempo in BPM")]
         [] |}.

Definition CREATE_PLAYLIST_TOOL : Tool :=
  {| tool_name := "spotify_create_playlist";
     description :=
       "Creates a new playlist in the user's Spotify account. "
       ++ "Use this to create themed playlists or organize music collections. "
       ++ "You can specify a name, description, and whether the playlist should be public.";
     inputSchema :=
       object_schema
         [("name", schema_property "string" "Name of the playlist to create");
          ("description",
           schema_property_default "string" "Description of the playlist"
             (JStr EmptyString));
          ("public",
           schema_property_default "boolean"
             "Whether the playlist should be public (true) or private (false)"
             (JBool false))]
         ["name"] |}.

Definition ADD_TRACKS_TO_PLAYLIST_TOOL : Tool :=
  {| tool_name := "spotify_add_tracks_to_playlist";
     description :=
       "Adds tracks to an existing playlist. "
       ++ "Use this after creating a playlist or to update an existing one. "
       ++ "Requires the playlist ID and an array of track URIs.";
     inputSchema :=
       object_schema
         [("playlist_id",
           schema_property "string" "Spotify ID of the playlist to add tracks to");
          ("track_uris", schema_string_array "Array of Spotify track URIs to add");
          ("position",
           schema_property "number"
             "Position to insert tracks (0-based, default is end of playlist)")]
         ["playlist_id"; "track_uris"] |}.

Definition GET_USER_PLAYLISTS_TOOL : Tool :=
  {| tool_name := "spotify_get_user_playlists";
     description :=
       "Gets a list of the user's playlists. "
       ++ "Use this to see what playlists the user already has. "
       ++ "Results include playlist name, description, and ID.";
     inputSchema :=
       object_schema
         [("limit",
           schema_property_default "number"
             "Number of playlists to return (1-50, default 20)" (JNum (Num 20)));
          ("offset",
           schema_property_default "number"
             "Index of the first playlist to return (for pagination)" (JNum (Num 0)))]
         [] |}.

Definition GET_PLAYLIST_TRACKS_TOOL : Tool :=
  {| tool_name := "spotify_get_playlist_tracks";
     description :=
       "Gets the tracks in a specific playlist. "
       ++ "Use this to see what tracks are in a playlist the user mentions. "
       ++ "Results include track titles, artists, and other metadata.";
     inputSchema :=
       object_schema
         [("playlist_id",
           schema_property "string" "Spotify ID of the playlist to get tracks from");
          ("limit",
           schema_property_default "number"
             "Number of tracks to return (1-100, default 50)" (JNum (Num 50)));
          ("offset",
           schema_property_default "number"
             "Index of the first track to return (for pagination)" (JNum (Num 0)))]
         ["playlist_id"] |}.

(** The answer of the [ListToolsRequestSchema] handler (entry point,
    lines 80-89). *)
Definition list_tools : list Tool :=
  [SEARCH_TRACKS_TOOL;
   GET_RECOMMENDATIONS_TOOL;
   CREATE_PLAYLIST_TOOL;
   ADD_TRACKS_TO_PLAYLIST_TOOL;
   GET_USER_PLAYLISTS_TOOL;
   GET_PLAYLIST_TRACKS_TOOL].

(** Reading a schema: the schema of one property, the default it
    advertises, its declared type, and the required property names. *)
Definition schema_of (tool : Tool) (key : string) : JSValue :=
  prop (prop (inputSchema tool) "properties") key.

Definition advertised_default (tool : Tool) (key : string) : option JSValue :=
  if has_property "default" (schema_of tool key)
  then Some (prop (schema_of tool key) "default")
  else None.

Definition declared_type (tool : Tool) (key : string) : JSValue :=
  prop (schema_of tool key) "type".

Definition required_properties (tool : Tool) : list JSValue :=
  match prop (inputSchema tool) "required" with
  | JArr names => names
  | _ => []
  end.

(** A value has the type a schema declares. *)
Definition has_type (type : JSValue) (v : JSValue) : bool :=
  match type, v with
  | JStr "string", JStr _ => true
  | JStr "number", JNum _ => true
  | JStr "boolean", JBool _ => true
  | JStr "array", JArr _ => true
  | _, _ => false
  end.

(** The object [args] with the property [key] added at the end. *)
Definition with_property (properties : list (string * JSValue)) (key : string)
  (v : JSValue) : JSValue :=
  JObj (properties ++ [(key, v)])%list.

(** ** Notions for the requests of the operations *)

(** The address of the Web API every operation talks to. *)
Definition api_base : string := "https://api.spotify.com/v1/".

(** Every character of a string passes a test. *)
Fixpoint every_character (test : ascii -> bool) (s : string) : bool :=
  match s with
  | EmptyString => true
  | String c rest => test c && every_character test rest
  end.

(** A string of ASCII letters and digits, as the ids of the service are
    written.  Such a segment of an address is left as it is when the
    address is parsed (no dot segment, no separator, nothing to
    escape). *)
Definition is_alphanumeric (c : ascii) : bool :=
  let n := nat_of_ascii c in
  ((48 <=? n) && (n <=? 57) || (65 <=? n) && (n <=? 90)
   || (97 <=? n) && (n <=? 122))%nat.

Definition alphanumeric (s : string) : bool := every_character is_alphanumeric s.

(** A token as it can stand in a header: not empty, and made of visible
    ASCII characters. *)
Definition is_visible (c : ascii) : bool :=
  let n := nat_of_ascii c in ((33 <=? n) && (n <=? 126))%nat.

Definition token_text (s : string) : bool :=
  negb (String.eqb s EmptyString) && every_character is_visible s.

(** A request that carries the bearer [token] and, when [within] is set,
    goes to an address of the Web API. *)
Definition api_request (token : string) (within : bool) (r : Request) : Prop :=
  In ("Authorization", "Bearer " ++ token) (headers r)
  /\ (within = true -> prefix "https://api.spotify.com/v1/" (href (url r)) = true).

(** The operations whose addresses the program fixes: a literal address,
    or one that holds the playlist id of the caller, when that id is made
    of letters and digits.  (The second address of [createPlaylist] holds
    the user id of the profile answer.) *)
Definition fixed_address (o : Operation) : bool :=
  match o with
  | SearchTracks _ _ | GetRecommendations _ | GetUserPlaylists _ _ => true
  | AddTracksToPlaylist (JStr id) _ _ | GetPlaylistTracks (JStr id) _ _ =>
      alphanumeric id
  | _ => false
  end.

(** A computation that sends at most [n] requests, each of them
    satisfying [P]. *)
Definition sends {A : Type} (n : nat) (P : Request -> Prop) (c : M A) : Prop :=
  forall w,
    exists requests,
      sent (snd (c w)) = (requests ++ sent w)%list
      /\ (List.length requests <= n)%nat
      /\ Forall P requests.

(** The number of requests an operation sends to the Web API at most. *)
Definition api_requests_of (o : Operation) : nat :=
  match o with
  | CreatePlaylist _ _ _ | GetPlaylistTracks _ _ _ => 2
  | _ => 1
  end.

(** An optional integer argument as the value the caller passes, and the
    integer that stands for it when it is absent. *)
Definition optional (x : option Z) : JSValue :=
  match x with
  | Some n => JNum (Num n)
  | None => JUndefined
  end.

Definition or_default (x : option Z) (d : Z) : Z :=
  match x with
  | Some n => n
  | None => d
  end.


(** A page of two playlists out of seven. *)
Definition playlists_document : string * JSValue :=
  ("playlists.json",
   JObj [("items",
          JArr [JObj [("name", JStr "Morning");
                      ("description", JStr EmptyString);
                      ("tracks", JObj [("total", JNum (Num 12))]);
                      ("public", JBool true);
                      ("id", JStr "p1");
                      ("external_urls", JObj [("spotify", JStr "https://open.spotify.com/playlist/p1")])];
                JObj [("name", JStr "Evening");
                      ("description", JStr "slow");
                      ("tracks", JObj [("total", JNum (Num 30))]);
                      ("public", JBool false);
                      ("id", JStr "p2");
                      ("external_urls", JObj [("spotify", JStr "https://open.spotify.com/playlist/p2")])]]);
         ("total", JNum (Num 7))]).


Definition playlists_found : string * Response :=
  ("https://api.spotify.com/v1/me/playlists",
   {| status := 200; statusText := "OK"; body := "playlists.json" |}).

(** The two requests of [getPlaylistTracks]: the playlist, and a page of
    its tracks. *)
Definition playlist_request (playlistId token : JSValue) : Request :=
  bearer_get (new_URL ("https://api.spotify.com/v1/playlists/" ++ ToString playlistId))
    token.

Definition playlist_page_request (playlistId : JSValue) (limit offset : Z)
  (token : JSValue) : Request :=
  bearer_get
    {| href := "https://api.spotify.com/v1/playlists/" ++ ToString playlistId
               ++ "/tracks";
       searchParams := [("limit", Number_toString (Num (Z.min limit 100)));
                        ("offset", Number_toString (Num offset))] |}
    token.

(** A page whose second item has lost its track, and an empty page. *)
Definition gap_document : string * JSValue :=
  ("page.json",
   JObj [("items",
          JArr [JObj [("added_at", JStr "2024-01-01T00:00:00Z");
                      ("track",
                       JObj [("name", JStr "Song");
                             ("artists", JArr [JObj [("name", JStr "Artist")]]);
                             ("album", JObj [("name", JStr "Album")]);
                             ("duration_ms", JNum (Num 125000));
                             ("uri", JStr "spotify:track:1");
                             ("id", JStr "1")])];
                JObj [("added_at", JStr "2024-01-02T00:00:00Z");
                      ("track", JNull)]])]).


(** The two requests of [createPlaylist]: the profile, and the new
    playlist under the user found there. *)
Definition profile_request (token : string) : Request :=
  {| url := {| href := "https://api.spotify.com/v1/me"; searchParams := [] |};
     method := "GET";
     headers := [("Authorization", "Bearer " ++ token)];
     payload := NoBody |}.

Definition new_playlist_request (userId : string) (name description isPublic : JSValue)
  (token : string) : Request :=
  {| url := {| href := "https://api.spotify.com/v1/users/" ++ userId ++ "/playlists";
               searchParams := [] |};
     method := "POST";
     headers := [("Authorization", "Bearer " ++ token);
                 ("Content-Type", "application/json")];
     payload :=
       JsonBody
         (JObj [("name", name);
                ("description",
                 match description with
                 | JUndefined => JStr EmptyString
                 | _ => description
                 end);
                ("public",
                 match isPublic with
                 | JUndefined => JBool false
                 | _ => isPublic
                 end)]) |}.

Definition profile_found : string * Response :=
  ("https://api.spotify.com/v1/me",
   {| status := 200; statusText := "OK"; body := "me.json" |}).

Definition profile_forbidden : string * Response :=
  ("https://api.spotify.com/v1/me",
   {| status := 403; statusText := "Forbidden"; body := "scope.json" |}).

Definition profile_document : string * JSValue :=
  ("me.json", JObj [("id", JStr "alice")]).

(** A snapshot answer of [addTracksToPlaylist]. *)
Definition snapshot_document : string * JSValue :=
  ("snapshot.json", JObj [("snapshot_id", JStr "s1")]).

Definition tracks_added : string * Response :=
  ("https://api.spotify.com/v1/playlists/P/tracks",
   {| status := 201; statusText := "Created"; body := "snapshot.json" |}).

(** The parameters of a call with seeds that are lists of strings, an
    integer limit (or none) and no target. *)
Definition seeds_only (tracks artists genres : list string) (limit : option Z)
  : RecommendationParams :=
  {| seed_tracks := JArr (map JStr tracks);
     seed_artists := JArr (map JStr artists);
     seed_genres := JArr (map JStr genres);
     rec_limit := JNum (Num (or_default limit 20));
     target_energy := JUndefined;
     target_danceability := JUndefined;
     target_tempo := JUndefined |}.

(** The search parameter of a list of seeds: none for the empty list, the
    seeds separated by commas otherwise. *)
Definition seed_parameter (key : string) (seeds : list string)
  : list (string * string) :=
  match seeds with
  | [] => []
  | _ :: _ => [(key, join "," seeds)]
  end.

(** A property that the caller may leave out of the arguments object. *)
Definition optional_entry (key : string) (v : option JSValue)
  : list (string * JSValue) :=
  match v with
  | Some x => [(key, x)]
  | None => []
  end.

(** A list of strings as a value. *)
Definition strings (l : list string) : JSValue := JArr (map JStr l).

(** The arguments object of a recommendations call: each seed list and the
    limit present or left out, no target. *)
Definition seed_arguments (tracks artists genres : option (list string))
  (limit : option Z) : JSValue :=
  JObj (optional_entry "seed_tracks" (option_map strings tracks)
        ++ optional_entry "seed_artists" (option_map strings artists)
        ++ optional_entry "seed_genres" (option_map strings genres)
        ++ optional_entry "limit" (option_map (fun n => JNum (Num n)) limit)).

(** The seeds of a list that may have been left out. *)
Definition seeds_or_none (seeds : option (list string)) : list string :=
  match seeds with
  | Some l => l
  | None => []
  end.

(** A search answered with two tracks, and with none. *)
Definition search_document : string * JSValue :=
  ("search.json",
   JObj [("tracks",
          JObj [("items",
                 JArr [JObj [("name", JStr "One");
                             ("artists", JArr [JObj [("name", JStr "A")];
                                               JObj [("name", JStr "B")]]);
                             ("album", JObj [("name", JStr "First")]);
                             ("duration_ms", JNum (Num 59999));
                             ("uri", JStr "spotify:track:1");
                             ("id", JStr "1");
                             ("popularity", JNum (Num 50))];
                       JObj [("name", JStr "Two");
                             ("artists", JArr [JObj [("name", JStr "C")]]);
                             ("album", JObj [("name", JStr "Second")]);
                             ("duration_ms", JNum (Num 600000));
                             ("uri", JStr "spotify:track:2");
                             ("id", JStr "2");
                             ("popularity", JNum (Num 7))]])])]).

Definition search_found : string * Response :=
  ("https://api.spotify.com/v1/search",
   {| status := 200; statusText := "OK"; body := "search.json" |}).


(** * Part II: properties *)

(** ** Strings *)

Lemma append_assoc (a b c : string) : (a ++ b) ++ c = a ++ (b ++ c).
Proof. induction a as [|x a IH]; cbn; [reflexivity | now rewrite IH]. Qed.

Lemma prefix_append (p s : string) : prefix p (p ++ s) = true.
Proof.
  induction p as [|c p IH]; cbn.
  - now destruct s.
  - destruct (ascii_dec c c) as [_|Hne]; [exact IH | now destruct Hne].
Qed.

(** ** Binary64 *)

Lemma round_half_even_bounds (a b : Z) :
  0 < b -> 2 * a - b <= 2 * b * round_half_even a b <= 2 * a + b.
Proof.
  intros Hb. unfold round_half_even. cbv zeta.
  pose proof (Z.div_mod a b ltac:(lia)) as Hdiv.
  pose proof (Z.mod_pos_bound a b Hb) as Hmod.
  destruct (Z.ltb_spec (2 * (a mod b)) b);
    [|destruct (Z.ltb_spec b (2 * (a mod b))); [|destruct (Z.even (a / b))]]; nia.
Qed.

Lemma round_half_even_below (q r b : Z) :
  0 <= r -> 2 * r < b -> round_half_even (q * b + r) b = q.
Proof.
  intros Hr Hb. unfold round_half_even. cbv zeta.
  assert (Hq : (q * b + r) / b = q).
  { symmetry. apply (Z.div_unique _ _ q r); lia. }
  assert (Hm : (q * b + r) mod b = r).
  { symmetry. apply (Z.mod_unique _ _ q r); lia. }
  rewrite Hq, Hm.
  destruct (Z.ltb_spec (2 * r) b); [reflexivity | lia].
Qed.

Lemma shift_spec (a b : Z) :
  0 < a -> 0 < b -> a < b * 2 ^ 53 ->
  0 <= shift a b /\ b * 2 ^ 52 <= a * 2 ^ shift a b < b * 2 ^ 53.
Proof.
  intros Ha Hb Hab.
  destruct (Z.log2_spec a Ha) as [Hla1 Hla2].
  destruct (Z.log2_spec b Hb) as [Hlb1 Hlb2].
  pose proof (Z.log2_nonneg a) as Hla0.
  pose proof (Z.log2_nonneg b) as Hlb0.
  set (la := Z.log2 a) in *. set (lb := Z.log2 b) in *.
  rewrite Z.pow_succ_r in Hla2, Hlb2 by lia.
  assert (HA : 0 < 2 ^ la) by (apply Z.pow_pos_nonneg; lia).
  assert (HB : 0 < 2 ^ lb) by (apply Z.pow_pos_nonneg; lia).
  assert (Hs1 : 0 <= 53 - la + lb).
  { assert (H : 2 ^ la < 2 ^ (lb + 54)).
    { rewrite Z.pow_add_r by lia. change (2 ^ 54) with (2 * 2 ^ 53). nia. }
    apply Z.pow_lt_mono_r_iff in H; lia. }
  unfold shift. fold la lb. unfold scale.
  destruct (Z.leb_spec 0 (53 - la + lb)) as [_|]; [|lia].
  set (s := 53 - la + lb) in *.
  assert (Hpow : 2 ^ la * 2 ^ s = 2 ^ lb * 2 ^ 53).
  { rewrite <- !Z.pow_add_r by lia. f_equal. lia. }
  assert (Hps : 0 < 2 ^ s) by (apply Z.pow_pos_nonneg; lia).
  set (A := 2 ^ la) in *. set (B := 2 ^ lb) in *.
  change (2 ^ 53) with (2 * 2 ^ 52) in *.
  assert (H52 : 0 < 2 ^ 52) by reflexivity.
  set (T := 2 ^ 52) in *.
  destruct (Z.leb_spec (b * (2 * T)) (a * 2 ^ s)) as [Hge|Hlt].
  - assert (Hs : 1 <= s).
    { destruct (Z.eq_dec s 0) as [H0|]; [|lia]. rewrite H0 in Hge. cbn in Hge. lia. }
    split; [lia|].
    replace s with (Z.succ (s - 1)) in Hge, Hpow, Hps by lia.
    rewrite Z.pow_succ_r in Hge, Hpow, Hps by lia.
    set (P := 2 ^ (s - 1)) in *.
    assert (a * P < 2 * A * P) by (apply Z.mul_lt_mono_pos_r; lia).
    assert (B * T <= b * T) by (apply Z.mul_le_mono_nonneg_r; lia).
    lia.
  - split; [lia|]. set (P := 2 ^ s) in *.
    assert (A * P <= a * P) by (apply Z.mul_le_mono_nonneg_r; lia).
    assert (b * T < 2 * B * T) by (apply Z.mul_lt_mono_pos_r; lia).
    lia.
Qed.

Lemma floor_double_shifted (m s : Z) :
  0 <= s -> floor_double (m, - s) = m / 2 ^ s.
Proof.
  intros Hs. unfold floor_double.
  destruct (Z.leb_spec 0 (- s)).
  - replace s with 0 by lia. cbn. now rewrite Z.mul_1_r, Z.div_1_r.
  - now rewrite Z.opp_involutive.
Qed.

Lemma integer_of_shifted (z s : Z) :
  0 <= s -> integer_of (z * 2 ^ s, - s) = Some z.
Proof.
  intros Hs. unfold integer_of.
  destruct (Z.leb_spec 0 (- s)).
  - replace s with 0 by lia. cbn. now rewrite !Z.mul_1_r.
  - rewrite Z.opp_involutive.
    assert (HP : 0 < 2 ^ s) by (apply Z.pow_pos_nonneg; lia).
    rewrite Z.mod_mul by lia. cbn. now rewrite Z.div_mul by lia.
Qed.

Lemma floor_quotient (n k : Z) :
  0 <= n < 2 ^ 53 -> 0 < k -> floor_double (nearest n k) = n / k.
Proof.
  intros Hn Hk. unfold nearest.
  destruct (Z.eqb_spec n 0) as [->|Hn0]; [reflexivity|].
  rewrite Z.abs_eq by lia.
  destruct (shift_spec n k ltac:(lia) Hk ltac:(nia)) as [Hs [Hlo Hhi]].
  unfold scale. destruct (Z.leb_spec 0 (shift n k)) as [_|]; [|lia].
  set (s := shift n k) in *.
  rewrite floor_double_shifted by exact Hs.
  assert (HP : 0 < 2 ^ s) by (apply Z.pow_pos_nonneg; lia).
  pose proof (round_half_even_bounds (n * 2 ^ s) k Hk) as Hm.
  pose proof (Z.div_mod n k ltac:(lia)) as Hdiv.
  pose proof (Z.mod_pos_bound n k Hk) as Hmod.
  set (P := 2 ^ s) in *. set (m := round_half_even (n * P) k) in *.
  set (Q := n / k) in *. set (R := n mod k) in *.
  change (2 ^ 53) with (2 * 2 ^ 52) in *.
  set (T := 2 ^ 52) in *.
  assert (HT : 0 < T) by reflexivity.
  assert (HkP : k < 2 * P).
  { assert (n * P < 2 * T * P) by (apply Z.mul_lt_mono_pos_r; lia).
    assert (k * T < 2 * P * T) by lia.
    apply (Z.mul_lt_mono_pos_r T); lia. }
  symmetry. apply (Z.div_unique _ _ Q (m - Q * P)); [|lia].
  left. split.
  - (* Q * P <= m *)
    assert (2 * k * (Q * P) <= 2 * k * m + k) by nia.
    nia.
  - (* m < (Q + 1) * P *)
    assert (2 * k * m <= 2 * (k * Q + R) * P + k) by lia.
    assert (2 * (k * Q + R) * P + k < 2 * k * ((Q + 1) * P)).
    { assert (2 * R * P <= 2 * (k - 1) * P) by (apply Z.mul_le_mono_nonneg_r; lia).
      nia. }
    nia.
Qed.

Lemma nearest_integer (z b : Z) :
  0 <= z < 2 ^ 53 -> 0 < b -> represents (nearest (z * b) b) z.
Proof.
  intros Hz Hb. unfold nearest.
  destruct (Z.eqb_spec (z * b) 0) as [H0|H0].
  - assert (z = 0) by nia. subst z. exists 0. split; [lia | reflexivity].
  - assert (Hpos : 0 < z * b) by nia.
    rewrite Z.abs_eq by lia.
    destruct (shift_spec (z * b) b Hpos Hb ltac:(nia)) as [Hs _].
    unfold scale. destruct (Z.leb_spec 0 (shift (z * b) b)) as [_|]; [|lia].
    exists (shift (z * b) b). split; [exact Hs|].
    f_equal.
    replace (z * b * 2 ^ shift (z * b) b)
      with (z * 2 ^ shift (z * b) b * b + 0) by ring.
    apply round_half_even_below; lia.
Qed.

Lemma times_nine_tenths (x : Z * Z) (y : Z) :
  represents x (10 * y) -> 0 <= 10 * y < 2 ^ 53 ->
  represents (double_mul x nine_tenths) (9 * y).
Proof.
  intros (s & Hs & ->) Hy.
  unfold double_mul, nine_tenths, nearest_dyadic. cbn [fst snd].
  destruct (Z.leb_spec 0 (- s + -53)) as [|_]; [lia|].
  replace (- (- s + -53)) with (s + 53) by lia.
  rewrite Z.pow_add_r by lia.
  assert (HP : 0 < 2 ^ s) by (apply Z.pow_pos_nonneg; lia).
  set (P := 2 ^ s) in *.
  unfold nearest.
  destruct (Z.eqb_spec (10 * y * P * 8106479329266893) 0) as [H0|H0].
  - assert (y = 0) by nia. subst y. exists 0. split; [lia | reflexivity].
  - assert (Hy0 : 0 < y) by nia.
    assert (Hpos : 0 < 10 * y * P * 8106479329266893) by nia.
    rewrite Z.abs_eq by lia.
    assert (Hb : 0 < P * 2 ^ 53) by nia.
    assert (Hsmall : 10 * y * P * 8106479329266893 < P * 2 ^ 53 * 2 ^ 53).
    { change (2 ^ 53) with 9007199254740992 in *.
      assert (10 * y * 8106479329266893 < 9007199254740992 * 9007199254740992) by nia.
      assert (P * (10 * y * 8106479329266893)
              < P * (9007199254740992 * 9007199254740992))
        by (apply Z.mul_lt_mono_pos_l; lia).
      lia. }
    destruct (shift_spec _ _ Hpos Hb Hsmall) as [Hs' [_ Hhi]].
    set (s' := shift _ _) in *.
    unfold scale. destruct (Z.leb_spec 0 s') as [_|]; [|lia].
    assert (HP' : 0 < 2 ^ s') by (apply Z.pow_pos_nonneg; lia).
    set (P' := 2 ^ s') in *.
    exists s'. split; [exact Hs'|]. fold P'. f_equal.
    change (2 ^ 53) with 9007199254740992 in *.
    replace (10 * y * P * 8106479329266893 * P')
      with (9 * y * P' * (P * 9007199254740992) + 2 * y * P * P') by ring.
    assert (Hbound : 9 * y * P' < 9007199254740992).
    { assert (P * (y * (81064793292668930 * P'))
              < P * (9007199254740992 * 9007199254740992)) by lia.
      apply Z.mul_lt_mono_pos_l in H; [|exact HP]. nia. }
    apply round_half_even_below; [nia|].
    assert (4 * y * P' < 9007199254740992) by nia.
    assert (P * (4 * y * P') < P * 9007199254740992)
      by (apply Z.mul_lt_mono_pos_l; lia).
    lia.
Qed.

Lemma plus_integer (x : Z * Z) (now z : Z) :
  represents x z -> 0 <= now -> 0 <= z -> now + z < 2 ^ 53 ->
  represents (double_add (now, 0) x) (now + z).
Proof.
  intros (s & Hs & ->) Hnow Hz Hsum.
  unfold double_add, nearest_dyadic. cbn [fst snd].
  rewrite Z.min_r by lia.
  replace (0 - - s) with s by lia. replace (- s - - s) with 0 by lia.
  change (2 ^ 0) with 1. rewrite Z.mul_1_r.
  destruct (Z.leb_spec 0 (- s)).
  - replace s with 0 by lia. cbn [Z.opp Z.pow]. rewrite !Z.mul_1_r.
    replace (now + z) with ((now + z) * 1) at 1 by lia.
    apply nearest_integer; lia.
  - rewrite Z.opp_involutive.
    replace (now * 2 ^ s + z * 2 ^ s) with ((now + z) * 2 ^ s) by ring.
    apply nearest_integer; [lia|]. apply Z.pow_pos_nonneg; lia.
Qed.

Lemma expiry_binary64_exact (now e : Z) :
  0 <= e -> 1000 * e < 2 ^ 53 -> 0 <= now -> now + 900 * e < 2 ^ 53 ->
  integer_of (expiry_binary64 now e) = Some (now + 900 * e).
Proof.
  intros He Hms Hnow Hsum. unfold expiry_binary64.
  assert (H1 : represents (double_mul (e, 0) (1000, 0)) (10 * (100 * e))).
  { unfold double_mul, nearest_dyadic. cbn [fst snd Z.add Z.leb Z.pow].
    replace (e * 1000 * 1) with (10 * (100 * e) * 1) by lia.
    apply nearest_integer; lia. }
  apply times_nine_tenths in H1; [|lia].
  apply (plus_integer _ now) in H1; [|lia..].
  destruct H1 as (s & Hs & ->).
  replace (now + 9 * (100 * e)) with (now + 900 * e) by lia.
  apply integer_of_shifted. exact Hs.
Qed.

(** The definitions agree with the doubles of the machine: on the
    quotients of [formatDuration] and on line 67, at small and at large
    arguments. *)
Example nearest_on_hardware :
  forallb (fun p => same_double (nearest (fst p) (snd p))
                      (hardware_quotient (fst p) (snd p)))
    [(0, 1000); (1, 1000); (999, 1000); (59999, 1000); (125000, 1000);
     (600000, 1000); (59, 60); (125, 60); (600, 60);
     (9007199254740991, 1000); (9007199254740, 60);
     (141576743126970992, 1000); (141576743126971, 60)]
  = true.
Proof. vm_compute. reflexivity. Qed.

Example expiry_on_hardware :
  forallb (fun p => same_double (expiry_binary64 (fst p) (snd p))
                      (hardware_expiry (fst p) (snd p)))
    [(1001000, 3600); (1700000000000, 3600); (1700000000000, 0);
     (0, 9007199254740); (1700000000000, 9007199254740);
     (1001000, 100000000000000); (1001000, 9007199254740992)]
  = true.
Proof. vm_compute. reflexivity. Qed.

Lemma all_from_spec (f : Z -> bool) (count : nat) (n : Z) :
  all_from f count n = true ->
  forall e, n <= e < n + Z.of_nat count -> f e = true.
Proof.
  revert n; induction count as [|k IH]; intros n H e He; [lia|].
  simpl in H. apply andb_prop in H as [Hn Hrest].
  destruct (Z.eq_dec e n) as [->|Hne]; [exact Hn|].
  apply (IH (n + 1) Hrest). lia.
Qed.

Lemma expiry_on_hardware_table :
  all_from (fun e => same_double (expiry_binary64 1700000000000 e)
                       (hardware_expiry 1700000000000 e))
    (Z.to_nat 401) 3400 = true.
Proof. vm_compute. reflexivity. Qed.

(** On every whole lifetime from 3400 to 3800 seconds, line 67 as defined
    here is line 67 on the machine. *)
Lemma expiry_on_hardware_agrees (e : Z) :
  3400 <= e <= 3800 ->
  same_double (expiry_binary64 1700000000000 e) (hardware_expiry 1700000000000 e)
  = true.
Proof.
  intros He.
  apply (all_from_spec _ _ _ expiry_on_hardware_table e).
  rewrite Z2Nat.id; lia.
Qed.

(** ** Durations *)

Example formatDuration_negative : formatDuration (Num (-61000)) = "-2:-1".
Proof. vm_compute. reflexivity. Qed.

Example formatDuration_NaN : formatDuration NaN = "NaN:NaN".
Proof. reflexivity. Qed.

(** From [2^53] on, a number prints as the shortest decimal that reads
    back as the same double, and from [10^21] on in exponent form. *)
Example Number_toString_shortest :
  Number_toString (Num (2 ^ 60)) = "1152921504606847000"
  /\ Number_toString (Num (- 2 ^ 60)) = "-1152921504606847000"
  /\ Number_toString (Num (10 ^ 21)) = "1e+21"
  /\ Number_toString (Num (2 ^ 53 - 1)) = "9007199254740991".
Proof. vm_compute. repeat split. Qed.

Example formatDuration_exponent :
  formatDuration (Num (2 ^ 86)) = "1.2895208742556045e+21:28".
Proof. vm_compute. reflexivity. Qed.

(** Below sixty, padding the decimal form to width two from the left gives
    the two digits: checked on each of the sixty values. *)
Lemma padStart_two_digits_table :
  forallb (fun n : nat =>
             String.eqb (padStart 2 "0" (Number_toString (Num (Z.of_nat n))))
                        (two_digits (Z.of_nat n)))
          (seq 0 60) = true.
Proof. vm_compute. reflexivity. Qed.

Lemma padStart_two_digits (s : Z) :
  0 <= s < 60 ->
  padStart 2 "0" (Number_toString (Num s)) = two_digits s.
Proof.
  intros Hs.
  pose proof padStart_two_digits_table as T.
  rewrite forallb_forall in T.
  specialize (T (Z.to_nat s)).
  rewrite Z2Nat.id in T by lia.
  apply String.eqb_eq, T, in_seq. lia.
Qed.

(** Below [2^53] the rounding of the quotient does not show under the
    floor. *)
Lemma floor_div_exact (n k : Z) :
  0 <= n < 2 ^ 53 -> 0 < k -> floor_div (Num n) k = Num (n / k).
Proof. intros Hn Hk. unfold floor_div. now rewrite floor_quotient. Qed.

(** C9, as stated, fails: 141576743126970992 is a number of the engine,
    and a nonnegative count of milliseconds; its quotient by 1000 is
    rounded up to the next double, a whole number, and the seconds read 31
    where [floor(ms/1000) mod 60] is 30. *)
Lemma formatDuration_beyond_safe_integers :
  binary64_integer 141576743126970992 = 141576743126970992
  /\ formatDuration (Num 141576743126970992) = "2359612385449:31"
  /\ (141576743126970992 / 1000) mod 60 = 30
  /\ ~ (forall ms : Z,
          0 <= ms ->
          binary64_integer ms = ms ->
          formatDuration (Num ms)
          = Number_toString (Num (ms / 1000 / 60)) ++ ":"
            ++ two_digits ((ms / 1000) mod 60)).
Proof.
  split; [vm_compute; reflexivity|].
  split; [vm_compute; reflexivity|].
  split; [vm_compute; reflexivity|].
  intros claim.
  specialize (claim 141576743126970992 ltac:(lia) ltac:(vm_compute; reflexivity)).
  vm_compute in claim. discriminate claim.
Qed.

(** C9, amended. For every nonnegative millisecond count below [2^53],
    [formatDuration] is the whole minutes [floor(ms/1000/60)], a colon,
    and the whole seconds modulo sixty on two digits, with no rounding;
    the three sample values of the specification come out as "2:05",
    "0:59" and "10:00". *)
Theorem formatDuration_spec (ms : Z) :
  0 <= ms < 2 ^ 53 ->
  formatDuration (Num ms)
  = Number_toString (Num (ms / 1000 / 60)) ++ ":" ++ two_digits ((ms / 1000) mod 60)
  /\ ms / 1000 / 60 = ms / 60000
  /\ formatDuration (Num 125000) = "2:05"
  /\ formatDuration (Num 59999) = "0:59"
  /\ formatDuration (Num 600000) = "10:00".
Proof.
  intros Hms.
  assert (Hts : 0 <= ms / 1000 < 2 ^ 53).
  { split; [apply Z.div_pos; lia|].
    apply Z.div_lt_upper_bound; lia. }
  split; [|split; [|split; [|split]]].
  - unfold formatDuration; cbv zeta.
    rewrite (floor_div_exact ms 1000) by lia.
    rewrite (floor_div_exact (ms / 1000) 60) by lia.
    unfold remainder.
    rewrite Z.rem_mod_nonneg by lia.
    rewrite padStart_two_digits; [reflexivity|].
    apply Z.mod_pos_bound; lia.
  - rewrite Z.div_div by lia. reflexivity.
  - vm_compute. reflexivity.
  - vm_compute. reflexivity.
  - vm_compute. reflexivity.
Qed.

Lemma formatDuration_spec_witness :
  formatDuration (Num 59999)
  = Number_toString (Num (59999 / 1000 / 60)) ++ ":"
    ++ two_digits ((59999 / 1000) mod 60)
  /\ formatDuration (Num 59999) = "0:59".
Proof.
  destruct (formatDuration_spec 59999 ltac:(split; [lia | reflexivity]))
    as (Hformat & _ & _ & Hsample & _).
  split; [exact Hformat | exact Hsample].
Defined.

(** ** The dispatch gateway *)

(** The handler never throws: whatever the [try] block does, the result is
    an envelope. *)
Lemma call_tool_normal (E : Engine) (name : string) (args : JSValue) (w : World) :
  call_tool E name args w
  = match call_tool_try E name args w with
    | (Normal envelope, w') => (Normal envelope, w')
    | (Throw e, w') => (Normal (text_envelope ("Error: " ++ error_text e) true), w')
    end.
Proof.
  unfold call_tool, try_catch, call_tool_catch, ret.
  destruct (call_tool_try E name args w) as [[envelope|e] w']; reflexivity.
Qed.

(** Wrapping the text of an operation. *)
Lemma wrap_results (op : M string) (w : World) :
  (results <- op ;; ret (text_envelope results false)) w
  = match op w with
    | (Normal results, w') => (Normal (text_envelope results false), w')
    | (Throw e, w') => (Throw e, w')
    end.
Proof. unfold bind, ret. destruct (op w) as [[results|e] w']; reflexivity. Qed.

(** With arguments present, a registered name whose guard passes runs its
    operation and wraps the text. *)
Lemma call_tool_try_dispatched (E : Engine) (name : string) (args : JSValue)
  (op : M string) :
  truthy args = true ->
  dispatched E name args = Some op ->
  call_tool_try E name args = (results <- op ;; ret (text_envelope results false)).
Proof.
  intros Hargs. unfold dispatched, call_tool_try. rewrite Hargs. cbn [negb].
  repeat match goal with
         | |- context [String.eqb name ?s] => destruct (String.eqb name s)
         | |- context [if ?g args then _ else _] => destruct (g args)
         end;
    cbn [negb]; intros H; inversion H; reflexivity.
Qed.

(** A name outside the six fails every comparison of the [switch]. *)
Lemma is_tool_name_false (name : string) :
  is_tool_name name = false ->
  String.eqb name "spotify_search_tracks" = false
  /\ String.eqb name "spotify_get_recommendations" = false
  /\ String.eqb name "spotify_create_playlist" = false
  /\ String.eqb name "spotify_add_tracks_to_playlist" = false
  /\ String.eqb name "spotify_get_user_playlists" = false
  /\ String.eqb name "spotify_get_playlist_tracks" = false.
Proof.
  unfold is_tool_name, tool_names, existsb.
  intros H.
  repeat (apply orb_false_elim in H; destruct H as [? H]).
  repeat split; assumption.
Qed.

Lemma is_tool_name_In (name : string) :
  is_tool_name name = true <-> In name (map tool_name list_tools).
Proof.
  unfold is_tool_name. rewrite existsb_exists. split.
  - intros (x & Hx & Heq). apply String.eqb_eq in Heq. now subst.
  - intros H. exists name. split; [exact H | apply String.eqb_refl].
Qed.

(** A registered name whose guard rejects the arguments. *)
Lemma call_tool_try_rejected (E : Engine) (name : string) (args : JSValue) :
  is_tool_name name = true ->
  truthy args = true ->
  dispatched E name args = None ->
  call_tool_try E name args
  = throw (ErrorObject ("Invalid arguments for " ++ name)).
Proof.
  intros Hname Hargs.
  apply is_tool_name_In in Hname. cbn in Hname.
  unfold dispatched, call_tool_try. rewrite Hargs. cbn [negb].
  repeat (destruct Hname as [<-|Hname]); [..|destruct Hname];
    cbn [String.eqb Ascii.eqb Bool.eqb];
    match goal with
    | |- context [negb (?g args)] => destruct (g args)
    end; cbn [negb]; intros [=]; reflexivity.
Qed.

(** C1. For every call-tool request the handler completes normally, never
    by throwing, with an envelope holding exactly one text block.  Every
    error of the [try] block gives [isError = true] and the text "Error: "
    followed by the error's message: missing arguments, arguments the
    guard of the tool rejects, and whatever the dispatched operation
    throws (credential renewal, upstream failure, anything unexpected;
    for a thrown value that is no [Error], "Error: " followed by its
    string).  When the dispatched operation returns, the envelope has
    [isError = false] and the operation's text.  The world is the one the
    operation left. *)
Theorem call_tool_envelope (E : Engine) (name : string) (args : JSValue) (w : World) :
  exists (t : string) (error : bool) (w' : World),
    call_tool E name args w
    = (Normal {| content := [{| type_ := "text"; text := t |}]; isError := error |},
       w')
    /\ (truthy args = false ->
        t = "Error: No arguments provided" /\ error = true /\ w' = w)
    /\ (truthy args = true ->
        is_tool_name name = true ->
        dispatched E name args = None ->
        t = "Error: Invalid arguments for " ++ name /\ error = true /\ w' = w)
    /\ (forall op,
          truthy args = true ->
          dispatched E name args = Some op ->
          match op w with
          | (Normal results, w1) => t = results /\ error = false /\ w' = w1
          | (Throw (ErrorObject message), w1) =>
              t = "Error: " ++ message /\ error = true /\ w' = w1
          | (Throw (Raised v), w1) =>
              t = "Error: " ++ ToString v /\ error = true /\ w' = w1
          end).
Proof.
  rewrite call_tool_normal.
  destruct (truthy args) eqn:Hargs.
  - destruct (dispatched E name args) as [op|] eqn:Hop.
    + rewrite (call_tool_try_dispatched E name args op Hargs Hop), wrap_results.
      destruct (op w) as [[results|[message|v]] w1] eqn:Hrun;
        eexists; eexists; eexists;
        (split; [reflexivity|]);
        (split; [discriminate|]);
        (split; [discriminate|]);
        intros op' _ [= <-]; rewrite Hrun; auto.
    + destruct (is_tool_name name) eqn:Hname.
      * rewrite (call_tool_try_rejected E name args Hname Hargs Hop).
        eexists; eexists; eexists.
        split; [reflexivity|]. split; [discriminate|].
        split; [auto | discriminate].
      * destruct (is_tool_name_false name Hname) as (H1 & H2 & H3 & H4 & H5 & H6).
        unfold call_tool_try. rewrite Hargs, H1, H2, H3, H4, H5, H6.
        eexists; eexists; eexists.
        split; [reflexivity|]. split; [discriminate|].
        split; discriminate.
  - unfold call_tool_try. rewrite Hargs.
    eexists; eexists; eexists.
    split; [reflexivity|]. split; [auto|]. split; discriminate.
Qed.

(** Four runs through the gateway: a validation failure, a failed
    renewal, an upstream 401, and a listing that succeeds. *)
Example call_tool_invalid_arguments :
  call_tool (scripted [] []) "spotify_search_tracks" (JObj [("q", JStr "jazz")])
    initial_world
  = (Normal (text_envelope "Error: Invalid arguments for spotify_search_tracks" true),
     initial_world).
Proof. vm_compute. reflexivity. Qed.

Example call_tool_renewal_refused :
  fst (call_tool (scripted [token_refused] []) "spotify_search_tracks"
         (JObj [("query", JStr "jazz")]) initial_world)
  = Normal (text_envelope
              ("Error: Failed to get access token: 400 Bad Request" ++ LF
               ++ "invalid_grant.json") true).
Proof. vm_compute. reflexivity. Qed.

Example call_tool_upstream_401 :
  fst (call_tool (scripted [search_unauthorized] []) "spotify_search_tracks"
         (JObj [("query", JStr "jazz")]) warm_world)
  = Normal (text_envelope
              ("Error: Spotify API error: 401 Unauthorized" ++ LF ++ "expired.json")
              true).
Proof. vm_compute. reflexivity. Qed.

Example call_tool_listing :
  let E := scripted [playlist_found; page_found] [playlist_document; page_document] in
  exists t w',
    call_tool E "spotify_get_playlist_tracks" (JObj [("playlist_id", JStr "P")])
      warm_world
    = (Normal (text_envelope t false), w')
    /\ List.length (exchanges w') = 2%nat.
Proof. eexists. eexists. vm_compute. split; reflexivity. Qed.

(** C10. When the arguments are absent ([undefined]) or [null], the
    response has [isError = true] and the one text "Error: No arguments
    provided" whatever the tool name, registered or not, and the world is
    untouched; the text is not the "Unknown tool" one. *)
Theorem call_tool_no_arguments (E : Engine) (name : string) (args : JSValue)
  (w : World) :
  args = JUndefined \/ args = JNull ->
  call_tool E name args w
  = (Normal {| content := [{| type_ := "text";
                              text := "Error: No arguments provided" |}];
               isError := true |},
     w)
  /\ "Error: No arguments provided" <> "Unknown tool: " ++ name.
Proof.
  intros [-> | ->]; (split; [reflexivity | discriminate]).
Qed.

Lemma call_tool_no_arguments_witness :
  call_tool (scripted [] []) "no_such_tool" JUndefined initial_world
  = (Normal {| content := [{| type_ := "text";
                              text := "Error: No arguments provided" |}];
               isError := true |},
     initial_world).
Proof.
  exact (proj1 (call_tool_no_arguments (scripted [] []) "no_such_tool" JUndefined
                  initial_world (or_introl eq_refl))).
Defined.

(** C4, as stated, fails: an unregistered name with no arguments gets
    [isError = true] with the text "Error: No arguments provided", not
    "Unknown tool". *)
Lemma unknown_tool_without_arguments :
  is_tool_name "no_such_tool" = false
  /\ call_tool (scripted [] []) "no_such_tool" JUndefined initial_world
     = (Normal {| content := [{| type_ := "text";
                                 text := "Error: No arguments provided" |}];
                  isError := true |},
        initial_world)
  /\ ~ (forall (E : Engine) (name : string) (args : JSValue) (w : World),
          is_tool_name name = false ->
          call_tool E name args w
          = (Normal {| content := [{| type_ := "text";
                                      text := "Unknown tool: " ++ name |}];
                       isError := true |},
             w)).
Proof.
  split; [reflexivity|]. split; [reflexivity|].
  intros claim.
  specialize (claim (scripted [] []) "no_such_tool" JUndefined initial_world eq_refl).
  vm_compute in claim. discriminate claim.
Qed.

(** C4, amended. For every call whose arguments are present (truthy) and
    whose tool name is not one of the six registered ones, the handler
    completes normally with [isError = true] and the one text "Unknown
    tool: " followed by the name, and leaves the world as it was: no clock
    reading, no request, no change of the credential pair. *)
Theorem call_tool_unknown (E : Engine) (name : string) (args : JSValue) (w : World) :
  is_tool_name name = false ->
  truthy args = true ->
  call_tool E name args w
  = (Normal {| content := [{| type_ := "text"; text := "Unknown tool: " ++ name |}];
               isError := true |},
     w).
Proof.
  intros Hname Hargs.
  destruct (is_tool_name_false name Hname) as (H1 & H2 & H3 & H4 & H5 & H6).
  unfold call_tool, try_catch, call_tool_try.
  rewrite Hargs, H1, H2, H3, H4, H5, H6. reflexivity.
Qed.

Lemma call_tool_unknown_witness :
  call_tool (scripted [] []) "no_such_tool" (JObj []) initial_world
  = (Normal {| content := [{| type_ := "text"; text := "Unknown tool: no_such_tool" |}];
               isError := true |},
     initial_world).
Proof.
  exact (call_tool_unknown (scripted [] []) "no_such_tool" (JObj []) initial_world
           eq_refl eq_refl).
Defined.

(** ** The credential store *)

(** The validity check reads the clock at most once and changes nothing
    else. *)
Lemma token_still_valid_frame (E : Engine) (w : World) :
  exists valid w',
    token_still_valid E w = (Normal valid, w')
    /\ credential w' = credential w
    /\ exchanges w' = exchanges w.
Proof.
  unfold token_still_valid, bind, read_accessToken, read_tokenExpiryTime,
    Date_now, ret.
  destruct (truthy (accessToken w)); eauto.
Qed.

(** C2. When the cached token is a non-empty string and the clock reads an
    instant strictly before the stored expiry, [getAccessToken] returns the
    cached token, sends no request (no renewal call), and leaves the
    credential pair as it was; it only reads the clock once. *)
Theorem getAccessToken_cache_hit (E : Engine) (w : World) (s : string) (t : Z) :
  accessToken w = JStr s ->
  s <> EmptyString ->
  tokenExpiryTime w = Num t ->
  clock E (interactions w) < t ->
  exists w',
    getAccessToken E w = (Normal (JStr s), w')
    /\ credential w' = credential w
    /\ exchanges w' = exchanges w
    /\ interactions w' = S (interactions w).
Proof.
  intros Htoken Hs Hexpiry Hnow.
  unfold getAccessToken, token_still_valid, bind, read_accessToken,
    read_tokenExpiryTime, Date_now, ret.
  cbn beta. rewrite Htoken. cbn [truthy].
  apply String.eqb_neq in Hs. rewrite Hs. cbn [negb].
  rewrite Hexpiry. cbn [number_gt].
  apply Z.ltb_lt in Hnow. rewrite Hnow.
  cbn [accessToken]. rewrite Htoken.
  eexists. split; [reflexivity|].
  unfold credential. cbn. rewrite Htoken, Hexpiry. auto.
Qed.

Lemma getAccessToken_cache_hit_witness :
  exists w',
    getAccessToken (scripted [] []) warm_world = (Normal (JStr "cached"), w')
    /\ credential w' = credential warm_world
    /\ exchanges w' = exchanges warm_world
    /\ interactions w' = S (interactions warm_world).
Proof.
  apply (getAccessToken_cache_hit (scripted [] []) warm_world "cached" 9000000);
    [reflexivity | discriminate | reflexivity | vm_compute; reflexivity].
Defined.

(** The renewal exchange on an [ok] response whose body parses to an
    object with an integer [expires_in]. *)
Lemma renew_success (E : Engine) (w : World) (response : Response)
  (data : JSValue) (e : Z) :
  network E (interactions w) (token_request E) = Normal response ->
  ok response = true ->
  JSON_parse E (body response) = Normal data ->
  get data "expires_in" = Normal (JNum (Num e)) ->
  exists token,
    get data "access_token" = Normal token
    /\ renew E w
       = (Normal token,
          {| accessToken := token;
             tokenExpiryTime := Num (clock E (S (interactions w)) + e * 1000 * 9 / 10);
             interactions := S (S (interactions w));
             exchanges := (token_request E, Normal response) :: exchanges w |}).
Proof.
  intros Hnet Hok Hparse Hexp.
  assert (Htok : exists token, get data "access_token" = Normal token).
  { destruct data; cbn in Hexp |- *; try discriminate; eauto. }
  destruct Htok as [token Htok]. exists token. split; [exact Htok|].
  unfold renew, try_catch, bind, fetch, lift, throw, write_accessToken,
    write_tokenExpiryTime, read_accessToken, Date_now.
  rewrite Hnet, Hok. cbn [negb].
  rewrite Hparse, Htok. cbn. rewrite Hexp. reflexivity.
Qed.

(** Nine tenths of a whole number of seconds, in milliseconds, is a whole
    number: the division in [times_0_9] is exact. *)
Lemma nine_tenths_exact (e : Z) : e * 1000 * 9 / 10 = 900 * e.
Proof.
  replace (e * 1000 * 9) with (900 * e * 10) by lia.
  apply Z.div_mul. lia.
Qed.

(** C3, as stated, fails: the product and the sum of line 67 are computed
    on doubles.  With a clock reading of 1001000 and a lifetime of [2^53]
    seconds, both numbers of the engine, the expiry is
    8106479329267894272 where [now + 0.9 * expires_in * 1000] is
    8106479329267893800. *)
Lemma expiry_beyond_safe_integers :
  binary64_integer 1001000 = 1001000
  /\ binary64_integer (2 ^ 53) = 2 ^ 53
  /\ integer_of (expiry_binary64 1001000 (2 ^ 53)) = Some 8106479329267894272
  /\ 1001000 + 900 * 2 ^ 53 = 8106479329267893800
  /\ ~ (forall now expires_in : Z,
          0 <= now -> 0 <= expires_in ->
          binary64_integer now = now ->
          binary64_integer expires_in = expires_in ->
          integer_of (expiry_binary64 now expires_in)
          = Some (now + 900 * expires_in)).
Proof.
  split; [vm_compute; reflexivity|].
  split; [vm_compute; reflexivity|].
  split; [vm_compute; reflexivity|].
  split; [reflexivity|].
  intros claim.
  specialize (claim 1001000 (2 ^ 53) ltac:(lia) ltac:(lia)
                ltac:(vm_compute; reflexivity) ltac:(vm_compute; reflexivity)).
  vm_compute in claim. discriminate claim.
Qed.

(** C3, amended. When the validity check fails and the renewal exchange
    succeeds with a whole lifetime of [e] seconds, [e * 1000] below
    [2^53], and the clock reading [now] taken after the response leaves
    [now + 900 * e] below [2^53], the new expiry is [now + 0.9 * e * 1000]
    exactly (ten times the margin is nine times the lifetime in
    milliseconds), and it is what line 67 evaluates to on the doubles of
    the engine; a lifetime of 3600 gives [now + 3240000]. *)
Theorem renewal_sets_expiry (E : Engine) (w0 w : World) (response : Response)
  (data : JSValue) (e : Z) :
  token_still_valid E w0 = (Normal false, w) ->
  network E (interactions w) (token_request E) = Normal response ->
  ok response = true ->
  JSON_parse E (body response) = Normal data ->
  get data "expires_in" = Normal (JNum (Num e)) ->
  let now := clock E (S (interactions w)) in
  0 <= e ->
  e * 1000 < 2 ^ 53 ->
  0 <= now ->
  now + 900 * e < 2 ^ 53 ->
  exists token w' expiresAt,
    getAccessToken E w0 = (Normal token, w')
    /\ get data "access_token" = Normal token
    /\ accessToken w' = token
    /\ tokenExpiryTime w' = Num expiresAt
    /\ 10 * (expiresAt - now) = 9 * (e * 1000)
    /\ integer_of (expiry_binary64 now e) = Some expiresAt
    /\ (e = 3600 -> expiresAt = now + 3240000).
Proof.
  intros Hvalid Hnet Hok Hparse Hexp now He Hms Hnow Hsum.
  destruct (renew_success E w response data e Hnet Hok Hparse Hexp)
    as (token & Htok & Hrenew).
  exists token. eexists. exists (now + 900 * e).
  split.
  { unfold getAccessToken, bind. rewrite Hvalid. exact Hrenew. }
  cbn [accessToken tokenExpiryTime]. rewrite nine_tenths_exact.
  repeat split; try assumption; try reflexivity; try lia.
  apply expiry_binary64_exact; lia.
Qed.

Lemma renewal_sets_expiry_witness :
  exists token w' expiresAt,
    getAccessToken (scripted [token_granted] [token_document]) initial_world
    = (Normal token, w')
    /\ get (snd token_document) "access_token" = Normal token
    /\ accessToken w' = token
    /\ tokenExpiryTime w' = Num expiresAt
    /\ 10 * (expiresAt - 1001000) = 9 * (3600 * 1000)
    /\ integer_of (expiry_binary64 1001000 3600) = Some expiresAt
    /\ (3600 = 3600 -> expiresAt = 1001000 + 3240000).
Proof.
  exact (renewal_sets_expiry (scripted [token_granted] [token_document])
           initial_world initial_world (snd token_granted) (snd token_document)
           3600 eq_refl eq_refl eq_refl eq_refl eq_refl
           ltac:(lia) ltac:(reflexivity) ltac:(vm_compute; discriminate)
           ltac:(reflexivity)).
Defined.

Example renewal_run :
  getAccessToken (scripted [token_granted] [token_document]) initial_world
  = (Normal (JStr "tok"),
     {| accessToken := JStr "tok";
        tokenExpiryTime := Num 4241000;
        interactions := 2;
        exchanges := [(token_request (scripted [token_granted] [token_document]),
                       Normal (snd token_granted))] |}).
Proof. vm_compute. reflexivity. Qed.

(** ** Limits *)

Lemma search_url_limit (E : Engine) (query limit : JSValue) :
  searchParams_get "limit" (searchParams (search_url E query limit))
  = Some (Number_toString (Math_min (to_number E limit) (Num 50))).
Proof. reflexivity. Qed.





Example searchTracks_default_limit :
  upstream_limit (snd (searchTracks (scripted [] []) (JStr "jazz") JUndefined warm_world))
  = Some "10".
Proof. vm_compute. reflexivity. Qed.

Example searchTracks_negative_limit :
  upstream_limit (snd (searchTracks (scripted [] []) (JStr "jazz") (JNum (Num (-5))) warm_world))
  = Some "-5".
Proof. vm_compute. reflexivity. Qed.

(** ** Seeds of [getRecommendations] *)

Lemma seed_count_arrays (E : Engine) (p : RecommendationParams)
  (ts ars gs : list JSValue) :
  seed_tracks p = JArr ts ->
  seed_artists p = JArr ars ->
  seed_genres p = JArr gs ->
  seed_count E p
  = Normal (JNum (Num (Z.of_nat (List.length ts + List.length ars + List.length gs)))).
Proof.
  intros Ht Ha Hg. unfold seed_count. rewrite Ht, Ha, Hg. cbn.
  do 3 f_equal. lia.
Qed.

Lemma validate_seeds_arrays (E : Engine) (p : RecommendationParams)
  (ts ars gs : list JSValue) :
  seed_tracks p = JArr ts ->
  seed_artists p = JArr ars ->
  seed_genres p = JArr gs ->
  let count := (List.length ts + List.length ars + List.length gs)%nat in
  validate_seeds E p
  = if (count =? 0)%nat
    then Throw (ErrorObject "At least one seed track, artist, or genre is required")
    else if (5 <? count)%nat
         then Throw (ErrorObject
                       "You can only use a total of 5 seeds (tracks, artists, and genres combined)")
         else Normal tt.
Proof.
  intros Ht Ha Hg count. unfold validate_seeds.
  rewrite (seed_count_arrays E p ts ars gs Ht Ha Hg). fold count.
  cbn [and_then strictly_equals].
  unfold gt, greater_than, ToNumber, ToPrimitive, number_gt.
  destruct (Nat.eqb_spec count 0) as [H0|H0].
  - rewrite H0. reflexivity.
  - replace (Z.of_nat count =? 0) with false by (symmetry; apply Z.eqb_neq; lia).
    destruct (Nat.ltb_spec 5 count) as [H5|H5].
    + replace (5 <? Z.of_nat count) with true by (symmetry; apply Z.ltb_lt; lia).
      reflexivity.
    + replace (5 <? Z.of_nat count) with false by (symmetry; apply Z.ltb_ge; lia).
      reflexivity.
Qed.

(** Strings convert to strings. *)
Lemma convertible_strings (l : list JSValue) :
  forallb typeof_string l = true -> forallb convertible l = true.
Proof.
  induction l as [|x l IH]; [reflexivity|].
  destruct x; cbn; try discriminate. exact IH.
Qed.

(** Setting a seed that is an array of convertible values, or a target
    that is a primitive value and not [null], succeeds and keeps the
    address. *)
Lemma set_seed_array (E : Engine) (u : URL) (key callee : string)
  (l : list JSValue) :
  forallb convertible l = true ->
  exists u', set_seed E u key callee (JArr l) = Normal u' /\ href u' = href u.
Proof.
  intros Hl. unfold set_seed.
  cbn [get and_then String.eqb Ascii.eqb Bool.eqb Array_join]. rewrite Hl.
  destruct (gt E _ 0); eexists; (split; reflexivity).
Qed.

Lemma set_target_primitive (u : URL) (key : string) (target : JSValue) :
  primitive target = true ->
  target <> JNull ->
  exists u', set_target u key target = Normal u' /\ href u' = href u.
Proof.
  intros Hprimitive Hnull. unfold set_target.
  destruct target; cbn; try discriminate; try (eexists; (split; reflexivity)).
  now destruct Hnull.
Qed.

Lemma recommendations_url_built (E : Engine) (p : RecommendationParams)
  (ts ars gs : list JSValue) :
  seed_tracks p = JArr ts ->
  seed_artists p = JArr ars ->
  seed_genres p = JArr gs ->
  forallb typeof_string (ts ++ ars ++ gs) = true ->
  primitive (target_energy p) = true -> target_energy p <> JNull ->
  primitive (target_danceability p) = true -> target_danceability p <> JNull ->
  primitive (target_tempo p) = true -> target_tempo p <> JNull ->
  exists u,
    recommendations_url E p = Normal u
    /\ href u = "https://api.spotify.com/v1/recommendations".
Proof.
  intros Ht Ha Hg Hstrings He He' Hd Hd' Hp Hp'.
  rewrite !forallb_app in Hstrings.
  apply andb_prop in Hstrings as [Hts Hstrings].
  apply andb_prop in Hstrings as [Hars Hgs].
  apply convertible_strings in Hts, Hars, Hgs.
  unfold recommendations_url. cbv zeta.
  rewrite Ht, Ha, Hg.
  destruct (set_seed_array E (new_URL "https://api.spotify.com/v1/recommendations")
              "seed_tracks" "seed_tracks" ts Hts) as (u1 & -> & H1).
  cbn [and_then].
  destruct (set_seed_array E u1 "seed_artists" "seed_artists" ars Hars)
    as (u2 & -> & H2).
  cbn [and_then].
  destruct (set_seed_array E u2 "seed_genres" "seed_genres" gs Hgs) as (u3 & -> & H3).
  cbn [and_then].
  match goal with
  | |- context [set_target ?u "target_energy" _] =>
      destruct (set_target_primitive u "target_energy" _ He He') as (u4 & -> & H4)
  end.
  cbn [and_then].
  destruct (set_target_primitive u4 "target_danceability" _ Hd Hd') as (u5 & -> & H5).
  cbn [and_then].
  destruct (set_target_primitive u5 "target_tempo" _ Hp Hp') as (u6 & -> & H6).
  exists u6. split; [reflexivity|].
  rewrite H6, H5, H4. cbn [searchParams_set href]. rewrite H3, H2, H1. reflexivity.
Qed.

(** After the credential fetch, [recommend] sends the recommendations
    request, whatever comes back. *)
Lemma recommend_request (E : Engine) (p : RecommendationParams) (u : URL)
  (token : JSValue) (w w1 : World) :
  recommendations_url E p = Normal u ->
  getAccessToken E w = (Normal token, w1) ->
  exists outcome w2,
    recommend E p w = (outcome, w2)
    /\ sent w2 = bearer_get u token :: sent w1.
Proof.
  intros Hurl Htoken. unfold recommend, bind. rewrite Htoken.
  unfold lift at 1. rewrite Hurl. unfold fetch at 1. cbv beta.
  destruct (network E (interactions w1) _) as [response|e].
  - destruct (ok response); cbn [negb].
    + unfold response_json, lift.
      destruct (JSON_parse E (body response)); eexists; eexists;
        (split; reflexivity).
    + unfold throw. eexists; eexists; (split; reflexivity).
  - eexists; eexists; (split; reflexivity).
Qed.

(** A validation failure of [getRecommendations] on arguments that the
    guard accepts reaches the caller of the gateway as an error envelope
    with the message of the validation, the world untouched. *)
Lemma call_tool_recommendations_rejected (E : Engine) (params : JSValue)
  (message : string) (w : World) :
  isGetRecommendationsArgs params = true ->
  getRecommendations E params w = (Throw (ErrorObject message), w) ->
  call_tool E "spotify_get_recommendations" params w
  = (Normal (text_envelope ("Error: " ++ message) true), w).
Proof.
  intros Hguard Hrun. rewrite call_tool_normal. unfold call_tool_try.
  assert (Hargs : truthy params = true).
  { destruct params; try discriminate Hguard; reflexivity. }
  rewrite Hargs. cbn [negb String.eqb Ascii.eqb Bool.eqb].
  rewrite Hguard. cbn [negb]. rewrite wrap_results, Hrun. reflexivity.
Qed.

(** C5, as stated, fails: six tracks with genres that are an object, not a
    list, pass the type guard; the sum of the three lengths is [NaN],
    which is neither 0 nor above 5, and the request goes out with the six
    seeds. *)
Lemma seed_count_not_a_number :
  isGetRecommendationsArgs six_tracks_and_an_object = true
  /\ combined_seed_count six_tracks_and_an_object = 6%nat
  /\ map (fun request => (href (url request), searchParams (url request)))
       (sent (snd (getRecommendations (scripted [] []) six_tracks_and_an_object
                     warm_world)))
     = [("https://api.spotify.com/v1/recommendations",
         [("seed_tracks", "t1,t2,t3,t4,t5,t6"); ("limit", "20")])]
  /\ ~ (forall (E : Engine) (params : JSValue) (w : World),
          isGetRecommendationsArgs params = true ->
          (combined_seed_count params = 0 \/ 5 < combined_seed_count params)%nat ->
          exists message,
            getRecommendations E params w = (Throw (ErrorObject message), w)).
Proof.
  split; [reflexivity|]. split; [reflexivity|]. split; [vm_compute; reflexivity|].
  intros claim.
  destruct (claim (scripted [] []) six_tracks_and_an_object warm_world eq_refl)
    as [message Hrun].
  - right. cbn. lia.
  - vm_compute in Hrun. discriminate Hrun.
Qed.

(** Five seeds do not always reach the endpoint either: with an energy
    target that is [null] the operation fetches the credential and then
    throws on [target_energy.toString()], before any request. *)
Example five_seeds_null_target_run :
  isGetRecommendationsArgs five_seeds_null_target = true
  /\ combined_seed_count five_seeds_null_target = 5%nat
  /\ getRecommendations (scripted [] []) five_seeds_null_target warm_world
     = (Throw (ErrorObject "Cannot read properties of null (reading 'toString')"),
        {| accessToken := JStr "cached";
           tokenExpiryTime := Num 9000000;
           interactions := 1;
           exchanges := [] |}).
Proof. repeat split. Qed.

(** C5, amended. For every [getRecommendations] invocation whose seed
    arguments are lists (or absent).  When the combined count is 0 the
    operation throws "At least one seed track, artist, or genre is
    required", and when it is above 5 it throws "You can only use a total
    of 5 seeds (tracks, artists, and genres combined)": in both cases the
    world is untouched (no clock reading, no credential renewal, no
    request), and through the gateway the response has [isError = true]
    with "Error: " and that message, the world untouched too.  When the
    count is between 1 and 5, in particular exactly 5, the seeds are
    strings, and the limit and the audio targets are primitive values
    (the targets not [null]), the operation goes on to the credential
    fetch and, once a token is there (a text of visible characters), sends
    a GET with the bearer token to the recommendations endpoint. *)
Theorem getRecommendations_seed_count (E : Engine) (params : JSValue)
  (p : RecommendationParams) (ts ars gs : list JSValue) (w : World) :
  destructure_params params = Normal p ->
  seed_tracks p = JArr ts ->
  seed_artists p = JArr ars ->
  seed_genres p = JArr gs ->
  let count := (List.length ts + List.length ars + List.length gs)%nat in
  (forall message,
      (count = 0%nat
       /\ message = "At least one seed track, artist, or genre is required")
      \/ ((5 < count)%nat
          /\ message
             = "You can only use a total of 5 seeds (tracks, artists, and genres combined)") ->
      getRecommendations E params w = (Throw (ErrorObject message), w)
      /\ (isGetRecommendationsArgs params = true ->
          call_tool E "spotify_get_recommendations" params w
          = (Normal {| content := [{| type_ := "text"; text := "Error: " ++ message |}];
                       isError := true |},
             w)))
  /\ ((1 <= count <= 5)%nat ->
      forallb typeof_string (ts ++ ars ++ gs) = true ->
      primitive (rec_limit p) = true ->
      primitive (target_energy p) = true -> target_energy p <> JNull ->
      primitive (target_danceability p) = true -> target_danceability p <> JNull ->
      primitive (target_tempo p) = true -> target_tempo p <> JNull ->
      forall token w1,
        getAccessToken E w = (Normal (JStr token), w1) ->
        token_text token = true ->
        exists u outcome w2,
          getRecommendations E params w = (outcome, w2)
          /\ href u = "https://api.spotify.com/v1/recommendations"
          /\ sent w2
             = {| url := u;
                  method := "GET";
                  headers := [("Authorization", "Bearer " ++ token)];
                  payload := NoBody |}
               :: sent w1).
Proof.
  intros Hp Ht Ha Hg count.
  pose proof (validate_seeds_arrays E p ts ars gs Ht Ha Hg) as Hvalidate.
  cbv zeta in Hvalidate. fold count in Hvalidate.
  assert (Hrun : getRecommendations E params w
                 = match validate_seeds E p with
                   | Normal _ => recommend E p w
                   | Throw e => (Throw e, w)
                   end).
  { unfold getRecommendations, bind, lift. rewrite Hp.
    destruct (validate_seeds E p); reflexivity. }
  split.
  - intros message Hcount.
    assert (Hthrow : getRecommendations E params w = (Throw (ErrorObject message), w)).
    { rewrite Hrun, Hvalidate.
      destruct Hcount as [[H0 ->]|[H5 ->]].
      - rewrite H0. reflexivity.
      - destruct (Nat.eqb_spec count 0) as [|_]; [lia|].
        apply Nat.ltb_lt in H5. rewrite H5. reflexivity. }
    split; [exact Hthrow|].
    intros Hguard.
    exact (call_tool_recommendations_rejected E params message w Hguard Hthrow).
  - intros Hcount Hstrings _ He He' Hd Hd' Hm Hm' token w1 Htoken _.
    assert (Hpass : getRecommendations E params w = recommend E p w).
    { rewrite Hrun, Hvalidate.
      destruct (Nat.eqb_spec count 0) as [|_]; [lia|].
      destruct (Nat.ltb_spec 5 count) as [|_]; [lia|]. reflexivity. }
    destruct (recommendations_url_built E p ts ars gs Ht Ha Hg Hstrings
                He He' Hd Hd' Hm Hm')
      as (u & Hurl & Hhref).
    destruct (recommend_request E p u (JStr token) w w1 Hurl Htoken)
      as (outcome & w2 & Hrec & Hsent).
    exists u, outcome, w2. rewrite Hpass. auto.
Qed.

Lemma getRecommendations_seed_count_witness :
  getRecommendations (scripted [] []) six_seeds warm_world
  = (Throw (ErrorObject
              "You can only use a total of 5 seeds (tracks, artists, and genres combined)"),
     warm_world)
  /\ exists u outcome w2,
       getRecommendations (scripted [] []) five_seeds warm_world = (outcome, w2)
       /\ href u = "https://api.spotify.com/v1/recommendations"
       /\ sent w2
          = [{| url := u;
                method := "GET";
                headers := [("Authorization", "Bearer cached")];
                payload := NoBody |}].
Proof.
  split.
  - destruct (getRecommendations_seed_count (scripted [] []) six_seeds _
                [JStr "t1"; JStr "t2"; JStr "t3"]
                [JStr "a1"; JStr "a2"; JStr "a3"] [] warm_world
                eq_refl eq_refl eq_refl eq_refl) as [Hrejected _].
    apply Hrejected. right. split; [cbn; lia | reflexivity].
  - destruct (getRecommendations_seed_count (scripted [] []) five_seeds _
                [JStr "t1"; JStr "t2"; JStr "t3"] [JStr "a1"; JStr "a2"] []
                warm_world eq_refl eq_refl eq_refl eq_refl) as [_ Hpassed].
    apply (Hpassed ltac:(cbn; lia) eq_refl eq_refl eq_refl ltac:(discriminate)
             eq_refl ltac:(discriminate) eq_refl ltac:(discriminate)
             "cached" _ eq_refl eq_refl).
Defined.

Example five_seeds_request :
  let E := scripted [] [] in
  map (fun request => (href (url request), searchParams (url request)))
    (sent (snd (getRecommendations E five_seeds warm_world)))
  = [("https://api.spotify.com/v1/recommendations",
      [("seed_tracks", "t1,t2,t3"); ("seed_artists", "a1,a2"); ("limit", "20")])].
Proof. vm_compute. reflexivity. Qed.

Example no_seeds_rejected :
  let E := scripted [] [] in
  call_tool E "spotify_get_recommendations" (JObj [("seed_genres", JArr [])]) warm_world
  = (Normal (text_envelope
               "Error: At least one seed track, artist, or genre is required" true),
     warm_world).
Proof. vm_compute. reflexivity. Qed.

(** The three steps of [getRecommendations]: destructuring, validation,
    and the rest. *)
Lemma getRecommendations_steps (E : Engine) (params : JSValue) (w : World) :
  getRecommendations E params w
  = match destructure_params params with
    | Throw e => (Throw e, w)
    | Normal p =>
        match validate_seeds E p with
        | Throw e => (Throw e, w)
        | Normal _ => recommend E p w
        end
    end.
Proof.
  unfold getRecommendations, bind, lift.
  destruct (destructure_params params) as [p|e]; [|reflexivity].
  destruct (validate_seeds E p); reflexivity.
Qed.

(** ** The frame of the credential pair *)

Create HintDb frame discriminated.

Lemma keeps_ret {A : Type} (a : A) : keeps_credential (ret a).
Proof. intros w. reflexivity. Qed.

Lemma keeps_throw {A : Type} (e : Thrown) : keeps_credential (@throw A e).
Proof. intros w. reflexivity. Qed.

Lemma keeps_lift {A : Type} (c : Completion A) : keeps_credential (lift c).
Proof. intros w. reflexivity. Qed.

Lemma keeps_fetch (E : Engine) (r : Request) : keeps_credential (fetch E r).
Proof. intros w. reflexivity. Qed.

Lemma keeps_Date_now (E : Engine) : keeps_credential (Date_now E).
Proof. intros w. reflexivity. Qed.

Lemma keeps_response_json (E : Engine) (r : Response) :
  keeps_credential (response_json E r).
Proof. intros w. reflexivity. Qed.

Lemma keeps_if {A : Type} (b : bool) (c1 c2 : M A) :
  keeps_credential c1 -> keeps_credential c2 ->
  keeps_credential (if b then c1 else c2).
Proof. destruct b; auto. Qed.

(** After a [bind], the credential pair is the one its first part left,
    when the continuation keeps it. *)
Lemma bind_frame {A B : Type} (c : M A) (k : A -> M B) (w : World) :
  (forall a, keeps_credential (k a)) ->
  credential (snd (bind c k w)) = credential (snd (c w)).
Proof.
  intros Hk. unfold bind.
  destruct (c w) as [[a|e] w1]; [apply Hk | reflexivity].
Qed.

Lemma keeps_bind {A B : Type} (c : M A) (k : A -> M B) :
  keeps_credential c -> (forall a, keeps_credential (k a)) ->
  keeps_credential (bind c k).
Proof.
  intros Hc Hk w. rewrite bind_frame by exact Hk. apply Hc.
Qed.

#[local] Hint Resolve keeps_ret keeps_throw keeps_lift keeps_fetch keeps_Date_now
  keeps_response_json keeps_if keeps_bind : frame.

(** Every remote operation leaves the credential pair as its credential
    fetch left it; [getRecommendations] may stop before, the world
    untouched. *)
Lemma run_frame (E : Engine) (o : Operation) (w : World) :
  credential (snd (run E o w)) = credential (snd (getAccessToken E w))
  \/ snd (run E o w) = w.
Proof.
  destruct o; cbn [run].
  - left. unfold searchTracks. cbv zeta. apply bind_frame. auto 10 with frame.
  - rewrite getRecommendations_steps.
    destruct (destructure_params params) as [p|e]; [|right; reflexivity].
    destruct (validate_seeds E p) as [[]|e]; [|right; reflexivity].
    left. unfold recommend. apply bind_frame. auto 10 with frame.
  - left. unfold createPlaylist. cbv zeta. apply bind_frame. auto 20 with frame.
  - left. unfold addTracksToPlaylist. cbv zeta. apply bind_frame.
    auto 10 with frame.
  - left. unfold getUserPlaylists. cbv zeta. apply bind_frame. auto 10 with frame.
  - left. unfold getPlaylistTracks. cbv zeta. apply bind_frame. auto 20 with frame.
Qed.

(** A failed renewal exchange keeps the credential pair: on a response
    that is not [ok], and on an [ok] response whose body does not parse. *)
Lemma renew_not_ok (E : Engine) (w : World) (r : Response) :
  network E (interactions w) (token_request E) = Normal r ->
  ok r = false ->
  exists w',
    renew E w = (Throw (token_error r), w')
    /\ credential w' = credential w
    /\ exchanges w' = (token_request E, Normal r) :: exchanges w.
Proof.
  intros Hnet Hok.
  unfold renew, try_catch, bind, fetch, throw. rewrite Hnet, Hok. cbn [negb].
  eexists. repeat split.
Qed.

Lemma renew_unparsable (E : Engine) (w : World) (r : Response) (e : Thrown) :
  network E (interactions w) (token_request E) = Normal r ->
  ok r = true ->
  JSON_parse E (body r) = Throw e ->
  exists w',
    renew E w = (Throw e, w')
    /\ credential w' = credential w.
Proof.
  intros Hnet Hok Hparse.
  unfold renew, try_catch, bind, fetch, throw, lift.
  rewrite Hnet, Hok. cbn [negb]. rewrite Hparse.
  eexists. repeat split.
Qed.

(** A valid cached token: the credential fetch changes nothing of the
    pair. *)
Lemma getAccessToken_valid_frame (E : Engine) (w w0 : World) :
  token_still_valid E w = (Normal true, w0) ->
  credential (snd (getAccessToken E w)) = credential w.
Proof.
  intros Hvalid.
  destruct (token_still_valid_frame E w) as (valid & w1 & Hrun & Hcred & _).
  rewrite Hvalid in Hrun. inversion Hrun; subst.
  unfold getAccessToken, bind. rewrite Hvalid. exact Hcred.
Qed.

(** ** Upstream failures *)

Create HintDb failure discriminated.

Lemma offline_ret {A : Type} (a : A) : offline (ret a).
Proof. intros w. reflexivity. Qed.

Lemma offline_throw {A : Type} (e : Thrown) : offline (@throw A e).
Proof. intros w. reflexivity. Qed.

Lemma offline_lift {A : Type} (c : Completion A) : offline (lift c).
Proof. intros w. reflexivity. Qed.

Lemma offline_response_json (E : Engine) (r : Response) :
  offline (response_json E r).
Proof. intros w. reflexivity. Qed.

Lemma offline_token_still_valid (E : Engine) : offline (token_still_valid E).
Proof.
  intros w. destruct (token_still_valid_frame E w) as (valid & w' & -> & _ & H).
  exact H.
Qed.

Lemma offline_read_accessToken : offline read_accessToken.
Proof. intros w. reflexivity. Qed.

Lemma reports_offline {A : Type} (c : M A) : offline c -> reports_failure c.
Proof.
  intros Hc w outcome w' Hrun. exists [].
  specialize (Hc w). rewrite Hrun in Hc. split; [exact Hc|].
  intros request r [].
Qed.

Lemma reports_if {A : Type} (b : bool) (c1 c2 : M A) :
  reports_failure c1 -> reports_failure c2 ->
  reports_failure (if b then c1 else c2).
Proof. destruct b; auto. Qed.

Lemma reports_bind {A B : Type} (c : M A) (k : A -> M B) :
  reports_failure c -> (forall a, reports_failure (k a)) ->
  reports_failure (bind c k).
Proof.
  intros Hc Hk w outcome w' Hrun. unfold bind in Hrun.
  destruct (c w) as [[a|e] w1] eqn:Hcw.
  - destruct (Hc w _ _ Hcw) as (received1 & Hlog1 & Hreport1).
    destruct (Hk a w1 _ _ Hrun) as (received2 & Hlog2 & Hreport2).
    exists (received2 ++ received1)%list. split.
    + rewrite Hlog2, Hlog1. apply app_assoc.
    + intros request r Hin Hok. apply in_app_or in Hin as [Hin|Hin].
      * exact (Hreport2 request r Hin Hok).
      * destruct (Hreport1 request r Hin Hok) as (message & Habsurd & _).
        discriminate Habsurd.
  - inversion Hrun; subst.
    destruct (Hc w _ _ Hcw) as (received & Hlog & Hreport).
    exists received. split; [exact Hlog|].
    intros request r Hin Hok.
    destruct (Hreport request r Hin Hok) as (message & [= ->] & Hstatus).
    exists message. split; [reflexivity | exact Hstatus].
Qed.

Lemma api_error_carries_status (r : Response) :
  carries_status r (error_text (api_error r)).
Proof. eexists; eexists; reflexivity. Qed.

Lemma token_error_carries_status (r : Response) :
  carries_status r (error_text (token_error r))
  /\ carries_body r (error_text (token_error r)).
Proof.
  split.
  - eexists; eexists; reflexivity.
  - exists ("Failed to get access token: "
            ++ Number_toString (Num (status r)) ++ " " ++ statusText r ++ LF).
    cbn [error_text token_error body].
    rewrite !append_assoc. reflexivity.
Qed.

(** A request followed by the test of [response.ok]. *)
Lemma reports_fetch_checked {A : Type} (E : Engine) (request : Request)
  (k : Response -> M A) :
  (forall response, reports_failure (k response)) ->
  reports_failure
    (response <- fetch E request ;;
     if negb (ok response) then throw (api_error response) else k response).
Proof.
  intros Hk w outcome w' Hrun. unfold bind, fetch in Hrun. cbv beta in Hrun.
  destruct (network E (interactions w) request) as [r|e] eqn:Hnet.
  - destruct (ok r) eqn:Hok; cbn [negb] in Hrun.
    + destruct (Hk r _ _ _ Hrun) as (received & Hlog & Hreport).
      exists (received ++ [(request, Normal r)])%list. split.
      * rewrite Hlog. cbn [exchanges]. rewrite <- app_assoc. reflexivity.
      * intros request' r' Hin Hok'. apply in_app_or in Hin as [Hin|[Heq|[]]].
        -- exact (Hreport request' r' Hin Hok').
        -- inversion Heq; subst. congruence.
    + unfold throw in Hrun. inversion Hrun; subst.
      exists [(request, Normal r)]. split; [reflexivity|].
      intros request' r' [Heq|[]] _. inversion Heq; subst.
      exists (error_text (api_error r')). split; [reflexivity|].
      apply api_error_carries_status.
  - inversion Hrun; subst. exists [(request, Throw e)]. split; [reflexivity|].
    intros request' r' [Heq|[]]. discriminate Heq.
Qed.

(** The renewal exchange reports a response that is not [ok]. *)
Lemma reports_renew (E : Engine) : reports_failure (renew E).
Proof.
  intros w outcome w' Hrun.
  unfold renew, try_catch, bind, fetch in Hrun. cbv beta in Hrun.
  destruct (network E (interactions w) (token_request E)) as [r|e] eqn:Hnet.
  - destruct (ok r) eqn:Hok; cbn [negb] in Hrun.
    + assert (Hlog : exchanges w' = (token_request E, Normal r) :: exchanges w).
      { unfold lift, write_accessToken, write_tokenExpiryTime, read_accessToken,
          Date_now, throw in Hrun.
        destruct (JSON_parse E (body r)) as [data|e]; [|inversion Hrun; reflexivity].
        destruct (get data "access_token"); [|inversion Hrun; reflexivity].
        cbn in Hrun.
        destruct (get data "expires_in"); inversion Hrun; reflexivity. }
      exists [(token_request E, Normal r)]. split; [exact Hlog|].
      intros request' r' [Heq|[]] Hok'. inversion Heq; subst. congruence.
    + unfold throw in Hrun. inversion Hrun; subst.
      exists [(token_request E, Normal r)]. split; [reflexivity|].
      intros request' r' [Heq|[]] _. inversion Heq; subst.
      exists (error_text (token_error r')). split; [reflexivity|].
      apply token_error_carries_status.
  - unfold throw in Hrun. inversion Hrun; subst.
    exists [(token_request E, Throw e)]. split; [reflexivity|].
    intros request' r' [Heq|[]]. discriminate Heq.
Qed.

#[local] Hint Resolve offline_ret offline_throw offline_lift offline_response_json
  offline_token_still_valid offline_read_accessToken : failure.
#[local] Hint Resolve reports_offline reports_if reports_fetch_checked reports_renew
  reports_bind : failure.

Lemma reports_getAccessToken (E : Engine) : reports_failure (getAccessToken E).
Proof. unfold getAccessToken. auto 10 with failure. Qed.

#[local] Hint Resolve reports_getAccessToken : failure.

(** Every remote operation reports a response that is not [ok]. *)
Lemma reports_run (E : Engine) (o : Operation) : reports_failure (run E o).
Proof.
  destruct o; cbn [run].
  - unfold searchTracks. cbv zeta. auto 10 with failure.
  - unfold getRecommendations, recommend. auto 10 with failure.
  - unfold createPlaylist. cbv zeta. auto 20 with failure.
  - unfold addTracksToPlaylist. cbv zeta. auto 10 with failure.
  - unfold getUserPlaylists. cbv zeta. auto 10 with failure.
  - unfold getPlaylistTracks. cbv zeta. auto 20 with failure.
Qed.

(** C7, as stated, fails: starting with no cached token, [searchTracks]
    first renews the credential and then receives a 401; the error is
    raised, but the credential pair is the renewed one, not the one from
    before the call. *)
Lemma upstream_failure_after_renewal :
  ~ (forall (E : Engine) (o : Operation) (w : World) (outcome : Completion string)
       (w' : World) (received : list (Request * Completion Response))
       (request : Request) (r : Response),
        run E o w = (outcome, w') ->
        exchanges w' = (received ++ exchanges w)%list ->
        In (request, Normal r) received ->
        ok r = false ->
        credential w' = credential w).
Proof.
  intros claim.
  pose (E := scripted [token_granted; search_unauthorized] [token_document]).
  pose (o := SearchTracks (JStr "jazz") JUndefined).
  specialize (claim E o initial_world (fst (run E o initial_world))
                (snd (run E o initial_world))
                (exchanges (snd (run E o initial_world)))
                (bearer_get (search_url E (JStr "jazz") (JNum (Num 10))) (JStr "tok"))
                (snd search_unauthorized)).
  subst E o. vm_compute in claim.
  specialize (claim eq_refl eq_refl (or_introl eq_refl) eq_refl).
  discriminate claim.
Qed.

Example search_after_renewal_401 :
  let E := scripted [token_granted; search_unauthorized] [token_document] in
  let '(outcome, w') := searchTracks E (JStr "jazz") JUndefined initial_world in
  outcome = Throw (api_error (snd search_unauthorized))
  /\ credential w' = (JStr "tok", Num 4241000)
  /\ credential initial_world = (JStr EmptyString, Num 0).
Proof. vm_compute. repeat split. Qed.

(** A 200 answer of the token endpoint whose body is not JSON: the error
    is the parser's, which says nothing of the status. *)
Example renewal_garbled_body :
  let E := scripted [token_garbled] [] in
  getAccessToken E initial_world
  = (Throw (ErrorObject "Unexpected end of JSON input"),
     {| accessToken := JStr EmptyString;
        tokenExpiryTime := Num 0;
        interactions := 1;
        exchanges := [(token_request E, Normal (snd token_garbled))] |}).
Proof. vm_compute. reflexivity. Qed.

(** A 200 answer whose body is the empty JSON object: nothing is thrown,
    and the credential pair becomes [undefined] and [NaN]. *)
Example renewal_hollow_body :
  let E := scripted [token_hollow] [hollow_document] in
  let '(outcome, w') := getAccessToken E initial_world in
  outcome = Normal JUndefined /\ credential w' = (JUndefined, NaN).
Proof. vm_compute. split; reflexivity. Qed.

(** C7, amended.  For every remote operation that receives a non-2xx
    response, at whichever of its exchanges with the network, an error is
    raised whose message carries the upstream status code, and the
    credential pair is exactly as the operation's own credential fetch
    left it; it is the pair from before the call whenever the cached token
    was still valid.  A renewal exchange answered with a non-2xx status
    raises an error carrying the upstream status and body and leaves the
    cached token and expiry unchanged; a renewal answered 2xx with a body
    that does not parse raises the parser's error and leaves them
    unchanged too. *)
Theorem upstream_failure_frame (E : Engine) :
  (forall (o : Operation) (w : World) (outcome : Completion string) (w' : World)
      (received : list (Request * Completion Response))
      (request : Request) (r : Response),
      run E o w = (outcome, w') ->
      exchanges w' = (received ++ exchanges w)%list ->
      In (request, Normal r) received ->
      ok r = false ->
      (exists message,
          outcome = Throw (ErrorObject message) /\ carries_status r message)
      /\ credential w' = credential (snd (getAccessToken E w))
      /\ (forall w0,
             token_still_valid E w = (Normal true, w0) ->
             credential w' = credential w))
  /\ (forall (w : World) (r : Response),
         network E (interactions w) (token_request E) = Normal r ->
         ok r = false ->
         exists w',
           renew E w = (Throw (token_error r), w')
           /\ carries_status r (error_text (token_error r))
           /\ carries_body r (error_text (token_error r))
           /\ credential w' = credential w)
  /\ (forall (w : World) (r : Response) (e : Thrown),
         network E (interactions w) (token_request E) = Normal r ->
         ok r = true ->
         JSON_parse E (body r) = Throw e ->
         exists w',
           renew E w = (Throw e, w') /\ credential w' = credential w).
Proof.
  split; [|split].
  - intros o w outcome w' received request r Hrun Hlog Hin Hok.
    assert (Hframe : credential w' = credential (snd (getAccessToken E w))).
    { destruct (run_frame E o w) as [H|H]; rewrite Hrun in H; cbn [snd] in H.
      - exact H.
      - subst w'.
        assert (Hnone : received = []).
        { apply (app_inv_tail (exchanges w)). symmetry. exact Hlog. }
        subst received. destruct Hin. }
    split; [|split].
    + destruct (reports_run E o w outcome w' Hrun) as (received' & Hlog' & Hreport).
      assert (Hsame : received' = received).
      { apply (app_inv_tail (exchanges w)). congruence. }
      subst received'. exact (Hreport request r Hin Hok).
    + exact Hframe.
    + intros w0 Hvalid. rewrite Hframe.
      exact (getAccessToken_valid_frame E w w0 Hvalid).
  - intros w r Hnet Hok.
    destruct (renew_not_ok E w r Hnet Hok) as (w' & Hrun & Hcred & _).
    destruct (token_error_carries_status r) as [Hstatus Hbody].
    exists w'. auto.
  - intros w r e Hnet Hok Hparse.
    exact (renew_unparsable E w r e Hnet Hok Hparse).
Qed.

Lemma upstream_failure_frame_witness :
  let E := scripted [search_unauthorized] [] in
  let run_result := run E (SearchTracks (JStr "jazz") JUndefined) warm_world in
  (exists message,
      fst run_result = Throw (ErrorObject message)
      /\ carries_status (snd search_unauthorized) message)
  /\ credential (snd run_result) = credential warm_world.
Proof.
  intros E run_result.
  destruct (proj1 (upstream_failure_frame E)
              (SearchTracks (JStr "jazz") JUndefined) warm_world
              (fst run_result) (snd run_result)
              (exchanges (snd run_result))
              (bearer_get (search_url E (JStr "jazz") (JNum (Num 10))) (JStr "cached"))
              (snd search_unauthorized) eq_refl eq_refl
              (or_introl eq_refl) eq_refl)
    as (Herror & _ & Hvalid).
  split; [exact Herror|].
  exact (Hvalid _ eq_refl).
Defined.

(** ** The header of [getPlaylistTracks] *)

(** With an integer offset and a count, the two bounds of the header are
    [offset + 1] and [offset + count]. *)
Lemma tracks_header_bounds (E : Engine) (name total : JSValue) (offset count : Z) :
  tracks_header E name (JNum (Num offset)) (JNum (Num count)) total
  = "Tracks in " ++ DQ ++ ToString name ++ DQ ++ " (showing "
    ++ Number_toString (Num (offset + 1)) ++ "-"
    ++ Number_toString (Num (offset + count)) ++ " of " ++ ToString total ++ ")".
Proof. reflexivity. Qed.

(** On a page whose items are a non-empty array, a result that is
    returned begins with the header built from the playlist's [name], the
    offset, the number of items, and the property [total] of the playlist
    metadata. *)
Lemma playlist_tracks_result_header (E : Engine) (offset playlistData data : JSValue)
  (items : list JSValue) (result : string) :
  get data "items" = Normal (JArr items) ->
  items <> [] ->
  playlist_tracks_result E offset playlistData data = Normal result ->
  exists name total,
    get playlistData "name" = Normal name
    /\ get playlistData "total" = Normal total
    /\ prefix (tracks_header E name offset
                 (JNum (Num (Z.of_nat (List.length items)))) total)
         result = true.
Proof.
  intros Hitems Hnonempty. unfold playlist_tracks_result.
  rewrite Hitems. cbn [and_then truthy negb get String.eqb Ascii.eqb Bool.eqb].
  replace (strictly_equals (JNum (Num (Z.of_nat (List.length items)))) 0) with false.
  2:{ symmetry. apply Z.eqb_neq. destruct items; [now destruct Hnonempty | cbn; lia]. }
  destruct (Array_map "data.items" (JArr items) (playlist_track_entry E offset))
    as [entries|e]; cbn [and_then]; [|discriminate].
  destruct (get playlistData "name") as [name|e]; cbn [and_then]; [|discriminate].
  destruct (get playlistData "total") as [total|e]; cbn [and_then]; [|discriminate].
  intros [= <-]. exists name, total. repeat split.
  apply prefix_append.
Qed.

(** C8, on the code: the playlist metadata reports 42 tracks under
    [tracks.total], the page holds one item, and the header reads
    "showing 1-1 of undefined": line 363 reads [playlistData.total], a
    property the playlist object does not have, so N is not the
    playlist's track count. *)
Theorem getPlaylistTracks_total_undefined :
  let E := scripted [playlist_found; page_found] [playlist_document; page_document] in
  exists result w',
    getPlaylistTracks E (JStr "P") JUndefined JUndefined warm_world
    = (Normal result, w')
    /\ prefix ("Tracks in " ++ DQ ++ "Mix" ++ DQ ++ " (showing 1-1 of undefined):")
         result = true
    /\ playlist_track_total (snd playlist_document) = Normal (JNum (Num 42))
    /\ prefix ("Tracks in " ++ DQ ++ "Mix" ++ DQ ++ " (showing 1-1 of 42)")
         result = false.
Proof.
  intros E. subst E. eexists. eexists. split; [vm_compute; reflexivity|].
  repeat split.
Qed.

(** * Part III: the rest of the program *)

(** ** Slices of strings *)

Lemma length_append (a b : string) :
  String.length (a ++ b) = (String.length a + String.length b)%nat.
Proof. induction a as [|x a IH]; cbn; [reflexivity | now rewrite IH]. Qed.

Lemma substring_whole (s : string) : substring 0 (String.length s) s = s.
Proof. induction s as [|x s IH]; cbn; [reflexivity | now rewrite IH]. Qed.

Lemma substring_head (a r : string) : substring 0 (String.length a) (a ++ r) = a.
Proof.
  induction a as [|x a IH]; cbn.
  - now destruct r.
  - now rewrite IH.
Qed.

Lemma substring_tail (a z : string) :
  substring (String.length a) (String.length z) (a ++ z) = z.
Proof.
  induction a as [|x a IH]; cbn; [apply substring_whole | exact IH].
Qed.

Lemma length_substring_le (n m : nat) (s : string) :
  (String.length (substring n m s) <= m)%nat.
Proof.
  revert n m. induction s as [|x s IH]; intros [|n] [|m]; cbn; try lia.
  - specialize (IH 0%nat m). lia.
  - apply (IH n 0%nat).
  - apply (IH n (S m)).
Qed.

(** The one-character substring at an index is the character there. *)
Lemma substring_one (n : nat) (s : string) :
  substring n 1 s
  = match String.get n s with
    | Some a => String a EmptyString
    | None => EmptyString
    end.
Proof.
  revert n. induction s as [|x s IH]; intros [|n]; cbn; try reflexivity.
  - now destruct s.
  - apply IH.
Qed.

Lemma prefix_one (c : ascii) (v : string) :
  prefix (String c EmptyString) v
  = match first_char v with
    | Some a => Ascii.eqb a c
    | None => false
    end.
Proof.
  destruct v as [|b v]; cbn; [reflexivity|].
  destruct (ascii_dec c b) as [->|Hne].
  - rewrite Ascii.eqb_refl. now destruct v.
  - symmetry. apply Ascii.eqb_neq. congruence.
Qed.

Lemma endsWith_one (c : ascii) (v : string) :
  endsWith (String c EmptyString) v
  = match last_char v with
    | Some a => Ascii.eqb a c
    | None => false
    end.
Proof.
  unfold endsWith, last_char. cbn [String.length].
  rewrite substring_one.
  destruct v as [|b v].
  - reflexivity.
  - replace (1 <=? String.length (String b v))%nat with true
      by (symmetry; apply Nat.leb_le; cbn; lia).
    cbn [andb].
    destruct (String.get (String.length (String b v) - 1) (String b v)) as [a|].
    + cbn. destruct (Ascii.eqb a c); reflexivity.
    + reflexivity.
Qed.

(** The test of [validateEnvVar], read on the first and on the last
    character. *)
Lemma quoted_or_padded_ends (value : string) :
  quoted_or_padded value
  = is_quote_or_space (first_char value) || is_quote_or_space (last_char value).
Proof.
  unfold quoted_or_padded, DQ. rewrite !prefix_one, !endsWith_one.
  unfold is_quote_or_space.
  destruct (first_char value) as [a|], (last_char value) as [b|]; cbn;
    repeat match goal with
           | |- context [Ascii.eqb ?x ?y] => destruct (Ascii.eqb x y)
           end; reflexivity.
Qed.

(** ** Redaction in the diagnostics *)

(** X1. The redaction of a secret of more than eight characters is its
    first three characters, three dots and its last three characters: what
    stands between them has no influence. *)
Theorem redactMiddle_hides_middle (a middle z : string) :
  String.length a = 3%nat ->
  String.length z = 3%nat ->
  (3 <= String.length middle)%nat ->
  redactMiddle (Some (a ++ middle ++ z)) = a ++ "..." ++ z.
Proof.
  intros Ha Hz Hmiddle.
  unfold redactMiddle.
  assert (Hlen : String.length (a ++ middle ++ z)
                 = (String.length middle + 6)%nat)
    by (rewrite !length_append; lia).
  destruct (String.eqb_spec (a ++ middle ++ z) EmptyString) as [Hempty|_].
  { rewrite Hempty in Hlen. cbn in Hlen. lia. }
  replace (String.length (a ++ middle ++ z) <=? 8)%nat with false
    by (symmetry; apply Nat.leb_gt; lia).
  unfold slice, slice_index. rewrite Hlen. cbn [Z.ltb Z.compare].
  replace (Nat.min (Z.to_nat 0) (String.length middle + 6)) with 0%nat by lia.
  replace (Nat.min (Z.to_nat 3) (String.length middle + 6)) with 3%nat by lia.
  replace (Z.of_nat (String.length middle + 6) + -3 <? 0) with false
    by (symmetry; apply Z.ltb_ge; lia).
  replace (Z.to_nat (Z.max (Z.of_nat (String.length middle + 6) + -3) 0))
    with (String.length (a ++ middle)) by (rewrite length_append; lia).
  replace (String.length middle + 6 - String.length (a ++ middle))%nat
    with (String.length z) by (rewrite length_append; lia).
  replace (3 - 0)%nat with (String.length a) by lia.
  rewrite substring_head.
  rewrite <- (append_assoc a middle z), substring_tail. reflexivity.
Qed.

Lemma redactMiddle_hides_middle_witness :
  redactMiddle (Some "0123456789abcdef") = "012...def".
Proof.
  exact (redactMiddle_hides_middle "012" "3456789abc" "def"
           eq_refl eq_refl ltac:(cbn; lia)).
Defined.

(** X2. Whatever the value (absent, empty, short or long), its redaction
    has at most nine characters. *)
Theorem redactMiddle_at_most_nine (str : option string) :
  (String.length (redactMiddle str) <= 9)%nat.
Proof.
  unfold redactMiddle. destruct str as [s|]; [|cbn; lia].
  destruct (String.eqb s EmptyString); [cbn; lia|].
  destruct (String.length s <=? 8)%nat; rewrite !length_append;
    unfold slice;
    repeat match goal with
           | |- context [String.length (substring ?n ?m s)] =>
               let H := fresh in
               pose proof (length_substring_le n m s) as H;
               generalize dependent (String.length (substring n m s)); intros
           end;
    unfold slice_index in *; cbn in *; lia.
Qed.

Example redactMiddle_short : redactMiddle (Some "secret") = "se******".
Proof. reflexivity. Qed.

Example redactMiddle_undefined : redactMiddle None = "undefined".
Proof. reflexivity. Qed.

(** ** Start-up *)

Lemma validateEnvVar_passes (E : Engine) (name : string) :
  fst (validateEnvVar E name) = true
  <-> exists value, env_value E name = Some value /\ value <> EmptyString.
Proof.
  unfold validateEnvVar.
  destruct (env_value E name) as [value|].
  - destruct (String.eqb_spec value EmptyString) as [->|Hne].
    + cbn. split; [discriminate|]. intros (v & [= <-] & H). now destruct H.
    + destruct (quoted_or_padded value); cbn; (split; [eauto | reflexivity]).
  - cbn. split; [discriminate|]. intros (v & [=] & _).
Qed.

Lemma validateEnvVar_fails (E : Engine) (name : string) :
  fst (validateEnvVar E name) = false ->
  snd (validateEnvVar E name)
  = ["Error: " ++ name ++ " environment variable is required but not set"].
Proof.
  unfold validateEnvVar. destruct (env_value E name) as [value|]; [|reflexivity].
  destruct (String.eqb value EmptyString); [reflexivity|].
  destruct (quoted_or_padded value); discriminate.
Qed.

(** X3. [validateEnvVar] fails exactly when the variable is absent or
    empty, and then writes one line.  A value that starts or ends with a
    quote or a space still passes, with a three-line warning that shows
    the value; any other non-empty value passes silently. *)
Theorem validateEnvVar_spec (E : Engine) (name : string) :
  (fst (validateEnvVar E name) = true
   <-> exists value, env_value E name = Some value /\ value <> EmptyString)
  /\ (fst (validateEnvVar E name) = false ->
      snd (validateEnvVar E name)
      = ["Error: " ++ name ++ " environment variable is required but not set"])
  /\ (forall value,
         env_value E name = Some value ->
         value <> EmptyString ->
         if is_quote_or_space (first_char value)
            || is_quote_or_space (last_char value)
         then List.length (snd (validateEnvVar E name)) = 3%nat
              /\ In ("Current value (shown with quotes): " ++ DQ ++ value ++ DQ)
                   (snd (validateEnvVar E name))
         else snd (validateEnvVar E name) = []).
Proof.
  split; [apply validateEnvVar_passes|]. split.
  - apply validateEnvVar_fails.
  - intros value Hvalue Hne. unfold validateEnvVar. rewrite Hvalue.
    apply String.eqb_neq in Hne. rewrite Hne.
    rewrite <- quoted_or_padded_ends.
    destruct (quoted_or_padded value); cbn; auto.
Qed.

(** The conjunction of the three validations. *)
Lemma startup_serves (E : Engine) :
  (exists log, startup E = Serves log)
  <-> fst (validateEnvVar E "SPOTIFY_CLIENT_ID") = true
      /\ fst (validateEnvVar E "SPOTIFY_CLIENT_SECRET") = true
      /\ fst (validateEnvVar E "SPOTIFY_REFRESH_TOKEN") = true.
Proof.
  unfold startup, and_also. cbv zeta.
  destruct (validateEnvVar E "SPOTIFY_CLIENT_ID") as [[|] log1];
    destruct (validateEnvVar E "SPOTIFY_CLIENT_SECRET") as [[|] log2];
    destruct (validateEnvVar E "SPOTIFY_REFRESH_TOKEN") as [[|] log3];
    cbn; split;
    try (intros (log & [=])); try (intros (H1 & H2 & H3); discriminate);
    eauto.
Qed.

(** X4. The entry point sets the server up exactly when the three
    variables are present and non-empty; otherwise the process exits with
    status 1.  The validations stop at the first failure: when the client
    id is missing, nothing is said of the two other variables. *)
Theorem startup_spec (E : Engine) :
  ((exists log, startup E = Serves log)
   <-> forall name,
         In name ["SPOTIFY_CLIENT_ID"; "SPOTIFY_CLIENT_SECRET"; "SPOTIFY_REFRESH_TOKEN"] ->
         exists value, env_value E name = Some value /\ value <> EmptyString)
  /\ (forall code log, startup E = Exits code log -> code = 1)
  /\ (fst (validateEnvVar E "SPOTIFY_CLIENT_ID") = false ->
      startup E
      = Exits 1
          ["Error: SPOTIFY_CLIENT_ID environment variable is required but not set";
           "Error: Required environment variables are missing. Please set SPOTIFY_CLIENT_ID, SPOTIFY_CLIENT_SECRET, and SPOTIFY_REFRESH_TOKEN"]).
Proof.
  split; [|split].
  - rewrite startup_serves, !validateEnvVar_passes. split.
    + intros (H1 & H2 & H3) name [<-|[<-|[<-|[]]]]; assumption.
    + intros H. repeat split; apply H; cbn; auto.
  - intros code log. unfold startup. cbv zeta.
    destruct (negb _); intros [=]; congruence.
  - intros Hid. unfold startup, and_also. cbv zeta.
    pose proof (validateEnvVar_fails E "SPOTIFY_CLIENT_ID" Hid) as Hline.
    destruct (validateEnvVar E "SPOTIFY_CLIENT_ID") as [passed log].
    cbn [fst snd] in *. subst passed log. reflexivity.
Qed.

Example startup_quoted_id :
  startup (with_environment quoted_environment (scripted [] []))
  = Serves
      ["Warning: SPOTIFY_CLIENT_ID contains quotes or extra whitespace which may cause authentication issues";
       "Current value (shown with quotes): " ++ DQ ++ DQ ++ "abc123" ++ DQ ++ DQ;
       "Try removing quotes/spaces if you're having authentication problems";
       "Environment variables validated. Starting server..."].
Proof. vm_compute. reflexivity. Qed.

Example startup_missing_id :
  exists log, startup (with_environment missing_id_environment (scripted [] []))
              = Exits 1 log /\ List.length log = 2%nat.
Proof. eexists. vm_compute. split; reflexivity. Qed.

(** X5. Once the entry point has set the server up, the renewal request
    is built from the three validated values: basic authorization on
    "id:secret" and the refresh token in the form; none of them is
    [undefined] or empty. *)
Theorem served_token_request (E : Engine) (log : list string) :
  startup E = Serves log ->
  exists clientId clientSecret refreshToken,
    clientId <> EmptyString
    /\ clientSecret <> EmptyString
    /\ refreshToken <> EmptyString
    /\ env_value E "SPOTIFY_CLIENT_ID" = Some clientId
    /\ env_value E "SPOTIFY_CLIENT_SECRET" = Some clientSecret
    /\ env_value E "SPOTIFY_REFRESH_TOKEN" = Some refreshToken
    /\ token_request E
       = {| url := new_URL "https://accounts.spotify.com/api/token";
            method := "POST";
            headers :=
              [("Content-Type", "application/x-www-form-urlencoded");
               ("Authorization",
                "Basic " ++ base64 E (clientId ++ ":" ++ clientSecret))];
            payload := FormBody [("grant_type", "refresh_token");
                                 ("refresh_token", refreshToken)] |}.
Proof.
  intros Hserves.
  destruct (proj1 (startup_serves E) (ex_intro _ log Hserves)) as (H1 & H2 & H3).
  apply validateEnvVar_passes in H1, H2, H3.
  destruct H1 as (clientId & Hid & Hid_ne).
  destruct H2 as (clientSecret & Hsecret & Hsecret_ne).
  destruct H3 as (refreshToken & Hrefresh & Hrefresh_ne).
  exists clientId, clientSecret, refreshToken.
  repeat (split; [assumption|]).
  unfold env_value in Hid, Hsecret, Hrefresh. unfold token_request.
  destruct (process_env E "SPOTIFY_CLIENT_ID"); try discriminate.
  destruct (process_env E "SPOTIFY_CLIENT_SECRET"); try discriminate.
  destruct (process_env E "SPOTIFY_REFRESH_TOKEN"); try discriminate.
  injection Hid as ->. injection Hsecret as ->. injection Hrefresh as ->.
  reflexivity.
Qed.

Lemma served_token_request_witness :
  exists clientId clientSecret refreshToken,
    clientId <> EmptyString
    /\ clientSecret <> EmptyString
    /\ refreshToken <> EmptyString
    /\ env_value (scripted [] []) "SPOTIFY_CLIENT_ID" = Some clientId
    /\ env_value (scripted [] []) "SPOTIFY_CLIENT_SECRET" = Some clientSecret
    /\ env_value (scripted [] []) "SPOTIFY_REFRESH_TOKEN" = Some refreshToken
    /\ token_request (scripted [] [])
       = {| url := new_URL "https://accounts.spotify.com/api/token";
            method := "POST";
            headers :=
              [("Content-Type", "application/x-www-form-urlencoded");
               ("Authorization",
                "Basic " ++ base64 (scripted [] []) (clientId ++ ":" ++ clientSecret))];
            payload := FormBody [("grant_type", "refresh_token");
                                 ("refresh_token", refreshToken)] |}.
Proof.
  exact (served_token_request (scripted [] []) _ eq_refl).
Defined.

(** ** Objects *)

Lemma lookup_absent (key : string) (properties : list (string * JSValue)) :
  has_key key properties = false -> lookup key properties = JUndefined.
Proof.
  induction properties as [|[k v] rest IH]; cbn; [reflexivity|].
  destruct (String.eqb key k); cbn; [discriminate | exact IH].
Qed.

Lemma has_key_app (k key : string) (v : JSValue)
  (properties : list (string * JSValue)) :
  has_key k (properties ++ [(key, v)]) = has_key k properties || String.eqb k key.
Proof.
  induction properties as [|[k' v'] rest IH]; cbn.
  - now rewrite orb_false_r.
  - rewrite IH. now rewrite orb_assoc.
Qed.

Lemma lookup_app (k key : string) (v : JSValue)
  (properties : list (string * JSValue)) :
  lookup k (properties ++ [(key, v)])
  = if has_key k properties then lookup k properties
    else if String.eqb k key then v else JUndefined.
Proof.
  induction properties as [|[k' v'] rest IH]; cbn.
  - reflexivity.
  - destruct (String.eqb k k'); cbn; [reflexivity | exact IH].
Qed.

(** Adding a property an object does not have changes no other property. *)
Lemma lookup_app_other (k key : string) (v : JSValue)
  (properties : list (string * JSValue)) :
  String.eqb k key = false ->
  lookup k (properties ++ [(key, v)]) = lookup k properties
  /\ has_key k (properties ++ [(key, v)]) = has_key k properties.
Proof.
  intros Hk. rewrite lookup_app, has_key_app, Hk, orb_false_r.
  split; [|reflexivity].
  destruct (has_key k properties) eqn:Hhas; [reflexivity|].
  symmetry. now apply lookup_absent.
Qed.

Lemma lookup_app_new (key : string) (v : JSValue)
  (properties : list (string * JSValue)) :
  has_key key properties = false ->
  lookup key (properties ++ [(key, v)]) = v
  /\ lookup key properties = JUndefined.
Proof.
  intros Hkey. rewrite lookup_app, Hkey, String.eqb_refl.
  split; [reflexivity | now apply lookup_absent].
Qed.

Lemma lookup_if_has (k : string) (properties : list (string * JSValue)) :
  (if has_key k properties then lookup k properties else JUndefined)
  = lookup k properties.
Proof.
  destruct (has_key k properties) eqn:Hhas; [reflexivity|].
  symmetry. now apply lookup_absent.
Qed.

(** ** The registry and the gateway *)

(** An unregistered name with arguments present: the default case. *)
Lemma call_tool_try_default (E : Engine) (name : string) (args : JSValue) :
  is_tool_name name = false ->
  truthy args = true ->
  call_tool_try E name args = ret (text_envelope ("Unknown tool: " ++ name) true).
Proof.
  intros Hname Hargs.
  destruct (is_tool_name_false name Hname) as (H1 & H2 & H3 & H4 & H5 & H6).
  unfold call_tool_try. rewrite Hargs, H1, H2, H3, H4, H5, H6. reflexivity.
Qed.

(** X6. The six advertised names are pairwise distinct, and a call with
    arguments present is answered "Unknown tool" exactly when its name is
    not among them: the list of tools and the routing agree. *)
Theorem advertised_tools_are_routed (E : Engine) (name : string) (args : JSValue)
  (w : World) :
  truthy args = true ->
  NoDup (map tool_name list_tools)
  /\ (In name (map tool_name list_tools)
      <-> call_tool E name args w
          <> (Normal (text_envelope ("Unknown tool: " ++ name) true), w)).
Proof.
  intros Hargs. split.
  - cbn. repeat constructor; cbn; intuition discriminate.
  - rewrite <- is_tool_name_In. split.
    + intros Hname. rewrite call_tool_normal.
      destruct (dispatched E name args) as [op|] eqn:Hop.
      * rewrite (call_tool_try_dispatched E name args op Hargs Hop), wrap_results.
        destruct (op w) as [[results|e] w1]; intros [=].
      * rewrite (call_tool_try_rejected E name args Hname Hargs Hop).
        intros [=].
    + intros Hanswer. destruct (is_tool_name name) eqn:Hname; [reflexivity|].
      destruct Hanswer. rewrite call_tool_normal.
      now rewrite (call_tool_try_default E name args Hname Hargs).
Qed.

Lemma advertised_tools_are_routed_witness :
  In "spotify_create_playlist" (map tool_name list_tools)
  <-> call_tool (scripted [] []) "spotify_create_playlist" (JObj []) initial_world
      <> (Normal (text_envelope "Unknown tool: spotify_create_playlist" true),
          initial_world).
Proof.
  exact (proj2 (advertised_tools_are_routed (scripted [] []) "spotify_create_playlist"
                  (JObj []) initial_world eq_refl)).
Defined.

(** X7. For a registered name, arguments that are present and that the
    guard of that name rejects get [isError = true] with the one text
    "Error: Invalid arguments for <name>", and the world is untouched: no
    clock reading, no credential fetch, no request. *)
Theorem call_tool_rejects_invalid (E : Engine) (name : string) (args : JSValue)
  (w : World) :
  is_tool_name name = true ->
  truthy args = true ->
  dispatched E name args = None ->
  call_tool E name args w
  = (Normal {| content := [{| type_ := "text";
                              text := "Error: Invalid arguments for " ++ name |}];
               isError := true |},
     w).
Proof.
  intros Hname Hargs Hop.
  rewrite call_tool_normal, (call_tool_try_rejected E name args Hname Hargs Hop).
  reflexivity.
Qed.

Lemma call_tool_rejects_invalid_witness :
  call_tool (scripted [] []) "spotify_add_tracks_to_playlist"
    (JObj [("playlist_id", JStr "P"); ("track_uris", JStr "spotify:track:1")])
    initial_world
  = (Normal {| content :=
                 [{| type_ := "text";
                     text := "Error: Invalid arguments for spotify_add_tracks_to_playlist" |}];
               isError := true |},
     initial_world).
Proof.
  exact (call_tool_rejects_invalid (scripted [] []) "spotify_add_tracks_to_playlist"
           (JObj [("playlist_id", JStr "P"); ("track_uris", JStr "spotify:track:1")])
           initial_world eq_refl eq_refl eq_refl).
Defined.

(** X8. Whenever the gateway routes a call to an operation, the arguments
    hold every property the advertised schema of that tool requires, with
    the type the schema declares for it.  The converse fails for the
    recommendations: their schema requires nothing, and the guard rejects
    the empty object. *)
Theorem guards_enforce_required (E : Engine) (tool : Tool) (args : JSValue)
  (op : M string) (key : string) :
  In tool list_tools ->
  dispatched E (tool_name tool) args = Some op ->
  In (JStr key) (required_properties tool) ->
  has_property key args = true
  /\ has_type (declared_type tool key) (prop args key) = true
  /\ required_properties GET_RECOMMENDATIONS_TOOL = []
  /\ dispatched E "spotify_get_recommendations" (JObj []) = None.
Proof.
  intros Htool Hop Hkey.
  cut (has_property key args = true
       /\ has_type (declared_type tool key) (prop args key) = true);
    [intros [? ?]; repeat split; assumption|].
  unfold list_tools in Htool.
  repeat (destruct Htool as [<-|Htool]); [..|destruct Htool];
    cbn in Hkey;
    repeat (destruct Hkey as [[= <-]|Hkey]); try (now destruct Hkey);
    unfold dispatched in Hop; cbn [tool_name String.eqb Ascii.eqb Bool.eqb
      SEARCH_TRACKS_TOOL CREATE_PLAYLIST_TOOL ADD_TRACKS_TO_PLAYLIST_TOOL
      GET_PLAYLIST_TRACKS_TOOL] in Hop;
    match type of Hop with
    | context [if ?g args then _ else _] =>
        destruct (g args) eqn:Hguard; [clear Hop | discriminate Hop]
    end;
    unfold isSearchTracksArgs, isCreatePlaylistArgs, isAddTracksToPlaylistArgs,
      isGetPlaylistTracksArgs in Hguard;
    repeat (apply andb_prop in Hguard; destruct Hguard as [Hguard ?]);
    (split; [assumption|]);
    unfold declared_type, schema_of; cbn;
    match goal with
    | H : typeof_string ?v = true |- _ => destruct v; try discriminate H; reflexivity
    | H : Array_isArray ?v = true |- _ => destruct v; try discriminate H; reflexivity
    end.
Qed.

Lemma guards_enforce_required_witness :
  has_property "track_uris"
    (JObj [("playlist_id", JStr "P"); ("track_uris", JArr [JStr "spotify:track:1"])])
  = true.
Proof.
  exact (proj1 (guards_enforce_required (scripted [] []) ADD_TRACKS_TO_PLAYLIST_TOOL
                  (JObj [("playlist_id", JStr "P");
                         ("track_uris", JArr [JStr "spotify:track:1"])])
                  _ "track_uris"
                  ltac:(cbn; auto 10) eq_refl ltac:(cbn; auto))).
Defined.

(** The defaults the six schemas advertise. *)
Lemma advertised_defaults (tool : Tool) (key : string) (d : JSValue) :
  In tool list_tools ->
  advertised_default tool key = Some d ->
  (tool = SEARCH_TRACKS_TOOL /\ key = "limit" /\ d = JNum (Num 10))
  \/ (tool = GET_RECOMMENDATIONS_TOOL /\ key = "limit" /\ d = JNum (Num 20))
  \/ (tool = CREATE_PLAYLIST_TOOL /\ key = "description" /\ d = JStr EmptyString)
  \/ (tool = CREATE_PLAYLIST_TOOL /\ key = "public" /\ d = JBool false)
  \/ (tool = GET_USER_PLAYLISTS_TOOL /\ key = "limit" /\ d = JNum (Num 20))
  \/ (tool = GET_USER_PLAYLISTS_TOOL /\ key = "offset" /\ d = JNum (Num 0))
  \/ (tool = GET_PLAYLIST_TRACKS_TOOL /\ key = "limit" /\ d = JNum (Num 50))
  \/ (tool = GET_PLAYLIST_TRACKS_TOOL /\ key = "offset" /\ d = JNum (Num 0)).
Proof.
  intros Htool Hdefault. unfold list_tools in Htool.
  repeat (destruct Htool as [<-|Htool]); [..|destruct Htool];
    unfold advertised_default, schema_of in Hdefault; cbn in Hdefault;
    repeat match type of Hdefault with
           | context [String.eqb key ?k] =>
               destruct (String.eqb_spec key k) as [->|?]; cbn in Hdefault
           end;
    try discriminate Hdefault; injection Hdefault as <-; tauto.
Qed.

(** The reads of the gateway on an object and on the same object with
    one more property. *)
Ltac same_reads Hnew :=
  unfold with_property;
  cbn [truthy negb typeof_object is_null has_property prop get andb orb
       String.eqb Ascii.eqb Bool.eqb];
  rewrite ?lookup_app, ?has_key_app;
  cbn [String.eqb Ascii.eqb Bool.eqb orb];
  rewrite ?orb_false_r, ?lookup_if_has, ?Hnew, ?(lookup_absent _ _ Hnew);
  cbn [default_to is_undefined].

(** X9. The defaults the schemas advertise are the defaults the gateway
    applies: for every advertised tool and every property with a declared
    default, a call that leaves the property out is answered exactly as
    the call that gives it its default value (same envelope, same
    world). *)
Theorem advertised_defaults_applied (E : Engine) (tool : Tool) (key : string)
  (d : JSValue) (properties : list (string * JSValue)) (w : World) :
  In tool list_tools ->
  advertised_default tool key = Some d ->
  has_key key properties = false ->
  call_tool E (tool_name tool) (JObj properties) w
  = call_tool E (tool_name tool) (with_property properties key d) w.
Proof.
  intros Htool Hdefault Hnew.
  destruct (advertised_defaults tool key d Htool Hdefault)
    as [(-> & -> & ->)|[(-> & -> & ->)|[(-> & -> & ->)|[(-> & -> & ->)|
       [(-> & -> & ->)|[(-> & -> & ->)|[(-> & -> & ->)|(-> & -> & ->)]]]]]]];
    unfold call_tool, call_tool_try; cbn [tool_name SEARCH_TRACKS_TOOL
      GET_RECOMMENDATIONS_TOOL CREATE_PLAYLIST_TOOL GET_USER_PLAYLISTS_TOOL
      GET_PLAYLIST_TRACKS_TOOL];
    unfold isSearchTracksArgs, isGetRecommendationsArgs, isCreatePlaylistArgs,
      isGetUserPlaylistsArgs, isGetPlaylistTracksArgs, getRecommendations,
      destructure_params, lift;
    same_reads Hnew; try reflexivity.
Qed.

Lemma advertised_defaults_applied_witness :
  call_tool (scripted [] []) "spotify_search_tracks"
    (JObj [("query", JStr "jazz")]) warm_world
  = call_tool (scripted [] []) "spotify_search_tracks"
      (JObj [("query", JStr "jazz"); ("limit", JNum (Num 10))]) warm_world.
Proof.
  exact (advertised_defaults_applied (scripted [] []) SEARCH_TRACKS_TOOL "limit"
           (JNum (Num 10)) [("query", JStr "jazz")] warm_world
           (or_introl eq_refl) eq_refl eq_refl).
Defined.

(** ** The requests of the operations *)

Lemma bind_after {A B : Type} (c : M A) (k : A -> M B) (a : A) (w w1 : World) :
  c w = (Normal a, w1) -> bind c k w = k a w1.
Proof. intros H. unfold bind. now rewrite H. Qed.

Lemma bind_throws {A B : Type} (c : M A) (k : A -> M B) (e : Thrown) (w w1 : World) :
  c w = (Throw e, w1) -> bind c k w = (Throw e, w1).
Proof. intros H. unfold bind. now rewrite H. Qed.

Lemma offline_bind {A B : Type} (c : M A) (k : A -> M B) :
  offline c -> (forall a, offline (k a)) -> offline (bind c k).
Proof.
  intros Hc Hk w. unfold bind. specialize (Hc w).
  destruct (c w) as [[a|e] w1]; cbn [snd] in *; [|exact Hc].
  rewrite <- Hc. apply Hk.
Qed.

#[local] Hint Resolve offline_bind : failure.

Lemma sends_offline {A : Type} (n : nat) (P : Request -> Prop) (c : M A) :
  offline c -> sends n P c.
Proof.
  intros Hc w. exists []. unfold sent. rewrite Hc. cbn.
  repeat split; [lia | constructor].
Qed.

Lemma sends_if {A : Type} (n : nat) (P : Request -> Prop) (b : bool) (c1 c2 : M A) :
  sends n P c1 -> sends n P c2 -> sends n P (if b then c1 else c2).
Proof. destruct b; auto. Qed.

(** A pure step first: the continuation may use what it returned. *)
Lemma sends_lift_bind {A B : Type} (n : nat) (P : Request -> Prop)
  (c : Completion A) (k : A -> M B) :
  (forall a, c = Normal a -> sends n P (k a)) ->
  sends n P (bind (lift c) k).
Proof.
  intros Hk w. unfold bind, lift. destruct c as [a|e].
  - exact (Hk a eq_refl w).
  - exists []. cbn. repeat split; [lia | constructor].
Qed.

(** A request first. *)
Lemma sends_fetch_bind {A : Type} (E : Engine) (n : nat) (P : Request -> Prop)
  (request : Request) (k : Response -> M A) :
  P request ->
  (forall response, sends n P (k response)) ->
  sends (S n) P (bind (fetch E request) k).
Proof.
  intros Hrequest Hk w. unfold bind, fetch.
  destruct (network E (interactions w) request) as [response|e].
  - match goal with
    | |- context [k response ?w1] => destruct (Hk response w1) as (requests & Hsent & Hlen & Hall)
    end.
    exists (requests ++ [request])%list.
    rewrite Hsent. unfold sent. cbn [exchanges map fst].
    rewrite <- List.app_assoc. cbn [app].
    repeat split.
    + rewrite List.length_app. cbn. lia.
    + apply Forall_app. split; [exact Hall | now constructor].
  - exists [request]. unfold sent. cbn.
    repeat split; [lia | now constructor].
Qed.

(** The two requests with a bearer token carry it, and go to the Web API
    when their address does. *)
Lemma api_request_get (u : URL) (token : string) (within : bool) :
  prefix api_base (href u) = true ->
  api_request token within (bearer_get u (JStr token)).
Proof. intros H. split; [cbn; auto | intros _; exact H]. Qed.

Lemma api_request_post (u : URL) (token : string) (v : JSValue) (within : bool) :
  (within = true -> prefix api_base (href u) = true) ->
  api_request token within (bearer_post u (JStr token) v).
Proof. intros H. split; [cbn; auto | exact H]. Qed.

(** Setting search parameters keeps the address. *)
Lemma set_seed_href (E : Engine) (u u' : URL) (key callee : string) (seed : JSValue) :
  set_seed E u key callee seed = Normal u' -> href u' = href u.
Proof.
  unfold set_seed.
  destruct (get seed "length") as [count|e]; cbn [and_then]; [|discriminate].
  destruct (gt E count 0); [|now intros [= <-]].
  destruct (Array_join callee seed ","); cbn [and_then]; [|discriminate].
  now intros [= <-].
Qed.

Lemma set_target_href (u u' : URL) (key : string) (target : JSValue) :
  set_target u key target = Normal u' -> href u' = href u.
Proof.
  unfold set_target. destruct (negb (is_undefined target)); [|now intros [= <-]].
  destruct (method_toString key target); cbn [and_then]; [|discriminate].
  now intros [= <-].
Qed.

Lemma recommendations_url_href (E : Engine) (p : RecommendationParams) (u : URL) :
  recommendations_url E p = Normal u ->
  href u = "https://api.spotify.com/v1/recommendations".
Proof.
  unfold recommendations_url. cbv zeta.
  destruct (set_seed E _ "seed_tracks" _ _) as [u1|] eqn:H1; cbn [and_then];
    [|discriminate].
  destruct (set_seed E u1 "seed_artists" _ _) as [u2|] eqn:H2; cbn [and_then];
    [|discriminate].
  destruct (set_seed E u2 "seed_genres" _ _) as [u3|] eqn:H3; cbn [and_then];
    [|discriminate].
  destruct (set_target _ "target_energy" _) as [u4|] eqn:H4; cbn [and_then];
    [|discriminate].
  destruct (set_target u4 "target_danceability" _) as [u5|] eqn:H5; cbn [and_then];
    [|discriminate].
  intros H6.
  apply set_target_href in H6, H5, H4. apply set_seed_href in H3, H2, H1.
  cbn [searchParams_set href] in H4. cbn [new_URL href] in H1. congruence.
Qed.

Lemma paging_url_href (E : Engine) (base u : URL) (limit offset : JSValue) (cap : Z) :
  paging_url E base limit cap offset = Normal u -> href u = href base.
Proof.
  unfold paging_url. cbv zeta.
  destruct (method_toString "offset" offset); cbn [and_then]; [|discriminate].
  now intros [= <-].
Qed.

Lemma prefix_api_literal (rest more : string) :
  prefix api_base ((api_base ++ rest) ++ more) = true.
Proof. rewrite append_assoc. apply prefix_append. Qed.

Ltac sends_steps :=
  repeat first
    [ solve [apply sends_offline; auto 10 with failure]
    | apply sends_if
    | apply sends_lift_bind; intros ? ?
    | apply sends_fetch_bind; [ | intros ? ] ].

(** X10. Once the credential fetch has returned a token, an operation
    sends at most two requests (one, except for [createPlaylist] and
    [getPlaylistTracks]), and each carries that token as bearer
    authorization.  Each goes to an address of the Web API,
    "https://api.spotify.com/v1/...", when the address is a literal of the
    program (search, recommendations, the user's playlists) or holds a
    playlist id made of letters and digits.  ([getRecommendations] may
    also stop at its validation, the world untouched.) *)
Theorem api_requests_carry_token (E : Engine) (o : Operation) (w w1 : World)
  (token : string) :
  getAccessToken E w = (Normal (JStr token), w1) ->
  snd (run E o w) = w
  \/ exists requests,
      sent (snd (run E o w)) = (requests ++ sent w1)%list
      /\ (List.length requests <= api_requests_of o)%nat
      /\ Forall
           (fun request =>
              In ("Authorization", "Bearer " ++ token) (headers request)
              /\ (fixed_address o = true ->
                  prefix "https://api.spotify.com/v1/" (href (url request)) = true))
           requests.
Proof.
  intros Htoken.
  destruct o; cbn [run api_requests_of].
  - right. unfold searchTracks. cbv zeta.
    rewrite (bind_after _ _ _ _ _ Htoken). cbv beta.
    refine ((_ : sends 1 (api_request token _) _) w1).
    unfold response_json. sends_steps.
    apply api_request_get. reflexivity.
  - rewrite getRecommendations_steps.
    destruct (destructure_params params) as [p|e]; [|left; reflexivity].
    destruct (validate_seeds E p) as [[]|e]; [|left; reflexivity].
    right. unfold recommend.
    rewrite (bind_after _ _ _ _ _ Htoken). cbv beta.
    refine ((_ : sends 1 (api_request token _) _) w1).
    unfold response_json. sends_steps.
    apply api_request_get.
    match goal with
    | H : recommendations_url E p = Normal _ |- _ =>
        rewrite (recommendations_url_href E p _ H)
    end. reflexivity.
  - right. unfold createPlaylist. cbv zeta.
    rewrite (bind_after _ _ _ _ _ Htoken). cbv beta.
    refine ((_ : sends 2 (api_request token _) _) w1).
    unfold response_json. sends_steps.
    + apply api_request_get. reflexivity.
    + apply api_request_post. discriminate.
  - right. unfold addTracksToPlaylist. cbv zeta.
    rewrite (bind_after _ _ _ _ _ Htoken). cbv beta.
    refine ((_ : sends 1 (api_request token _) _) w1).
    unfold response_json. sends_steps.
    apply api_request_post. intros _. cbn [href new_URL].
    exact (prefix_api_literal "playlists/" _).
  - right. unfold getUserPlaylists. cbv zeta.
    rewrite (bind_after _ _ _ _ _ Htoken). cbv beta.
    refine ((_ : sends 1 (api_request token _) _) w1).
    unfold response_json. sends_steps.
    apply api_request_get.
    match goal with
    | H : paging_url E _ _ _ _ = Normal _ |- _ =>
        rewrite (paging_url_href E _ _ _ _ _ H)
    end. reflexivity.
  - right. unfold getPlaylistTracks. cbv zeta.
    rewrite (bind_after _ _ _ _ _ Htoken). cbv beta.
    refine ((_ : sends 2 (api_request token _) _) w1).
    unfold response_json. sends_steps.
    + apply api_request_get. cbn [href new_URL].
      exact (prefix_api_literal "playlists/" _).
    + apply api_request_get.
      match goal with
      | H : paging_url E _ _ _ _ = Normal _ |- _ =>
          rewrite (paging_url_href E _ _ _ _ _ H)
      end.
      cbn [href new_URL]. exact (prefix_api_literal "playlists/" _).
Qed.

Lemma api_requests_carry_token_witness :
  exists requests,
    sent (snd (run (scripted [playlist_found; page_found]
                      [playlist_document; page_document])
                 (GetPlaylistTracks (JStr "P") JUndefined JUndefined) warm_world))
    = (requests ++ [])%list
    /\ (List.length requests <= 2)%nat
    /\ Forall
         (fun request =>
            In ("Authorization", "Bearer cached") (headers request)
            /\ (alphanumeric "P" = true ->
                prefix "https://api.spotify.com/v1/" (href (url request)) = true))
         requests.
Proof.
  destruct (api_requests_carry_token
              (scripted [playlist_found; page_found]
                 [playlist_document; page_document])
              (GetPlaylistTracks (JStr "P") JUndefined JUndefined)
              warm_world _ "cached" eq_refl)
    as [Habsurd | Hsent].
  - vm_compute in Habsurd. discriminate Habsurd.
  - exact Hsent.
Defined.

(** ** The credential fetch, once more *)

(** The renewal exchange sends its one request; the credential pair
    changes only on an [ok] response. *)
Lemma renew_exchange (E : Engine) (w : World) :
  exchanges (snd (renew E w))
  = (token_request E, network E (interactions w) (token_request E)) :: exchanges w
  /\ (credential (snd (renew E w)) = credential w
      \/ exists r,
          network E (interactions w) (token_request E) = Normal r /\ ok r = true).
Proof.
  unfold renew, try_catch, bind, fetch, throw, lift, write_accessToken,
    write_tokenExpiryTime, read_accessToken, Date_now.
  destruct (network E (interactions w) (token_request E)) as [r|e];
    [|split; [reflexivity | left; reflexivity]].
  destruct (ok r) eqn:Hok; cbn [negb]; [|split; [reflexivity | left; reflexivity]].
  split; [|right; eauto].
  destruct (JSON_parse E (body r)) as [data|e]; [|reflexivity].
  destruct (get data "access_token"); [|reflexivity].
  cbn. destruct (get data "expires_in"); reflexivity.
Qed.

(** X11. One call of [getAccessToken] has at most one exchange with the
    network, the renewal request to the token endpoint: a failed renewal
    is not tried again.  The credential pair changes only when that
    request was answered with an [ok] response. *)
Theorem getAccessToken_single_exchange (E : Engine) (w : World) :
  (exchanges (snd (getAccessToken E w)) = exchanges w
   \/ exists answer,
       exchanges (snd (getAccessToken E w))
       = (token_request E, answer) :: exchanges w)
  /\ (credential (snd (getAccessToken E w)) = credential w
      \/ exists r rest,
          exchanges (snd (getAccessToken E w)) = (token_request E, Normal r) :: rest
          /\ ok r = true).
Proof.
  destruct (token_still_valid_frame E w) as (valid & w1 & Hvalid & Hcred & Hlog).
  unfold getAccessToken, bind. rewrite Hvalid.
  destruct valid.
  - cbn. split; left; assumption.
  - destruct (renew_exchange E w1) as (Hsent & Hpair). rewrite Hsent, Hlog.
    split; [right; eauto|].
    destruct Hpair as [Hsame | (r & Hr & Hok)].
    + left. congruence.
    + right. rewrite Hr. eauto.
Qed.

(** X12. When the credential fetch fails, every operation fails with the
    same error and in the same world: nothing is sent to the Web API.
    ([getRecommendations] may fail at its validation before that, the
    world untouched.) *)
Theorem credential_failure_propagates (E : Engine) (o : Operation) (w w1 : World)
  (e : Thrown) :
  getAccessToken E w = (Throw e, w1) ->
  match o with
  | GetRecommendations params =>
      run E o w = (Throw e, w1)
      \/ exists e', run E o w = (Throw e', w)
  | _ => run E o w = (Throw e, w1)
  end.
Proof.
  intros Htoken. destruct o; cbn [run].
  - unfold searchTracks. cbv zeta. exact (bind_throws _ _ _ _ _ Htoken).
  - rewrite getRecommendations_steps.
    destruct (destructure_params params) as [p|e1]; [|right; eauto].
    destruct (validate_seeds E p) as [[]|e1]; [|right; eauto].
    left. exact (bind_throws _ _ _ _ _ Htoken).
  - unfold createPlaylist. cbv zeta. exact (bind_throws _ _ _ _ _ Htoken).
  - unfold addTracksToPlaylist. cbv zeta. exact (bind_throws _ _ _ _ _ Htoken).
  - unfold getUserPlaylists. cbv zeta. exact (bind_throws _ _ _ _ _ Htoken).
  - unfold getPlaylistTracks. cbv zeta. exact (bind_throws _ _ _ _ _ Htoken).
Qed.

Lemma credential_failure_propagates_witness :
  let E := scripted [token_refused] [] in
  run E (CreatePlaylist (JStr "Mix") JUndefined JUndefined) initial_world
  = (Throw (token_error (snd token_refused)), snd (getAccessToken E initial_world)).
Proof.
  intros E.
  exact (credential_failure_propagates E
           (CreatePlaylist (JStr "Mix") JUndefined JUndefined) initial_world
           _ _ eq_refl).
Defined.

(** X13. A renewed token is reused: after a renewal that stored a
    non-empty token, the next [getAccessToken], at a clock reading still
    before the stored expiry, returns the same token without any exchange
    with the network; the two calls together sent the one renewal
    request. *)
Theorem renewed_token_is_reused (E : Engine) (w0 w : World) (response : Response)
  (data : JSValue) (s : string) (e : Z) :
  token_still_valid E w0 = (Normal false, w) ->
  network E (interactions w) (token_request E) = Normal response ->
  ok response = true ->
  JSON_parse E (body response) = Normal data ->
  get data "access_token" = Normal (JStr s) ->
  s <> EmptyString ->
  get data "expires_in" = Normal (JNum (Num e)) ->
  clock E (S (S (interactions w))) < clock E (S (interactions w)) + 900 * e ->
  exists w1 w2,
    getAccessToken E w0 = (Normal (JStr s), w1)
    /\ getAccessToken E w1 = (Normal (JStr s), w2)
    /\ exchanges w1 = (token_request E, Normal response) :: exchanges w
    /\ exchanges w2 = exchanges w1
    /\ credential w2 = credential w1.
Proof.
  intros Hvalid Hnet Hok Hparse Htoken Hs Hexp Hclock.
  destruct (renew_success E w response data e Hnet Hok Hparse Hexp)
    as (token & Htoken' & Hrenew).
  rewrite Htoken in Htoken'. injection Htoken' as <-.
  rewrite nine_tenths_exact in Hrenew.
  eexists. eexists. split.
  { unfold getAccessToken, bind. rewrite Hvalid. exact Hrenew. }
  unfold getAccessToken, token_still_valid, bind, read_accessToken,
    read_tokenExpiryTime, Date_now, ret.
  cbn -[Z.mul Z.add Z.ltb].
  apply String.eqb_neq in Hs. rewrite Hs. cbn -[Z.mul Z.add Z.ltb].
  apply Z.ltb_lt in Hclock. rewrite Hclock.
  repeat split.
Qed.

Lemma renewed_token_is_reused_witness :
  let E := scripted [token_granted] [token_document] in
  exists w1 w2,
    getAccessToken E initial_world = (Normal (JStr "tok"), w1)
    /\ getAccessToken E w1 = (Normal (JStr "tok"), w2)
    /\ exchanges w1 = (token_request E, Normal (snd token_granted)) :: exchanges initial_world
    /\ exchanges w2 = exchanges w1
    /\ credential w2 = credential w1.
Proof.
  intros E.
  exact (renewed_token_is_reused E initial_world initial_world (snd token_granted)
           (snd token_document) "tok" 3600
           eq_refl eq_refl eq_refl eq_refl eq_refl ltac:(discriminate) eq_refl
           ltac:(vm_compute; reflexivity)).
Defined.

(** ** Listing the user's playlists *)

Lemma paging_url_integers (E : Engine) (address : string) (limit offset cap : Z) :
  paging_url E (new_URL address) (JNum (Num limit)) cap (JNum (Num offset))
  = Normal {| href := address;
              searchParams := [("limit", Number_toString (Num (Z.min limit cap)));
                               ("offset", Number_toString (Num offset))] |}.
Proof.
  unfold paging_url, searchParams_set. cbn.
  destruct (String.eqb_spec "offset" "limit") as [Heq|_]; [discriminate Heq|].
  reflexivity.
Qed.








Example getUserPlaylists_page :
  let E := scripted [playlists_found] [playlists_document] in
  exists result,
    fst (getUserPlaylists E JUndefined (JNum (Num 5)) warm_world) = Normal result
    /\ prefix "Found 2 playlists (showing 6-7 of 7):" result = true.
Proof. eexists. vm_compute. split; reflexivity. Qed.

(** ** Listing the tracks of a playlist *)

(** [getPlaylistTracks] up to its result, on integer arguments, when both
    requests are answered with [ok] responses that parse. *)
Lemma getPlaylistTracks_run (E : Engine) (playlistId : JSValue)
  (limit offset : option Z) (token : JSValue) (w w1 : World)
  (r1 r2 : Response) (playlistData data : JSValue) :
  getAccessToken E w = (Normal token, w1) ->
  let request1 := playlist_request playlistId token in
  let request2 :=
    playlist_page_request playlistId (or_default limit 50) (or_default offset 0)
      token in
  network E (interactions w1) request1 = Normal r1 ->
  ok r1 = true ->
  JSON_parse E (body r1) = Normal playlistData ->
  network E (S (interactions w1)) request2 = Normal r2 ->
  ok r2 = true ->
  JSON_parse E (body r2) = Normal data ->
  exists w3,
    getPlaylistTracks E playlistId (optional limit) (optional offset) w
    = (playlist_tracks_result E (JNum (Num (or_default offset 0))) playlistData data,
       w3)
    /\ sent w3 = request2 :: request1 :: sent w1.
Proof.
  intros Htoken request1 request2 Hnet1 Hok1 Hparse1 Hnet2 Hok2 Hparse2.
  unfold getPlaylistTracks. cbv zeta.
  rewrite (bind_after _ _ _ _ _ Htoken). cbv beta.
  replace (default_to (optional limit) (JNum (Num 50)))
    with (JNum (Num (or_default limit 50))) by (destruct limit; reflexivity).
  replace (default_to (optional offset) (JNum (Num 0)))
    with (JNum (Num (or_default offset 0))) by (destruct offset; reflexivity).
  rewrite paging_url_integers.
  subst request1 request2. unfold playlist_request, playlist_page_request in *.
  unfold bind at 1. unfold fetch at 1. rewrite Hnet1, Hok1. cbn [negb].
  unfold bind at 1. unfold response_json at 1. unfold lift at 1. rewrite Hparse1.
  unfold bind at 1. unfold lift at 1.
  unfold bind at 1. unfold fetch at 1. cbn [interactions].
  rewrite Hnet2, Hok2. cbn [negb].
  unfold bind, response_json, lift. rewrite Hparse2.
  eexists. split; reflexivity.
Qed.

(** One element on which the function throws makes the whole [map]
    throw. *)
Lemma map_indexed_throws {A : Type} (f : JSValue -> Z -> Completion A)
  (l : list JSValue) (x : JSValue) (index : Z) :
  In x l ->
  (forall i, exists e, f x i = Throw e) ->
  exists e, map_indexed f l index = Throw e.
Proof.
  intros Hin Hx. revert index.
  induction l as [|y rest IH]; intros index; [destruct Hin|].
  cbn [map_indexed and_then].
  destruct Hin as [->|Hin].
  - destruct (Hx index) as [e ->]. cbn [and_then]. eauto.
  - destruct (f y index); cbn [and_then]; [|eauto].
    destruct (IH Hin (index + 1)) as [e ->]. cbn [and_then]. eauto.
Qed.

(** X16. One item without its track fails the whole listing: when the
    page holds an item whose [track] is [null] (a track that is no longer
    available), [getPlaylistTracks] throws and returns no text, whatever
    the other items are. *)
Theorem getPlaylistTracks_unavailable_track (E : Engine) (playlistId : JSValue)
  (limit offset : option Z) (token : JSValue) (w w1 : World)
  (r1 r2 : Response) (playlistData data item : JSValue) (items : list JSValue) :
  getAccessToken E w = (Normal token, w1) ->
  network E (interactions w1) (playlist_request playlistId token) = Normal r1 ->
  ok r1 = true ->
  JSON_parse E (body r1) = Normal playlistData ->
  network E (S (interactions w1))
    (playlist_page_request playlistId (or_default limit 50) (or_default offset 0)
       token)
  = Normal r2 ->
  ok r2 = true ->
  JSON_parse E (body r2) = Normal data ->
  get data "items" = Normal (JArr items) ->
  In item items ->
  get item "track" = Normal JNull ->
  exists e,
    fst (getPlaylistTracks E playlistId (optional limit) (optional offset) w)
    = Throw e.
Proof.
  intros Htoken Hnet1 Hok1 Hparse1 Hnet2 Hok2 Hparse2 Hitems Hin Htrack.
  destruct (getPlaylistTracks_run E playlistId limit offset token w w1 r1 r2
              playlistData data Htoken Hnet1 Hok1 Hparse1 Hnet2 Hok2 Hparse2)
    as (w3 & -> & _).
  cbn [fst]. unfold playlist_tracks_result. rewrite Hitems.
  cbn [and_then truthy negb get String.eqb Ascii.eqb Bool.eqb].
  replace (strictly_equals (JNum (Num (Z.of_nat (List.length items)))) 0) with false.
  2:{ symmetry. apply Z.eqb_neq. destruct items; [destruct Hin | cbn; lia]. }
  cbn [Array_map].
  destruct (map_indexed_throws
              (playlist_track_entry E (JNum (Num (or_default offset 0))))
              items item 0 Hin) as [e ->].
  - intros i. unfold playlist_track_entry. rewrite Htrack. cbn. eauto.
  - cbn. eauto.
Qed.

Lemma getPlaylistTracks_unavailable_track_witness :
  let E := scripted [playlist_found; page_found] [playlist_document; gap_document] in
  exists e,
    fst (getPlaylistTracks E (JStr "P") JUndefined JUndefined warm_world) = Throw e.
Proof.
  intros E.
  exact (getPlaylistTracks_unavailable_track E (JStr "P") None None (JStr "cached")
           warm_world _ (snd playlist_found) (snd page_found)
           (snd playlist_document) (snd gap_document)
           (JObj [("added_at", JStr "2024-01-02T00:00:00Z"); ("track", JNull)]) _
           eq_refl eq_refl eq_refl eq_refl eq_refl eq_refl eq_refl eq_refl
           (or_intror (or_introl eq_refl)) eq_refl).
Defined.



(** ** Creating a playlist *)

Lemma fetch_run (E : Engine) (request : Request) (w : World) :
  fetch E request w
  = (network E (interactions w) request,
     {| accessToken := accessToken w;
        tokenExpiryTime := tokenExpiryTime w;
        interactions := S (interactions w);
        exchanges := (request, network E (interactions w) request) :: exchanges w |}).
Proof. reflexivity. Qed.

(** A default parameter, as a case distinction. *)
Lemma default_to_undefined (v d : JSValue) :
  default_to v d = match v with JUndefined => d | _ => v end.
Proof. destruct v; reflexivity. Qed.

(** X18. [createPlaylist] first asks for the profile: a GET of
    "https://api.spotify.com/v1/me" with the bearer token.  When that
    request is answered with a status that is not 2xx, the operation
    throws "Spotify API error: " with the status, the status text and the
    body of that response, and sends nothing else: no playlist is created.
    When it is answered 2xx with a body that parses to a value whose [id]
    is a string of letters and digits, the second and last request is a
    POST to ".../v1/users/<id>/playlists" with the bearer token, the JSON
    content type, and a body holding the name given, the description
    (empty when absent) and the visibility (private when absent). *)
Theorem createPlaylist_requests (E : Engine) (name description isPublic : JSValue)
  (token : string) (w w1 : World) (r1 : Response) :
  getAccessToken E w = (Normal (JStr token), w1) ->
  token_text token = true ->
  network E (interactions w1)
    {| url := {| href := "https://api.spotify.com/v1/me"; searchParams := [] |};
       method := "GET";
       headers := [("Authorization", "Bearer " ++ token)];
       payload := NoBody |}
  = Normal r1 ->
  (ok r1 = false ->
   exists w2,
     createPlaylist E name description isPublic w
     = (Throw (ErrorObject ("Spotify API error: "
                            ++ Number_toString (Num (status r1)) ++ " "
                            ++ statusText r1 ++ LF ++ body r1)),
        w2)
     /\ sent w2
        = {| url := {| href := "https://api.spotify.com/v1/me"; searchParams := [] |};
             method := "GET";
             headers := [("Authorization", "Bearer " ++ token)];
             payload := NoBody |}
          :: sent w1)
  /\ (forall userData userId,
         ok r1 = true ->
         JSON_parse E (body r1) = Normal userData ->
         get userData "id" = Normal (JStr userId) ->
         alphanumeric userId = true ->
         exists outcome w2,
           createPlaylist E name description isPublic w = (outcome, w2)
           /\ sent w2
              = {| url := {| href := "https://api.spotify.com/v1/users/" ++ userId
                                     ++ "/playlists";
                             searchParams := [] |};
                   method := "POST";
                   headers := [("Authorization", "Bearer " ++ token);
                               ("Content-Type", "application/json")];
                   payload :=
                     JsonBody
                       (JObj [("name", name);
                              ("description",
                               match description with
                               | JUndefined => JStr EmptyString
                               | _ => description
                               end);
                              ("public",
                               match isPublic with
                               | JUndefined => JBool false
                               | _ => isPublic
                               end)]) |}
                :: {| url := {| href := "https://api.spotify.com/v1/me";
                                searchParams := [] |};
                      method := "GET";
                      headers := [("Authorization", "Bearer " ++ token)];
                      payload := NoBody |}
                :: sent w1).
Proof.
  intros Htoken _ Hnet1.
  change {| url := {| href := "https://api.spotify.com/v1/me"; searchParams := [] |};
            method := "GET";
            headers := [("Authorization", "Bearer " ++ token)];
            payload := NoBody |}
    with (profile_request token) in *.
  unfold createPlaylist. cbv zeta.
  rewrite (bind_after _ _ _ _ _ Htoken). cbv beta.
  change (bearer_get (new_URL "https://api.spotify.com/v1/me") (JStr token))
    with (profile_request token).
  split.
  - intros Hok.
    unfold bind at 1. rewrite fetch_run, Hnet1. cbv beta iota.
    rewrite Hok. cbn [negb]. unfold throw.
    eexists. split; reflexivity.
  - intros userData userId Hok Hparse Hid _.
    change {| url := {| href := "https://api.spotify.com/v1/users/" ++ userId
                                ++ "/playlists";
                        searchParams := [] |};
              method := "POST";
              headers := [("Authorization", "Bearer " ++ token);
                          ("Content-Type", "application/json")];
              payload :=
                JsonBody
                  (JObj [("name", name);
                         ("description",
                          match description with
                          | JUndefined => JStr EmptyString
                          | _ => description
                          end);
                         ("public",
                          match isPublic with
                          | JUndefined => JBool false
                          | _ => isPublic
                          end)]) |}
      with (new_playlist_request userId name description isPublic token).
    unfold bind at 1. rewrite fetch_run, Hnet1. cbv beta iota.
    rewrite Hok. cbn [negb].
    unfold bind at 1. unfold response_json at 1. unfold lift at 1. rewrite Hparse.
    cbv beta iota.
    unfold bind at 1. unfold lift at 1. rewrite Hid. cbv beta iota.
    rewrite !default_to_undefined.
    change (bearer_post _ (JStr token) _)
      with (new_playlist_request userId name description isPublic token).
    unfold bind at 1. rewrite fetch_run.
    destruct (network E _ (new_playlist_request _ _ _ _ _)) as [r2|e];
      [|eexists; eexists; split; reflexivity].
    destruct (ok r2); cbn [negb];
      [|unfold throw; eexists; eexists; split; reflexivity].
    unfold bind, response_json, lift.
    destruct (JSON_parse E (body r2)); eexists; eexists; split; reflexivity.
Qed.

Lemma createPlaylist_requests_witness :
  exists outcome w2,
    createPlaylist (scripted [profile_found] [profile_document])
      (JStr "Mix") JUndefined JUndefined warm_world
    = (outcome, w2)
    /\ map (fun request => (method request, href (url request), payload request))
         (sent w2)
       = [("POST", "https://api.spotify.com/v1/users/alice/playlists",
           JsonBody (JObj [("name", JStr "Mix");
                           ("description", JStr EmptyString);
                           ("public", JBool false)]));
          ("GET", "https://api.spotify.com/v1/me", NoBody)].
Proof.
  destruct (proj2 (createPlaylist_requests (scripted [profile_found] [profile_document])
                     (JStr "Mix") JUndefined JUndefined
                     "cached" warm_world _ (snd profile_found)
                     eq_refl eq_refl eq_refl)
              (snd profile_document) "alice" eq_refl eq_refl eq_refl eq_refl)
    as (outcome & w2 & Hrun & Hsent).
  exists outcome, w2. split; [exact Hrun|]. rewrite Hsent. reflexivity.
Defined.

(** The profile refused: the error of that answer, and no second
    request. *)
Example createPlaylist_refused :
  let E := scripted [profile_forbidden] [] in
  let '(outcome, w') := createPlaylist E (JStr "Mix") JUndefined JUndefined warm_world in
  outcome = Throw (ErrorObject ("Spotify API error: 403 Forbidden" ++ LF ++ "scope.json"))
  /\ map (fun request => (method request, href (url request))) (sent w')
     = [("GET", "https://api.spotify.com/v1/me")].
Proof. vm_compute. split; reflexivity. Qed.

Example createPlaylist_posted :
  let E := scripted [profile_found] [profile_document] in
  map (fun r => (method r, href (url r), payload r))
    (sent (snd (createPlaylist E (JStr "Mix") JUndefined JUndefined warm_world)))
  = [("POST", "https://api.spotify.com/v1/users/alice/playlists",
      JsonBody (JObj [("name", JStr "Mix");
                      ("description", JStr EmptyString);
                      ("public", JBool false)]));
     ("GET", "https://api.spotify.com/v1/me", NoBody)].
Proof. vm_compute. reflexivity. Qed.

(** ** Adding tracks *)

(** The body of the request, as a case distinction on the position. *)
Lemma add_tracks_body_position (trackUris position : JSValue) :
  add_tracks_body trackUris position
  = JObj (("uris", trackUris)
          :: match position with
             | JUndefined => []
             | _ => [("position", position)]
             end).
Proof. destruct position; reflexivity. Qed.

(** X19. [addTracksToPlaylist] with a playlist id of letters and digits
    sends one request once the token is there: a POST to
    ".../v1/playlists/<id>/tracks" with the bearer token, the JSON content
    type, and a body holding the list of URIs as it came (an empty list
    too), with the [position] only when one was given.  On a 2xx answer
    that parses, the text reports the number of URIs that were sent and
    the snapshot id of the answer. *)
Theorem addTracksToPlaylist_request (E : Engine) (playlistId : string)
  (position : JSValue) (uris : list JSValue) (token : string) (w w1 : World) :
  getAccessToken E w = (Normal (JStr token), w1) ->
  token_text token = true ->
  alphanumeric playlistId = true ->
  let request :=
    {| url := {| href := "https://api.spotify.com/v1/playlists/" ++ playlistId
                         ++ "/tracks";
                 searchParams := [] |};
       method := "POST";
       headers := [("Authorization", "Bearer " ++ token);
                   ("Content-Type", "application/json")];
       payload :=
         JsonBody
           (JObj (("uris", JArr uris)
                  :: match position with
                     | JUndefined => []
                     | _ => [("position", position)]
                     end)) |} in
  (exists outcome w2,
      addTracksToPlaylist E (JStr playlistId) (JArr uris) position w = (outcome, w2)
      /\ sent w2 = request :: sent w1)
  /\ (forall r data snapshot,
         network E (interactions w1) request = Normal r ->
         ok r = true ->
         JSON_parse E (body r) = Normal data ->
         get data "snapshot_id" = Normal snapshot ->
         primitive snapshot = true ->
         fst (addTracksToPlaylist E (JStr playlistId) (JArr uris) position w)
         = Normal ("Successfully added "
                   ++ Number_toString (Num (Z.of_nat (List.length uris)))
                   ++ " track(s) to the playlist!" ++ LF
                   ++ "  Snapshot ID: " ++ ToString snapshot)).
Proof.
  intros Htoken _ _ request.
  assert (Hrun : addTracksToPlaylist E (JStr playlistId) (JArr uris) position w
                 = bind (fetch E request)
                     (fun response =>
                        if negb (ok response) then throw (api_error response)
                        else
                          data <- response_json E response ;;
                          lift (add_tracks_result (JArr uris) data)) w1).
  { unfold addTracksToPlaylist. cbv zeta.
    rewrite (bind_after _ _ _ _ _ Htoken). cbv beta.
    rewrite add_tracks_body_position. reflexivity. }
  split.
  - rewrite Hrun. unfold bind at 1. rewrite fetch_run.
    destruct (network E (interactions w1) request) as [r|e];
      [|eexists; eexists; split; reflexivity].
    destruct (ok r); cbn [negb];
      [|unfold throw; eexists; eexists; split; reflexivity].
    unfold bind, response_json, lift.
    destruct (JSON_parse E (body r)); eexists; eexists; split; reflexivity.
  - intros r data snapshot Hnet Hok Hparse Hsnapshot _.
    rewrite Hrun. unfold bind at 1. rewrite fetch_run.
    rewrite Hnet. cbv beta iota. rewrite Hok. cbn [negb].
    unfold bind, response_json, lift. rewrite Hparse. cbn [fst].
    unfold add_tracks_result. cbn [get String.eqb Ascii.eqb Bool.eqb and_then].
    rewrite Hsnapshot. reflexivity.
Qed.

Lemma addTracksToPlaylist_request_witness :
  exists outcome w2,
    addTracksToPlaylist (scripted [tracks_added] [snapshot_document])
      (JStr "P") (JArr [JStr "spotify:track:1"]) JUndefined warm_world
    = (outcome, w2)
    /\ outcome = Normal ("Successfully added 1 track(s) to the playlist!" ++ LF
                         ++ "  Snapshot ID: s1")
    /\ map (fun request => (method request, href (url request), payload request))
         (sent w2)
       = [("POST", "https://api.spotify.com/v1/playlists/P/tracks",
           JsonBody (JObj [("uris", JArr [JStr "spotify:track:1"])]))].
Proof.
  destruct (addTracksToPlaylist_request (scripted [tracks_added] [snapshot_document])
              "P" JUndefined [JStr "spotify:track:1"] "cached" warm_world _
              eq_refl eq_refl eq_refl)
    as ((outcome & w2 & Hrun & Hsent) & Htext).
  exists outcome, w2. split; [exact Hrun|]. split.
  - specialize (Htext (snd tracks_added) (snd snapshot_document) (JStr "s1")
                  eq_refl eq_refl eq_refl eq_refl eq_refl).
    rewrite Hrun in Htext. exact Htext.
  - rewrite Hsent. reflexivity.
Defined.

(** ** The results of a search *)






Example searchTracks_two_results :
  let E := scripted [search_found] [search_document] in
  fst (searchTracks E (JStr "jazz") JUndefined warm_world)
  = Normal ("Found 2 tracks matching " ++ DQ ++ "jazz" ++ DQ ++ ":" ++ LF ++ LF
            ++ "1. " ++ DQ ++ "One" ++ DQ ++ " by A, B" ++ LF
            ++ "   Album: First" ++ LF
            ++ "   Duration: 0:59" ++ LF
            ++ "   Spotify URI: spotify:track:1" ++ LF
            ++ "   Track ID: 1" ++ LF
            ++ "   Popularity: 50/100" ++ LF
            ++ "  " ++ LF ++ LF
            ++ "2. " ++ DQ ++ "Two" ++ DQ ++ " by C" ++ LF
            ++ "   Album: Second" ++ LF
            ++ "   Duration: 10:00" ++ LF
            ++ "   Spotify URI: spotify:track:2" ++ LF
            ++ "   Track ID: 2" ++ LF
            ++ "   Popularity: 7/100" ++ LF
            ++ "  ").
Proof. vm_compute. reflexivity. Qed.

(** ** The request of the recommendations *)

Lemma join_strings (l : list string) : map join_element (map JStr l) = l.
Proof. induction l as [|x l IH]; cbn; [reflexivity | now rewrite IH]. Qed.

Lemma convertible_JStr (l : list string) : forallb convertible (map JStr l) = true.
Proof. induction l as [|x l IH]; cbn; [reflexivity | exact IH]. Qed.

(** Setting a seed parameter from a list of strings. *)
Lemma set_seed_strings (E : Engine) (u : URL) (key callee : string) (l : list string) :
  set_seed E u key callee (JArr (map JStr l))
  = Normal match l with
           | [] => u
           | _ :: _ => searchParams_set u key (join "," l)
           end.
Proof.
  unfold set_seed, Array_join.
  rewrite convertible_JStr, join_strings.
  destruct l; reflexivity.
Qed.

(** The address built from seeds that are lists of strings, an integer
    limit and no target. *)
Lemma recommendations_url_seeds (E : Engine) (tracks artists genres : list string)
  (limit : option Z) :
  recommendations_url E (seeds_only tracks artists genres limit)
  = Normal
      {| href := "https://api.spotify.com/v1/recommendations";
         searchParams :=
           (seed_parameter "seed_tracks" tracks
            ++ seed_parameter "seed_artists" artists
            ++ seed_parameter "seed_genres" genres
            ++ [("limit",
                 Number_toString (Num (Z.min (or_default limit 20) 100)))])%list |}.
Proof.
  unfold recommendations_url, seeds_only. cbv zeta.
  cbn [seed_tracks seed_artists seed_genres rec_limit target_energy
         target_danceability target_tempo].
  rewrite set_seed_strings. cbn [and_then].
  rewrite set_seed_strings. cbn [and_then].
  rewrite set_seed_strings. cbn [and_then].
  destruct tracks, artists, genres; reflexivity.
Qed.

Example recommendations_url_five_seeds :
  recommendations_url (scripted [] [])
    (seeds_only ["t1"; "t2"; "t3"] ["a1"; "a2"] [] (Some 250))
  = Normal
      {| href := "https://api.spotify.com/v1/recommendations";
         searchParams := [("seed_tracks", "t1,t2,t3");
                          ("seed_artists", "a1,a2");
                          ("limit", "100")] |}.
Proof. reflexivity. Qed.

Lemma destructure_seed_arguments (tracks artists genres : option (list string))
  (limit : option Z) :
  destructure_params (seed_arguments tracks artists genres limit)
  = Normal (seeds_only (seeds_or_none tracks) (seeds_or_none artists)
              (seeds_or_none genres) limit).
Proof.
  destruct tracks, artists, genres, limit; reflexivity.
Qed.

(** X21. A recommendations call whose arguments hold seed lists of strings
    (each list present or left out), an integer limit or none, and no
    audio target, with between one and five seeds in all: once a token is
    there, the operation sends exactly one request, a GET with the bearer
    token to "https://api.spotify.com/v1/recommendations", carrying one
    search parameter for each seed list that is present and not empty (its
    seeds separated by commas, in the order tracks, artists, genres), none
    for a list left out or empty, and then the limit capped at 100 (20
    when left out). *)
Theorem getRecommendations_request (E : Engine)
  (tracks artists genres : option (list string)) (limit : option Z)
  (token : string) (w w1 : World) :
  (1 <= List.length (seeds_or_none tracks) + List.length (seeds_or_none artists)
        + List.length (seeds_or_none genres) <= 5)%nat ->
  getAccessToken E w = (Normal (JStr token), w1) ->
  token_text token = true ->
  exists outcome w2,
    getRecommendations E (seed_arguments tracks artists genres limit) w
    = (outcome, w2)
    /\ sent w2
       = {| url :=
              {| href := "https://api.spotify.com/v1/recommendations";
                 searchParams :=
                   (seed_parameter "seed_tracks" (seeds_or_none tracks)
                    ++ seed_parameter "seed_artists" (seeds_or_none artists)
                    ++ seed_parameter "seed_genres" (seeds_or_none genres)
                    ++ [("limit",
                         Number_toString
                           (Num (Z.min (or_default limit 20) 100)))])%list |};
            method := "GET";
            headers := [("Authorization", "Bearer " ++ token)];
            payload := NoBody |}
         :: sent w1.
Proof.
  intros Hcount Htoken _.
  rewrite getRecommendations_steps, destructure_seed_arguments.
  pose proof (validate_seeds_arrays E
                (seeds_only (seeds_or_none tracks) (seeds_or_none artists)
                   (seeds_or_none genres) limit)
                _ _ _ eq_refl eq_refl eq_refl) as Hvalidate.
  cbv zeta in Hvalidate. rewrite !length_map in Hvalidate. rewrite Hvalidate.
  destruct (Nat.eqb_spec
              (List.length (seeds_or_none tracks) + List.length (seeds_or_none artists)
               + List.length (seeds_or_none genres)) 0) as [|_]; [lia|].
  destruct (Nat.ltb_spec 5
              (List.length (seeds_or_none tracks) + List.length (seeds_or_none artists)
               + List.length (seeds_or_none genres))) as [|_]; [lia|].
  exact (recommend_request E _ _ (JStr token) w w1
           (recommendations_url_seeds E _ _ _ limit) Htoken).
Qed.

Lemma getRecommendations_request_witness :
  exists outcome w2,
    getRecommendations (scripted [] [])
      (seed_arguments (Some ["t1"; "t2"; "t3"]) None (Some []) (Some 250))
      warm_world
    = (outcome, w2)
    /\ map (fun request => (method request, href (url request),
                            searchParams (url request), headers request))
         (sent w2)
       = [("GET", "https://api.spotify.com/v1/recommendations",
           [("seed_tracks", "t1,t2,t3"); ("limit", "100")],
           [("Authorization", "Bearer cached")])].
Proof.
  destruct (getRecommendations_request (scripted [] [])
              (Some ["t1"; "t2"; "t3"]) None (Some []) (Some 250)
              "cached" warm_world _ ltac:(cbn; lia) eq_refl eq_refl)
    as (outcome & w2 & Hrun & Hsent).
  exists outcome, w2. split; [exact Hrun|]. rewrite Hsent. reflexivity.
Defined.
